(** * A shallow embedding of the user-level threading runtime (threads.cpp)

    The runtime keeps a fixed table of thread control blocks, a
    round-robin scheduler driven by SIGALRM, and a directory of counting
    semaphores.  Every entry point brackets its work with lock()/unlock(),
    which block and unblock SIGALRM, so the work of a call (and of a
    delivery of the alarm signal) is one transition on the global state.
    A transition that ends in longjmp continues with the code that follows
    the setjmp which filled the target context; that code is run as part
    of the same transition.

    The calls that give up the processor run schedule(), then unlock(),
    then longjmp, in this order, and so does the handler.  A tick of the
    timer that arrived while SIGALRM was blocked is pending, and it is
    delivered by the unblocking, ahead of the longjmp: the handler then
    runs with current_thread already switched, saves its own context in
    the record of the thread that was about to be resumed, and schedules
    again.  The transitions that end in longjmp therefore take the number
    of ticks delivered in this way as an argument; 0 is the case in which
    none was pending.  A tick delivered at any other point finds the
    running thread in its own code, or in the last unlock() of a call that
    returns, and is a transition of its own.

    The interval timer and the contents of the heap are not represented:
    malloc and realloc are given their outcome as an argument, and free
    only shows in the pointer being reset.

    Integers: every int of the source stays far below 2^31 in the states
    considered (thread indices are below MAX_THREADS, semaphore values
    below SEM_VALUE_MAX), so they are kept in Z; the only conversions that
    can wrap, the cast of a pthread_t handle to int and of the sem_init
    value to unsigned, are written out. *)

From Stdlib Require Import ZArith Lia.
From stdpp Require Import base decidable option list list_numbers.

Local Open Scope Z_scope.

(** ** Constants *)

Definition MAX_THREADS : Z := 150.
Definition SEM_VALUE_MAX : Z := 65536.
Definition MAX_SEMAPHORES : Z := 128.

(** errno.h is not part of the sources; the values are those of Linux. *)
Definition ESRCH : Z := 3.
Definition EINVAL : Z := 22.
Definition EDEADLK : Z := 35.

(** Pointers are addresses; NULL is 0. *)
Definition NULL : Z := 0.

(** [(int)(long)thread]: keep the low 32 bits, read as a signed int. *)
Definition to_int (z : Z) : Z := (z + 2 ^ 31) mod 2 ^ 32 - 2 ^ 31.

(** An int argument received as [unsigned]. *)
Definition to_unsigned (z : Z) : Z := z mod 2 ^ 32.

(** ** Data model *)

Inductive ThreadStatus := READY | RUNNING | EXITED | BLOCKED.

#[global] Instance ThreadStatus_eq_dec : EqDecision ThreadStatus.
Proof. solve_decision. Defined.

(** A jmp_buf is modelled by the place at which a longjmp into it
    continues.  A zero-filled buffer (static storage, or after memset)
    is not a place one can jump to.

    [CtxSignal] is the setjmp of a handler that interrupted the code of
    the thread whose record holds the buffer: going on from it, the
    handler returns and the thread continues.  [CtxUnlock] is the setjmp
    of a handler that was run by the unblocking of SIGALRM between
    schedule() and the longjmp that follows it: the code it interrupted is
    that of the library, on the stack of the thread that was giving up the
    processor, and what is left of it is
    [longjmp(tcb_array[current_thread].context, 1)].  Going on from it,
    the handler returns and this longjmp is executed, by now through the
    very buffer the handler filled, which is that of a function that has
    returned. *)
Inductive Context :=
| CtxZero
| CtxWrapper
| CtxSignal
| CtxUnlock
| CtxJoin (target_index : Z) (value_ptr : Z)
| CtxSemWait.

#[global] Instance Context_eq_dec : EqDecision Context.
Proof. solve_decision. Defined.

Record TCB := mkTCB {
  thread_id : Z;
  stack : Z;
  context : Context;
  status : ThreadStatus;
  start_routine : Z;
  arg : Z;
  return_value : Z;
  joined_by : Z;
  has_been_joined : bool
}.

(** Static storage is zero-initialised; READY is the enumerator 0. *)
Definition tcb_zero : TCB := mkTCB 0 NULL CtxZero READY NULL NULL NULL 0 false.

Definition set_status (st : ThreadStatus) (t : TCB) : TCB :=
  mkTCB (thread_id t) (stack t) (context t) st (start_routine t) (arg t)
        (return_value t) (joined_by t) (has_been_joined t).

Definition set_context (c : Context) (t : TCB) : TCB :=
  mkTCB (thread_id t) (stack t) c (status t) (start_routine t) (arg t)
        (return_value t) (joined_by t) (has_been_joined t).

Definition set_return_value (v : Z) (t : TCB) : TCB :=
  mkTCB (thread_id t) (stack t) (context t) (status t) (start_routine t) (arg t)
        v (joined_by t) (has_been_joined t).

Definition set_joined_by (j : Z) (t : TCB) : TCB :=
  mkTCB (thread_id t) (stack t) (context t) (status t) (start_routine t) (arg t)
        (return_value t) j (has_been_joined t).

(** The waiting queue holds the cells [waiting_queue[0 .. queue_size)];
    [queue_size] is the length of that list. *)
Record SemaphoreData := mkSem {
  sem_initialized : bool;
  value : Z;
  waiting_queue : list Z;
  queue_capacity : Z
}.

Definition queue_size (d : SemaphoreData) : Z := Z.of_nat (length (waiting_queue d)).

(** [semaphores] pairs [semaphore_keys[i]] with the record
    [semaphore_map[i]] points to, for i < num_semaphores.  [user_mem]
    logs the stores made through pointers handed in by the caller, most
    recent first. *)
Record State := mkState {
  tcb_array : list TCB;
  num_threads : Z;
  current_thread : Z;
  initialized : bool;
  semaphores : list (Z * SemaphoreData);
  user_mem : list (Z * Z)
}.

Definition num_semaphores (s : State) : Z := Z.of_nat (length (semaphores s)).

Definition with_tcbs (a : list TCB) (s : State) : State :=
  mkState a (num_threads s) (current_thread s) (initialized s) (semaphores s) (user_mem s).

Definition with_num_threads (n : Z) (s : State) : State :=
  mkState (tcb_array s) n (current_thread s) (initialized s) (semaphores s) (user_mem s).

Definition with_current (c : Z) (s : State) : State :=
  mkState (tcb_array s) (num_threads s) c (initialized s) (semaphores s) (user_mem s).

Definition with_semaphores (d : list (Z * SemaphoreData)) (s : State) : State :=
  mkState (tcb_array s) (num_threads s) (current_thread s) (initialized s) d (user_mem s).

Definition store (p v : Z) (s : State) : State :=
  mkState (tcb_array s) (num_threads s) (current_thread s) (initialized s)
          (semaphores s) ((p, v) :: user_mem s).

(** [tcb_array[i]] and [tcb_array[i].field = ...].  An index outside the
    array is undefined behaviour in the source; here a read yields the
    zero record and a write is dropped. *)
Definition tcb_at (a : list TCB) (i : Z) : TCB :=
  if decide (0 <= i) then default tcb_zero (a !! Z.to_nat i) else tcb_zero.

Definition tcb_upd (f : TCB -> TCB) (i : Z) (a : list TCB) : list TCB :=
  if decide (0 <= i) then alter f (Z.to_nat i) a else a.

(** The state of the process before any call into the library. *)
Definition boot : State :=
  mkState (replicate (Z.to_nat MAX_THREADS) tcb_zero) 0 0 false [] [].

(** What a call, or the alarm, leads to. *)
Inductive Result :=
| Return (ret : Z) (s : State)
    (* the call returns [ret] to its caller *)
| Resume (ret : option Z) (s : State)
    (* control left through longjmp; thread [current_thread s] runs, and
       the call it was suspended in, if any, returns [ret] to it *)
| Exit (code : Z) (s : State)
    (* the process ends through exit(code) *)
| Fault.
    (* undefined behaviour: longjmp through a zero-filled jmp_buf, or
       through one filled by a function that has returned *)

(** ** Semaphore directory *)

Fixpoint get_semaphore_data (dir : list (Z * SemaphoreData)) (sem : Z) : option SemaphoreData :=
  match dir with
  | [] => None
  | (k, d) :: rest => if decide (k = sem) then Some d else get_semaphore_data rest sem
  end.

(** A write through the pointer returned by [get_semaphore_data]. *)
Fixpoint put_semaphore_data (dir : list (Z * SemaphoreData)) (sem : Z) (d' : SemaphoreData)
  : list (Z * SemaphoreData) :=
  match dir with
  | [] => []
  | (k, d) :: rest =>
      if decide (k = sem) then (k, d') :: rest
      else (k, d) :: put_semaphore_data rest sem d'
  end.

Definition add_semaphore_mapping (dir : list (Z * SemaphoreData)) (sem : Z) (d : SemaphoreData)
  : option (list (Z * SemaphoreData)) :=
  if decide (Z.of_nat (length dir) >= MAX_SEMAPHORES) then None
  else Some (dir ++ [(sem, d)]).

Fixpoint remove_semaphore_mapping (dir : list (Z * SemaphoreData)) (sem : Z)
  : list (Z * SemaphoreData) :=
  match dir with
  | [] => []
  | (k, d) :: rest =>
      if decide (k = sem) then rest else (k, d) :: remove_semaphore_mapping rest sem
  end.

(** ** Scheduler *)

(** The while loop of [schedule]: [fuel] iterations are left. *)
Fixpoint schedule_scan (fuel : nat) (a : list TCB) (cur n : Z) : option (list TCB * Z) :=
  match fuel with
  | O => None
  | S k =>
      let cur' := Z.rem (cur + 1) n in
      if decide (status (tcb_at a cur') = READY)
      then Some (tcb_upd (set_status RUNNING) cur' a, cur')
      else schedule_scan k a cur' n
  end.

Definition all_exited (s : State) : bool :=
  forallb (fun i => bool_decide (status (tcb_at (tcb_array s) i) = EXITED))
          (seqZ 0 (num_threads s)).

Definition cleanup_tcb (cur i : Z) (t : TCB) : TCB :=
  mkTCB 0
        (if decide (i <> cur /\ stack t <> NULL) then NULL else stack t)
        CtxZero EXITED NULL NULL NULL (-1) true.

Definition cleanup_all_resources (s : State) : State :=
  if initialized s then
    mkState (foldl (fun a i => tcb_upd (cleanup_tcb (current_thread s) i) i a)
                   (tcb_array s) (seqZ 0 (num_threads s)))
            0 0 false [] (user_mem s)
  else s.

Inductive Sched :=
| Scheduled (s : State)
| Terminated (s : State).

Definition schedule (s : State) : Sched :=
  let original_thread := current_thread s in
  match schedule_scan (Z.to_nat (num_threads s)) (tcb_array s) original_thread (num_threads s) with
  | Some (a, cur) => Scheduled (with_current cur (with_tcbs a s))
  | None =>
      if all_exited s then Terminated (cleanup_all_resources s)
      else
        let st := status (tcb_at (tcb_array s) original_thread) in
        if decide (st <> EXITED /\ st <> BLOCKED)
        then Scheduled (with_tcbs (tcb_upd (set_status RUNNING) original_thread (tcb_array s)) s)
        else Scheduled s
  end.

(** The tail shared by a completed join, on both of its paths. *)
Definition join_reap (target_index value_ptr : Z) (s : State) : State :=
  let t := tcb_at (tcb_array s) target_index in
  let s1 := if decide (value_ptr <> NULL) then store value_ptr (return_value t) s else s in
  with_tcbs (tcb_upd (fun _ => mkTCB 0 NULL CtxZero EXITED NULL NULL NULL (-1) true)
                     target_index (tcb_array s1)) s1.

(** [longjmp(tcb_array[current_thread].context, 1)]. *)
Definition longjmp (s : State) : Result :=
  match context (tcb_at (tcb_array s) (current_thread s)) with
  | CtxZero => Fault
  | CtxWrapper => Resume None s
  | CtxSignal => Resume None s
  | CtxUnlock => Fault
  | CtxSemWait => Resume (Some 0) s
  | CtxJoin target_index value_ptr => Resume (Some 0) (join_reap target_index value_ptr s)
  end.

(** The handler up to its call of [schedule]: the setjmp, which fills
    the context of the current record with the place [c] the handler was
    entered at, and the demotion of a RUNNING record. *)
Definition alarm_demote (c : Context) (s : State) : State :=
  let old_thread := current_thread s in
  let a1 := tcb_upd (set_context c) old_thread (tcb_array s) in
  let a2 := if decide (status (tcb_at a1 old_thread) = RUNNING)
            then tcb_upd (set_status READY) old_thread a1 else a1 in
  with_tcbs a2 s.

(** [schedule(); unlock(); longjmp(tcb_array[current_thread].context, 1)],
    and the same with the mask restored by sigprocmask in the handler.
    With no tick pending the unblocking does nothing.  With [ticks = S k]
    it runs the handler, entered at [CtxUnlock]; the handler ends in the
    same three steps, where [k] more ticks are delivered. *)
Fixpoint yield (ticks : nat) (s : State) : Result :=
  match schedule s with
  | Terminated s' => Exit 0 s'
  | Scheduled s' =>
      match ticks with
      | O => longjmp s'
      | S k => yield k (alarm_demote CtxUnlock s')
      end
  end.

(** A tick delivered while the current thread runs its own code. *)
Definition signal_handler (ticks : nat) (s : State) : Result :=
  yield ticks (alarm_demote CtxSignal s).

Definition init_tcb (i : Z) (t : TCB) : TCB :=
  mkTCB i NULL (context t) EXITED NULL NULL NULL (-1) (bool_decide (i > 0)).

Definition init_main (t : TCB) : TCB :=
  mkTCB (thread_id t) (stack t) (context t) RUNNING (start_routine t) (arg t)
        (return_value t) (joined_by t) false.

Definition init_threading (s : State) : State :=
  if initialized s then s
  else
    let a1 := foldl (fun a i => tcb_upd (init_tcb i) i a) (tcb_array s) (seqZ 0 MAX_THREADS) in
    let a2 := tcb_upd init_main 0 a1 in
    mkState a2 1 0 true (semaphores s) (user_mem s).

(** ** Thread API *)

(** [malloc_stack] is what [malloc(STACK_SIZE)] returns, NULL on failure;
    [thread] is the address the handle is written to. *)
Definition pthread_create (s : State) (thread start arg_ malloc_stack : Z) : Result :=
  let s0 := if initialized s then s else init_threading s in
  if decide (num_threads s0 >= MAX_THREADS) then Return (-1) s0
  else
    let new_thread_id := num_threads s0 in
    let s1 := with_num_threads (num_threads s0 + 1) s0 in
    let s2 := with_tcbs
                (tcb_upd (fun t => mkTCB new_thread_id malloc_stack (context t) READY
                                         start arg_ NULL (-1) false)
                         new_thread_id (tcb_array s1)) s1 in
    if decide (malloc_stack = NULL)
    then Return (-1) (with_num_threads (num_threads s2 - 1) s2)
    else
      let s3 := with_tcbs (tcb_upd (set_context CtxWrapper) new_thread_id (tcb_array s2)) s2 in
      Return 0 (store thread new_thread_id s3).

(** The table edits of [pthread_exit], up to the all-exited test. *)
Definition exit_mark (s : State) (value_ptr : Z) : State :=
  let cur := current_thread s in
  let a1 := tcb_upd (set_return_value value_ptr) cur (tcb_array s) in
  let a2 := tcb_upd (set_status EXITED) cur a1 in
  let jb := joined_by (tcb_at a2 cur) in
  let a3 := if decide (jb <> -1) then tcb_upd (set_status READY) jb a2 else a2 in
  with_tcbs a3 s.

Definition pthread_exit (s : State) (value_ptr : Z) (ticks : nat) : Result :=
  let s1 := exit_mark s value_ptr in
  if all_exited s1 then Exit 0 (cleanup_all_resources s1)
  else yield ticks s1.

Definition pthread_self (s : State) : Z :=
  thread_id (tcb_at (tcb_array s) (current_thread s)).

(** The search loop of [pthread_join], from index [i] with [fuel] slots left. *)
Fixpoint find_thread (fuel : nat) (a : list TCB) (i id : Z) : Z :=
  match fuel with
  | O => -1
  | S k => if decide (thread_id (tcb_at a i) = id) then i
           else find_thread k a (i + 1) id
  end.

(** The edits of [pthread_join] before it gives up the processor. *)
Definition join_block (s : State) (target_index value_ptr : Z) : State :=
  let cur := current_thread s in
  let a1 := tcb_upd (set_joined_by cur) target_index (tcb_array s) in
  let a2 := tcb_upd (set_status BLOCKED) cur a1 in
  let a3 := tcb_upd (set_context (CtxJoin target_index value_ptr)) cur a2 in
  with_tcbs a3 s.

Definition pthread_join (s : State) (thread value_ptr : Z) (ticks : nat) : Result :=
  let target_index :=
    find_thread (Z.to_nat (num_threads s)) (tcb_array s) 0 (to_int thread) in
  if decide (target_index = -1) then Return ESRCH s
  else if has_been_joined (tcb_at (tcb_array s) target_index) then Return EINVAL s
  else if decide (target_index = current_thread s) then Return EDEADLK s
  else if decide (status (tcb_at (tcb_array s) target_index) = EXITED)
  then Return 0 (join_reap target_index value_ptr s)
  else yield ticks (join_block s target_index value_ptr).

(** ** Semaphores *)

(** [data_ok] and [queue_ok] tell whether the two malloc calls succeed. *)
Definition sem_init (s : State) (sem pshared val : Z) (data_ok queue_ok : bool) : Result :=
  let val := to_unsigned val in
  if decide (pshared <> 0 \/ val >= SEM_VALUE_MAX) then Return (-1) s
  else if negb data_ok then Return (-1) s
  else if negb queue_ok then Return (-1) s
  else
    match add_semaphore_mapping (semaphores s) sem (mkSem true val [] 16) with
    | None => Return (-1) s
    | Some dir => Return 0 (with_semaphores dir s)
    end.

Definition sem_destroy (s : State) (sem : Z) : Result :=
  match get_semaphore_data (semaphores s) sem with
  | None => Return (-1) s
  | Some d =>
      if negb (sem_initialized d) then Return (-1) s
      else Return 0 (with_semaphores (remove_semaphore_mapping (semaphores s) sem) s)
  end.

(** The edits of [sem_wait] on its blocking path, for the record [d]
    whose queue has room. *)
Definition wait_block (s : State) (sem : Z) (d : SemaphoreData) : State :=
  let cur := current_thread s in
  let d' := mkSem (sem_initialized d) (value d) (waiting_queue d ++ [cur]) (queue_capacity d) in
  let a1 := tcb_upd (set_status BLOCKED) cur (tcb_array s) in
  let a2 := tcb_upd (set_context CtxSemWait) cur a1 in
  with_tcbs a2 (with_semaphores (put_semaphore_data (semaphores s) sem d') s).

(** [realloc_ok] tells whether growing the queue succeeds when needed. *)
Definition sem_wait (s : State) (sem : Z) (realloc_ok : bool) (ticks : nat) : Result :=
  match get_semaphore_data (semaphores s) sem with
  | None => Return (-1) s
  | Some d =>
      if negb (sem_initialized d) then Return (-1) s
      else if decide (value d > 0)
      then Return 0 (with_semaphores
                       (put_semaphore_data (semaphores s) sem
                          (mkSem (sem_initialized d) (value d - 1)
                                 (waiting_queue d) (queue_capacity d))) s)
      else if decide (queue_size d >= queue_capacity d)
      then
        if realloc_ok
        then yield ticks
               (wait_block s sem
                  (mkSem (sem_initialized d) (value d) (waiting_queue d)
                         (queue_capacity d * 2)))
        else Return (-1) s
      else yield ticks (wait_block s sem d)
  end.

(** The shifting loop of [sem_post]: [q[i] = q[i + 1]] for [fuel] more
    indices, starting at [i]. *)
Fixpoint shift_queue (fuel i : nat) (q : list Z) : list Z :=
  match fuel with
  | O => q
  | S k => shift_queue k (S i) (<[i := default 0 (q !! S i)]> q)
  end.

(** The loop followed by [queue_size--]. *)
Definition dequeue (q : list Z) : list Z :=
  take (length q - 1)%nat (shift_queue (length q - 1)%nat 0 q).

Definition sem_post (s : State) (sem : Z) : Result :=
  match get_semaphore_data (semaphores s) sem with
  | None => Return (-1) s
  | Some d =>
      if negb (sem_initialized d) then Return (-1) s
      else if decide (queue_size d > 0)
      then
        let woken_thread := default 0 (waiting_queue d !! 0%nat) in
        let d' := mkSem (sem_initialized d) (value d) (dequeue (waiting_queue d))
                        (queue_capacity d) in
        Return 0 (with_tcbs (tcb_upd (set_status READY) woken_thread (tcb_array s))
                            (with_semaphores (put_semaphore_data (semaphores s) sem d') s))
      else if decide (value d < SEM_VALUE_MAX - 1)
      then Return 0 (with_semaphores
                       (put_semaphore_data (semaphores s) sem
                          (mkSem (sem_initialized d) (value d + 1)
                                 (waiting_queue d) (queue_capacity d))) s)
      else Return (-1) s
  end.

(** ** Runs of the runtime *)

(** The calls of the running thread, and the ticks of the timer that
    find it in its own code.  [ticks] counts the ticks delivered inside
    the event, by the unblocking that precedes a longjmp. *)
Inductive Event :=
| EvCreate (thread start arg_ malloc_stack : Z)
| EvExit (value_ptr : Z) (ticks : nat)
| EvJoin (thread value_ptr : Z) (ticks : nat)
| EvSemInit (sem pshared val : Z) (data_ok queue_ok : bool)
| EvSemDestroy (sem : Z)
| EvSemWait (sem : Z) (realloc_ok : bool) (ticks : nat)
| EvSemPost (sem : Z)
| EvAlarm (ticks : nat).

Definition step (s : State) (e : Event) : Result :=
  match e with
  | EvCreate thread start arg_ m => pthread_create s thread start arg_ m
  | EvExit v k => pthread_exit s v k
  | EvJoin thread vp k => pthread_join s thread vp k
  | EvSemInit sem p v d q => sem_init s sem p v d q
  | EvSemDestroy sem => sem_destroy s sem
  | EvSemWait sem r k => sem_wait s sem r k
  | EvSemPost sem => sem_post s sem
  | EvAlarm k => signal_handler k s
  end.

Definition gate_ticks (e : Event) : nat :=
  match e with
  | EvExit _ k | EvJoin _ _ k | EvSemWait _ _ k | EvAlarm k => k
  | _ => O
  end.

(** The handler is installed, and the timer armed, by [init_threading]. *)
Definition enabled (s : State) (e : Event) : bool :=
  match e with
  | EvAlarm _ => initialized s
  | _ => true
  end.

(** The state in which the program goes on after a transition. *)
Definition next_state (r : Result) : option State :=
  match r with
  | Return _ s => Some s
  | Resume _ s => Some s
  | Exit _ _ => None
  | Fault => None
  end.

Inductive reachable : State -> Prop :=
| reach_boot : reachable boot
| reach_step s e s' :
    reachable s -> enabled s e = true -> next_state (step s e) = Some s' ->
    reachable s'.

(** Runs a list of events from [s]; [None] when an event is not enabled
    or the process is gone. *)
Fixpoint run (s : State) (es : list Event) : option State :=
  match es with
  | [] => Some s
  | e :: rest =>
      if enabled s e then
        match next_state (step s e) with
        | Some s' => run s' rest
        | None => None
        end
      else None
  end.

(** ** Runs without deadlock and without a tick at the unblocking *)

(** The state in which an event calls [schedule], if it does. *)
Definition suspends (s : State) (e : Event) : option State :=
  match e with
  | EvExit v _ =>
      if all_exited (exit_mark s v) then None else Some (exit_mark s v)
  | EvJoin thread vp _ =>
      let target_index :=
        find_thread (Z.to_nat (num_threads s)) (tcb_array s) 0 (to_int thread) in
      if decide (target_index = -1) then None
      else if has_been_joined (tcb_at (tcb_array s) target_index) then None
      else if decide (target_index = current_thread s) then None
      else if decide (status (tcb_at (tcb_array s) target_index) = EXITED) then None
      else Some (join_block s target_index vp)
  | EvSemWait sem realloc_ok _ =>
      match get_semaphore_data (semaphores s) sem with
      | None => None
      | Some d =>
          if negb (sem_initialized d) then None
          else if decide (value d > 0) then None
          else if decide (queue_size d >= queue_capacity d)
          then
            if realloc_ok
            then Some (wait_block s sem
                         (mkSem (sem_initialized d) (value d) (waiting_queue d)
                                (queue_capacity d * 2)))
            else None
          else Some (wait_block s sem d)
      end
  | EvAlarm _ => Some (alarm_demote CtxSignal s)
  | _ => None
  end.

(** Does the scan of [schedule] come across a READY slot? *)
Definition finds_ready (s : State) : bool :=
  match schedule_scan (Z.to_nat (num_threads s)) (tcb_array s)
                      (current_thread s) (num_threads s) with
  | Some _ => true
  | None => false
  end.

(** An event deadlocks when it calls the scheduler and no slot is READY. *)
Definition deadlocks (s : State) (e : Event) : bool :=
  match suspends s e with
  | Some s1 => negb (finds_ready s1)
  | None => false
  end.

(** The states reached by runs in which every call of the scheduler made
    by the interrupted or calling thread finds a READY slot, and in which
    no tick is delivered between a call of the scheduler and the longjmp
    that follows it. *)
Inductive live : State -> Prop :=
| live_boot : live boot
| live_step s e s' :
    live s -> enabled s e = true -> gate_ticks e = O -> deadlocks s e = false ->
    next_state (step s e) = Some s' -> live s'.

(** Checks both conditions along a run. *)
Fixpoint undisturbed (s : State) (es : list Event) : bool :=
  match es with
  | [] => true
  | e :: rest =>
      Nat.eqb (gate_ticks e) 0 && negb (deadlocks s e) &&
      match next_state (step s e) with
      | Some s' => undisturbed s' rest
      | None => true
      end
  end.

(** * Notions used in the statements *)

(** The k-th slot inspected by [schedule] when it starts from [cur]. *)
Definition slot (cur n k : Z) : Z := (cur + 1 + k) mod n.

(** The requirement that exactly one record is RUNNING, at current_thread. *)
Definition one_running (s : State) : Prop :=
  exists i, status (tcb_at (tcb_array s) i) = RUNNING /\ i = current_thread s /\
            forall j, status (tcb_at (tcb_array s) j) = RUNNING -> j = i.

(** ** Invariants *)



(** No record is RUNNING; at most the current one is. *)
Definition no_running (s : State) : Prop :=
  forall i, status (tcb_at (tcb_array s) i) <> RUNNING.

Definition table_ok (s : State) : Prop :=
  length (tcb_array s) = Z.to_nat MAX_THREADS /\
  forall i, status (tcb_at (tcb_array s) i) = RUNNING -> i = current_thread s.

(** The thread indices queued on some semaphore. *)
Definition all_waiters (s : State) : list Z :=
  concat (map (fun kd => waiting_queue kd.2) (semaphores s)).

(** Functions from slot indices are updated at one index. *)
Definition fupd {A} (f : Z -> A) (k : Z) (v : A) : Z -> A :=
  fun i => if decide (i = k) then v else f i.

(** The table as the invariant of deadlock-free runs sees it: [st], [cx]
    and [jb] give status, context and joined_by of each slot, [ws] the
    queued indices.  A live target's joiner is BLOCKED inside the join on
    it; an EXITED target's joiner is READY; queued threads are BLOCKED
    inside sem_wait, each queued once; a READY thread that will resume
    inside a join finds its target EXITED. *)
Record good (n cur : Z) (st : Z -> ThreadStatus) (cx : Z -> Context)
            (jb : Z -> Z) (ws : list Z) : Prop := mkGood {
  g_num : 1 <= n <= MAX_THREADS;
  g_cur : 0 <= cur < n;
  g_uniq : forall i, st i = RUNNING -> i = cur;
  g_join : forall t, 0 <= t < n -> jb t <> -1 -> st t <> EXITED ->
           0 <= jb t < n /\ st (jb t) = BLOCKED /\ exists vp, cx (jb t) = CtxJoin t vp;
  g_woken : forall t, 0 <= t < n -> jb t <> -1 -> st t = EXITED ->
            0 <= jb t < n /\ st (jb t) = READY /\ exists vp, cx (jb t) = CtxJoin t vp;
  g_queue : forall q, q ∈ ws -> 0 <= q < n /\ st q = BLOCKED /\ cx q = CtxSemWait;
  g_nodup : NoDup ws;
  g_ctx : forall k t vp, 0 <= k < n -> cx k = CtxJoin t vp -> 0 <= t < n /\ t <> k;
  g_ready : forall k t vp, 0 <= k < n -> st k = READY -> cx k = CtxJoin t vp ->
            st t = EXITED
}.

Definition st_of (s : State) : Z -> ThreadStatus := fun i => status (tcb_at (tcb_array s) i).
Definition cx_of (s : State) : Z -> Context := fun i => context (tcb_at (tcb_array s) i).
Definition jb_of (s : State) : Z -> Z := fun i => joined_by (tcb_at (tcb_array s) i).

Definition inv (s : State) : Prop :=
  length (tcb_array s) = Z.to_nat MAX_THREADS /\
  good (num_threads s) (current_thread s) (st_of s) (cx_of s) (jb_of s) (all_waiters s).

Definition running (s : State) : Prop := st_of s (current_thread s) = RUNNING.

(** Before init_threading has run the table is untouched and nobody can
    be queued. *)
Definition pre_init (s : State) : Prop :=
  tcb_array s = tcb_array boot /\ num_threads s = 0 /\ current_thread s = 0 /\
  all_waiters s = [].

Definition live_inv (s : State) : Prop :=
  if initialized s then inv s /\ running s else pre_init s.

(** ** Scenarios *)

(** The state a transition leaves behind, whatever its kind. *)
Definition state_of (r : Result) : State :=
  match r with
  | Return _ s => s
  | Resume _ s => s
  | Exit _ s => s
  | Fault => boot
  end.

(** Main creates one thread and joins it; the thread then exits, which
    completes the join. *)
Definition joined_once_1 : State := state_of (pthread_create boot 1000 77 0 5000).
Definition joined_once_2 : State := state_of (pthread_join joined_once_1 1 2000 0).
Definition joined_once_3 : State := state_of (pthread_exit joined_once_2 42 0).

Definition joined_once_run : list Event :=
  [EvCreate 1000 77 0 5000; EvJoin 1 2000 0; EvExit 42 0].

(** A semaphore with the waiters 3 and 5, in a runtime of six threads. *)
Definition two_waiters : State :=
  mkState (replicate 6 (set_status BLOCKED tcb_zero)) 6 1 true
          [(9, mkSem true 0 [3; 5] 16)] [].

(** Sixteen threads are created and queue up, one after the other, on
    the semaphore 9, filling its queue. *)
Definition full_queue_run : list Event :=
  map (fun i => EvCreate (1000 + i) 77 0 (5000 + i)) (seqZ 1 16)
  ++ [EvSemInit 9 0 0 true true]
  ++ replicate 16 (EvSemWait 9 true 0).

Definition full_queue_state : State :=
  match run boot full_queue_run with Some s => s | None => boot end.

(** Three slots: the caller 0 is BLOCKED, slot 1 has EXITED, slot 2 is READY. *)
Definition three_slots : State :=
  mkState [set_status BLOCKED tcb_zero; set_status EXITED tcb_zero; tcb_zero]
          3 0 true [] [].

(** Main creates a thread and waits on a semaphore at 0; the thread then
    waits on it too.  The scheduler finds no READY slot and keeps the
    BLOCKED caller as current: nobody is RUNNING. *)
Definition both_wait : list Event :=
  [EvCreate 1000 77 0 5000; EvSemInit 9 0 0 true true;
   EvSemWait 9 true 0; EvSemWait 9 true 0].

Definition both_wait_state : State :=
  match run boot both_wait with Some s => s | None => boot end.



(** Main creates two threads and joins the first, which then exits: the
    exit marks main READY and the scheduler hands the processor to the
    second thread.  Slot 1 still has joined_by = 0, and slot 0 is READY. *)
Definition exit_wakes_joiner : list Event :=
  [EvCreate 1000 77 0 5000; EvCreate 1001 77 0 6000; EvJoin 1 0 0; EvExit 42 0].

Definition exit_wakes_joiner_state : State :=
  match run boot exit_wakes_joiner with Some s => s | None => boot end.

Definition second_joiner_state : State :=
  state_of (pthread_join exit_wakes_joiner_state 1 3000 0).

(** Main creates two threads and joins the first while a tick is pending
    at the unblocking. *)
Definition two_threads_state : State :=
  match run boot [EvCreate 1000 77 0 5000; EvCreate 1001 77 0 6000] with
  | Some s => s
  | None => boot
  end.

Definition tick_state : State := state_of (pthread_join two_threads_state 1 0 1).

(** Main, alone, waits on a semaphore at 0 and is handed back the
    processor while still queued; it then creates a thread and joins it,
    and the thread posts the semaphore. *)
Definition post_wakes_joiner : list Event :=
  [EvCreate 1000 77 0 NULL; EvSemInit 9 0 0 true true; EvSemWait 9 true 0;
   EvCreate 1000 77 0 5000; EvJoin 1 0 0; EvSemPost 9].

(** ** Notions for the further properties *)

(** [k] calls of sem_post in a row, each of which must return 0. *)
Fixpoint post_n (k : nat) (s : State) (sem : Z) : option State :=
  match k with
  | O => Some s
  | S k' =>
      match sem_post s sem with
      | Return r s' => if decide (r = 0) then post_n k' s' sem else None
      | _ => None
      end
  end.

(** The indices the runtime uses stay inside the table. *)
Definition bounds_ok (s : State) : Prop :=
  length (tcb_array s) = Z.to_nat MAX_THREADS /\
  if initialized s
  then 1 <= num_threads s <= MAX_THREADS /\ 0 <= current_thread s < num_threads s
  else num_threads s = 0 /\ current_thread s = 0.

(** The bounds the semaphore code relies on: the value fits below
    SEM_VALUE_MAX, and the queue has at least its 16 initial cells and
    never more entries than cells. *)
Definition sem_bounds (d : SemaphoreData) : Prop :=
  0 <= value d < SEM_VALUE_MAX /\
  16 <= queue_capacity d /\ queue_size d <= queue_capacity d.

Definition sems_bounded (s : State) : Prop :=
  num_semaphores s <= MAX_SEMAPHORES /\
  Forall (fun kd => sem_bounds kd.2) (semaphores s).

(** The identity fields of slot [i] in a table of [n] threads: a slot
    below [n] is either an unjoined thread, which carries its index as id
    and, apart from main, an allocated stack, or a joined one, wiped; a
    slot from [n] on carries its index and no stack.  A context inside
    pthread_join names a target below [n]. *)
Definition id_ok (n i : Z) (t : TCB) : Prop :=
  (i < n ->
     (has_been_joined t = false /\ thread_id t = i /\ (stack t <> NULL <-> 1 <= i)) \/
     (has_been_joined t = true /\ thread_id t = 0 /\ stack t = NULL)) /\
  (n <= i -> thread_id t = i /\ stack t = NULL) /\
  (forall tg vp, context t = CtxJoin tg vp -> 0 <= tg < n).

Definition ids_ok (s : State) : Prop :=
  forall i, 0 <= i < MAX_THREADS -> id_ok (num_threads s) i (tcb_at (tcb_array s) i).

Definition ids_inv (s : State) : Prop :=
  bounds_ok s /\
  if initialized s then ids_ok s else tcb_array s = tcb_array boot /\ all_waiters s = [].

(** What undisturbed runs keep of every slot in use: a joined slot is
    EXITED, and a READY slot holds a context one can jump to. *)
Definition slot_live (t : TCB) : Prop :=
  (has_been_joined t = true -> status t = EXITED) /\
  (status t = READY -> context t <> CtxZero /\ context t <> CtxUnlock).

Definition slots_live (s : State) : Prop :=
  forall i, 0 <= i < num_threads s -> slot_live (tcb_at (tcb_array s) i).

(** The entry context of a new thread.  [pthread_create] computes the
    initial stack pointer from the block malloc returned, in
    [unsigned long] arithmetic, and stores it, and the address of
    [thread_wrapper], mangled the way glibc's longjmp expects: xor with
    the pointer guard at [%fs:0x30], then a rotation to the left by 17
    bits, on 64 bits. *)
Definition STACK_SIZE : Z := 32767.

Definition to_ulong (z : Z) : Z := z mod 2 ^ 64.

Definition initial_sp (stack : Z) : Z :=
  let stack_addr := to_ulong (stack + STACK_SIZE) in
  let stack_addr := to_ulong (stack_addr - stack_addr mod 16) in
  to_ulong (stack_addr - 8).

Definition rol17 (x : Z) : Z := Z.lor (to_ulong (Z.shiftl x 17)) (Z.shiftr x 47).

Definition i64_ptr_mangle (guard p : Z) : Z := rol17 (Z.lxor p guard).

(** * Properties *)

(** ** Reading and writing the thread table *)

Section table.
Implicit Types (a : list TCB) (f : TCB -> TCB) (i k : Z).

Lemma tcb_upd_length f i a : length (tcb_upd f i a) = length a.
Proof. unfold tcb_upd. case_decide; [apply length_alter | done]. Qed.

Lemma tcb_at_outside a i :
  ~ (0 <= i < Z.of_nat (length a)) -> tcb_at a i = tcb_zero.
Proof.
  intros Hi. unfold tcb_at. case_decide; [|done].
  rewrite lookup_ge_None_2; [done | lia].
Qed.

Lemma tcb_at_upd f i a k :
  tcb_at (tcb_upd f i a) k =
    if decide (k = i /\ 0 <= i < Z.of_nat (length a)) then f (tcb_at a i) else tcb_at a k.
Proof.
  unfold tcb_at, tcb_upd.
  destruct (decide (0 <= i)) as [Hi|Hi].
  - destruct (decide (0 <= k)) as [Hk|Hk].
    + destruct (decide (k = i)) as [->|Hne].
      * rewrite list_lookup_alter_eq.
        destruct (a !! Z.to_nat i) as [t|] eqn:E; simpl.
        -- apply lookup_lt_Some in E. rewrite decide_True; [done | lia].
        -- apply lookup_ge_None in E. rewrite decide_False; [done | lia].
      * rewrite list_lookup_alter_ne by lia.
        rewrite decide_False; [done | tauto].
    + rewrite decide_False; [done | lia].
  - destruct (decide (k = i /\ _)) as [[_ ?]|_]; [lia | done].
Qed.

Lemma tcb_at_upd_eq f i a :
  0 <= i < Z.of_nat (length a) -> tcb_at (tcb_upd f i a) i = f (tcb_at a i).
Proof. intros Hi. rewrite tcb_at_upd, decide_True; [done | tauto]. Qed.

Lemma tcb_at_upd_ne f i a k : k <> i -> tcb_at (tcb_upd f i a) k = tcb_at a k.
Proof. intros Hi. rewrite tcb_at_upd, decide_False; [done | tauto]. Qed.

(** A field that the update leaves alone reads the same everywhere. *)
Lemma tcb_at_upd_field {B} (g : TCB -> B) f i a k :
  (forall t, g (f t) = g t) -> g (tcb_at (tcb_upd f i a) k) = g (tcb_at a k).
Proof.
  intros Hg. rewrite tcb_at_upd. case_decide as H; [|done].
  destruct H as [-> _]. apply Hg.
Qed.

Lemma tcb_ext a b :
  length a = length b -> (forall i, tcb_at a i = tcb_at b i) -> a = b.
Proof.
  intros Hl H. apply list_eq_same_length with (length a); [by symmetry | done |].
  intros i x y Hi Hx Hy.
  specialize (H (Z.of_nat i)). unfold tcb_at in H.
  destruct (decide (0 <= Z.of_nat i)); [|lia].
  rewrite Nat2Z.id, Hx, Hy in H. exact H.
Qed.

Lemma tcb_upd_outside f i a :
  ~ (0 <= i < Z.of_nat (length a)) -> tcb_upd f i a = a.
Proof.
  intros Hi. apply tcb_ext; [apply tcb_upd_length |].
  intros k. rewrite tcb_at_upd. case_decide; [lia | done].
Qed.
End table.

(** ** Control never comes back from [yield] as a return *)

Lemma longjmp_not_return s r s' : longjmp s <> Return r s'.
Proof. unfold longjmp. by destruct (context _). Qed.

Lemma yield_not_return ticks : forall s r s', yield ticks s <> Return r s'.
Proof.
  induction ticks as [|k IH]; intros s r s'; simpl;
    (destruct (schedule s); [|done]); [apply longjmp_not_return | apply IH].
Qed.

(** With no tick pending, [yield] is the scheduler followed by the jump. *)
Lemma yield_0 s :
  yield 0 s = match schedule s with
              | Terminated s' => Exit 0 s'
              | Scheduled s' => longjmp s'
              end.
Proof. done. Qed.

(** ** pthread_join: the error returns *)

(** C10: every error return of pthread_join (ESRCH when no slot below
    num_threads carries the handle, EINVAL when the slot found has
    has_been_joined set, EDEADLK when the slot found is the caller's)
    hands back the state it was given: no field of any record, and no
    global, is modified, so the caller keeps the status it had. *)
Theorem pthread_join_error_unchanged s thread value_ptr ticks r s' :
  pthread_join s thread value_ptr ticks = Return r s' -> r <> 0 ->
  s' = s /\
  let target_index :=
    find_thread (Z.to_nat (num_threads s)) (tcb_array s) 0 (to_int thread) in
  (r = ESRCH /\ target_index = -1) \/
  (r = EINVAL /\ target_index <> -1 /\
   has_been_joined (tcb_at (tcb_array s) target_index) = true) \/
  (r = EDEADLK /\ target_index = current_thread s /\
   has_been_joined (tcb_at (tcb_array s) target_index) = false).
Proof.
  unfold pthread_join. intros H Hr.
  destruct (decide (find_thread _ _ _ _ = -1)) as [E|E].
  { inversion H; subst. split; [done | by left]. }
  destruct (has_been_joined _) eqn:Hj.
  { inversion H; subst. split; [done | right; by left]. }
  destruct (decide (find_thread _ _ _ _ = current_thread s)) as [Ec|Ec].
  { inversion H; subst. split; [done | right; right]. by rewrite <- Ec. }
  destruct (decide (status _ = EXITED)).
  - inversion H; subst. done.
  - by apply yield_not_return in H.
Qed.

Lemma pthread_join_error_unchanged_witness :
  init_threading boot = init_threading boot /\
  let target_index :=
    find_thread (Z.to_nat (num_threads (init_threading boot)))
                (tcb_array (init_threading boot)) 0 (to_int 0) in
  (EDEADLK = ESRCH /\ target_index = -1) \/
  (EDEADLK = EINVAL /\ target_index <> -1 /\
   has_been_joined (tcb_at (tcb_array (init_threading boot)) target_index) = true) \/
  (EDEADLK = EDEADLK /\ target_index = current_thread (init_threading boot) /\
   has_been_joined (tcb_at (tcb_array (init_threading boot)) target_index) = false).
Proof.
  apply (pthread_join_error_unchanged (init_threading boot) 0 0 0 EDEADLK
           (init_threading boot)).
  - vm_compute. reflexivity.
  - discriminate.
Defined.

(** ** pthread_join: joining the same handle twice *)

(** C1: the handle 1 is joined successfully (the join call of the main
    thread returns 0 and delivers 42), after which the slot allocated for
    it has has_been_joined set; a second pthread_join on the same handle
    returns ESRCH, not EINVAL.  The completed join resets thread_id of the
    slot to 0, so the search by thread_id no longer finds the slot and
    the has_been_joined test is never reached. *)
Theorem second_join_returns_ESRCH :
  pthread_create boot 1000 77 0 5000 = Return 0 joined_once_1 /\
  pthread_join joined_once_1 1 2000 0 = Resume None joined_once_2 /\
  pthread_exit joined_once_2 42 0 = Resume (Some 0) joined_once_3 /\
  current_thread joined_once_3 = 0 /\
  user_mem joined_once_3 = [(2000, 42); (1000, 1)] /\
  has_been_joined (tcb_at (tcb_array joined_once_3) 1) = true /\
  thread_id (tcb_at (tcb_array joined_once_3) 1) = 0 /\
  pthread_join joined_once_3 1 2000 0 = Return ESRCH joined_once_3.
Proof. vm_compute. repeat split. Qed.

(** ** pthread_create: the failure paths *)

(** C8 fails as stated: a failed create does not always leave num_threads
    as it was.  The first pthread_create of a process initialises the
    runtime before anything else; when the allocation of the stack then
    fails, the call returns -1 and the initialisation stays: num_threads
    is 1, where it was 0 when the call was made. *)
Lemma failed_first_create_initialises :
  exists s',
    pthread_create boot 1000 77 0 NULL = Return (-1) s' /\
    num_threads boot = 0 /\ num_threads s' = 1 /\
    initialized boot = false /\ initialized s' = true.
Proof. eexists. split; [reflexivity|]. by vm_compute. Qed.

(** C8, amended: in an initialised runtime, pthread_create with the table
    full returns -1 and changes nothing at all; when there is room and
    malloc of the stack fails it returns -1 with num_threads, the current
    thread, the semaphores and every record other than the one at index
    num_threads as they were (that record, which lies outside the part of
    the table in use, keeps the fields written before the allocation).
    In a runtime that is not initialised, a create whose malloc fails
    returns -1 as well, but leaves the runtime initialised, with
    num_threads = 1.  These are the only ways in which pthread_create
    fails: a full table is met only in an initialised runtime. *)
Theorem pthread_create_failure s thread start arg_ malloc_stack :
  (initialized s = true -> num_threads s >= MAX_THREADS ->
   pthread_create s thread start arg_ malloc_stack = Return (-1) s) /\
  (initialized s = true -> num_threads s < MAX_THREADS -> malloc_stack = NULL ->
   exists s',
     pthread_create s thread start arg_ malloc_stack = Return (-1) s' /\
     num_threads s' = num_threads s /\ current_thread s' = current_thread s /\
     initialized s' = true /\ semaphores s' = semaphores s /\
     user_mem s' = user_mem s /\
     (forall i, i <> num_threads s -> tcb_at (tcb_array s') i = tcb_at (tcb_array s) i) /\
     (0 <= num_threads s < Z.of_nat (length (tcb_array s)) ->
      tcb_at (tcb_array s') (num_threads s) =
        mkTCB (num_threads s) NULL (context (tcb_at (tcb_array s) (num_threads s)))
              READY start arg_ NULL (-1) false)) /\
  (initialized s = false -> malloc_stack = NULL ->
   exists s',
     pthread_create s thread start arg_ malloc_stack = Return (-1) s' /\
     initialized s' = true /\ num_threads s' = 1 /\ current_thread s' = 0 /\
     semaphores s' = semaphores s /\ user_mem s' = user_mem s /\
     forall i, i <> 1 ->
       tcb_at (tcb_array s') i = tcb_at (tcb_array (init_threading s)) i) /\
  (forall r s',
     pthread_create s thread start arg_ malloc_stack = Return r s' -> r <> 0 ->
     r = -1 /\
     (malloc_stack = NULL \/
      (initialized s = true /\ num_threads s >= MAX_THREADS /\ s' = s))).
Proof.
  assert (initialized s = false ->
          num_threads (init_threading s) = 1 /\ current_thread (init_threading s) = 0 /\
          initialized (init_threading s) = true /\
          semaphores (init_threading s) = semaphores s /\
          user_mem (init_threading s) = user_mem s) as Hinit.
  { intros Hi. unfold init_threading. rewrite Hi. done. }
  split; [|split; [|split]].
  - intros Hi Hfull. unfold pthread_create. rewrite Hi. by rewrite decide_True.
  - intros Hi Hroom ->. unfold pthread_create. rewrite Hi.
    rewrite decide_False by lia. rewrite decide_True by done.
    eexists. split; [reflexivity|]. cbn.
    split; [lia|]. split; [done|]. split; [done|]. split; [done|]. split; [done|]. split.
    + intros i Hne. by apply tcb_at_upd_ne.
    + intros Hn. by rewrite tcb_at_upd_eq.
  - intros Hi ->. destruct (Hinit Hi) as (En & Ec & Ei & Es & Em).
    unfold pthread_create. rewrite Hi, En.
    rewrite decide_False by (unfold MAX_THREADS; lia). rewrite decide_True by done.
    eexists. split; [reflexivity|]. cbn.
    split; [done|]. split; [done|]. split; [done|]. split; [done|]. split; [done|].
    intros i Hne. by apply tcb_at_upd_ne.
  - intros r s'. unfold pthread_create.
    destruct (initialized s) eqn:Hi.
    + repeat case_decide; intros [= <- <-] Hr; try done; split; auto.
    + destruct (Hinit eq_refl) as (En & _). rewrite En.
      rewrite decide_False by (unfold MAX_THREADS; lia).
      case_decide; intros [= <- <-] Hr; try done; split; auto.
Qed.

Lemma pthread_create_failure_witness :
  exists s', pthread_create (init_threading boot) 1000 77 0 NULL = Return (-1) s' /\
             num_threads s' = num_threads (init_threading boot).
Proof.
  destruct (pthread_create_failure (init_threading boot) 1000 77 0 NULL) as (_ & H & _).
  destruct H as (s' & H1 & H2 & _).
  - vm_compute. reflexivity.
  - vm_compute. reflexivity.
  - reflexivity.
  - exists s'. split; [exact H1 | exact H2].
Defined.

(** ** The waiting queue is a FIFO *)

Lemma shift_queue_spec (rest : list Z) : forall (pre : list Z) (x : Z),
  exists z, shift_queue (length rest) (length pre) (pre ++ x :: rest) = pre ++ rest ++ [z].
Proof.
  induction rest as [|y rest IH]; intros pre x; simpl.
  - by exists x.
  - replace ((pre ++ x :: y :: rest) !! S (length pre)) with (Some y); simpl.
    + replace (<[length pre:=y]> (pre ++ x :: y :: rest)) with ((pre ++ [y]) ++ y :: rest).
      * destruct (IH (pre ++ [y]) y) as [z Hz].
        rewrite length_app in Hz. simpl in Hz.
        replace (length pre + 1)%nat with (S (length pre)) in Hz by lia.
        exists z. rewrite Hz. by rewrite <- app_assoc.
      * rewrite <- app_assoc. simpl.
        rewrite insert_app_r_alt by lia.
        by rewrite Nat.sub_diag.
    + rewrite lookup_app_r by lia.
      by replace (S (length pre) - length pre)%nat with 1%nat by lia.
Qed.

Lemma dequeue_cons (w : Z) (q : list Z) : dequeue (w :: q) = q.
Proof.
  unfold dequeue. simpl. rewrite Nat.sub_0_r.
  destruct (shift_queue_spec q [] w) as [z Hz]. simpl in Hz.
  rewrite Hz. by rewrite take_app_length.
Qed.

(** ** sem_post *)

(** C6: on an initialised semaphore, sem_post with a non-empty queue
    removes the head of the queue, keeps the order of the other waiters,
    marks the removed thread READY and leaves value alone; with an empty
    queue it increments value when value < SEM_VALUE_MAX - 1 and fails
    with -1 otherwise.  It always returns to its caller, with
    current_thread unchanged. *)
Theorem sem_post_spec s sem d :
  get_semaphore_data (semaphores s) sem = Some d ->
  sem_initialized d = true ->
  (forall w q, waiting_queue d = w :: q ->
     sem_post s sem =
       Return 0 (with_tcbs (tcb_upd (set_status READY) w (tcb_array s))
                   (with_semaphores
                      (put_semaphore_data (semaphores s) sem
                         (mkSem true (value d) q (queue_capacity d))) s))) /\
  (waiting_queue d = [] -> value d < SEM_VALUE_MAX - 1 ->
     sem_post s sem =
       Return 0 (with_semaphores
                   (put_semaphore_data (semaphores s) sem
                      (mkSem true (value d + 1) [] (queue_capacity d))) s)) /\
  (waiting_queue d = [] -> value d >= SEM_VALUE_MAX - 1 ->
     sem_post s sem = Return (-1) s) /\
  (exists r s', sem_post s sem = Return r s' /\
                current_thread s' = current_thread s /\
                num_threads s' = num_threads s).
Proof.
  intros Hget Hinit. unfold sem_post, queue_size. rewrite Hget, Hinit. simpl.
  repeat split.
  - intros w q Hq. rewrite Hq. simpl. by rewrite dequeue_cons.
  - intros Hq Hv. rewrite Hq. simpl. by rewrite decide_True.
  - intros Hq Hv. rewrite Hq. simpl. by rewrite decide_False by lia.
  - repeat case_decide; eauto.
Qed.

Lemma sem_post_spec_witness :
  sem_post two_waiters 9 =
    Return 0 (with_tcbs (tcb_upd (set_status READY) 3 (tcb_array two_waiters))
                (with_semaphores [(9, mkSem true 0 [5] 16)] two_waiters)).
Proof.
  destruct (sem_post_spec two_waiters 9 (mkSem true 0 [3; 5] 16)) as (H & _).
  - reflexivity.
  - reflexivity.
  - exact (H 3 [5] eq_refl).
Defined.

(** ** sem_wait *)

(** C7 fails as stated: sem_wait also returns -1 on an initialised
    semaphore that was not destroyed.  With sixteen threads queued, the
    seventeenth caller finds the queue full, the queue cannot be grown,
    and the call fails. *)
Lemma sem_wait_fails_on_initialized :
  exists s d,
    run boot full_queue_run = Some s /\
    get_semaphore_data (semaphores s) 9 = Some d /\
    sem_initialized d = true /\
    sem_wait s 9 false 0 = Return (-1) s.
Proof.
  exists full_queue_state, (mkSem true 0 (seqZ 0 16) 16).
  vm_compute. repeat split.
Qed.

(** C7, amended: sem_wait returns -1 exactly when the handle has no
    initialised record in the directory (it was never initialised, or it
    was destroyed), or when value is 0, the queue is full and it cannot
    be grown; the state is unchanged in each of these cases.  On an
    initialised semaphore with value > 0 it decrements value and returns 0
    to the caller, with the thread table and current_thread untouched. *)
Theorem sem_wait_spec s sem realloc_ok ticks :
  (forall s', sem_wait s sem realloc_ok ticks = Return (-1) s' <->
     s' = s /\
     (get_semaphore_data (semaphores s) sem = None \/
      exists d, get_semaphore_data (semaphores s) sem = Some d /\
                (sem_initialized d = false \/
                 (sem_initialized d = true /\ value d <= 0 /\
                  queue_size d >= queue_capacity d /\ realloc_ok = false)))) /\
  (forall d, get_semaphore_data (semaphores s) sem = Some d ->
     sem_initialized d = true -> value d > 0 ->
     sem_wait s sem realloc_ok ticks =
       Return 0 (with_semaphores
                   (put_semaphore_data (semaphores s) sem
                      (mkSem true (value d - 1) (waiting_queue d) (queue_capacity d))) s)).
Proof.
  split.
  - intros s'. unfold sem_wait.
    destruct (get_semaphore_data (semaphores s) sem) as [d|] eqn:Hget.
    2:{ split; [intros [= <-]; split; [done | by left] | by intros [-> _]]. }
    destruct (sem_initialized d) eqn:Hinit; simpl.
    2:{ split; [intros [= <-]; split; [done | right; exists d; eauto]
               | by intros [-> _]]. }
    destruct (decide (value d > 0)) as [Hv|Hv].
    { split; [discriminate|].
      intros [_ [|(d' & [= <-] & [?|(_ & ? & _)])]]; [done | congruence | lia]. }
    destruct (decide (queue_size d >= queue_capacity d)) as [Hq|Hq].
    + destruct realloc_ok.
      * split; [by intros ?%yield_not_return|].
        intros [_ [|(d' & [= <-] & [?|(_ & _ & _ & ?)])]]; congruence.
      * split; [|by intros [-> _]].
        intros [= <-]. split; [done|]. right. exists d.
        split; [done|]. right. repeat split; [done | lia | done].
    + split; [by intros ?%yield_not_return|].
      intros [_ [|(d' & [= <-] & [?|(_ & _ & ? & _)])]]; [done | congruence | lia].
  - intros d Hget Hinit Hv. unfold sem_wait. rewrite Hget, Hinit. simpl.
    by rewrite decide_True.
Qed.

Lemma sem_wait_spec_witness :
  sem_wait (with_semaphores [(9, mkSem true 2 [] 16)] boot) 9 true 0 =
    Return 0 (with_semaphores [(9, mkSem true 1 [] 16)] boot).
Proof.
  destruct (sem_wait_spec (with_semaphores [(9, mkSem true 2 [] 16)] boot) 9 true 0)
    as [_ H].
  apply (H (mkSem true 2 [] 16)); [reflexivity | reflexivity | reflexivity].
Defined.

(** ** The scheduler *)

Lemma slot_range cur n k : 0 < n -> 0 <= slot cur n k < n.
Proof. intros Hn. unfold slot. by apply Z.mod_pos_bound. Qed.

Lemma slot_first cur n : 0 <= cur -> 0 < n -> Z.rem (cur + 1) n = slot cur n 0.
Proof.
  intros Hc Hn. unfold slot. rewrite Z.add_0_r.
  apply Z.rem_mod_nonneg; lia.
Qed.

Lemma slot_next cur n k : 0 < n -> slot (slot cur n 0) n k = slot cur n (k + 1).
Proof.
  intros Hn. unfold slot. rewrite Z.add_0_r.
  rewrite <- Z.add_assoc, Zplus_mod_idemp_l. f_equal. lia.
Qed.

Lemma slot_inj cur n k k' :
  0 <= k < n -> 0 <= k' < n -> slot cur n k = slot cur n k' -> k = k'.
Proof.
  unfold slot. intros Hk Hk' E.
  assert (Hn : n <> 0) by lia.
  pose proof (Z.div_mod (cur + 1 + k) n Hn) as E1.
  pose proof (Z.div_mod (cur + 1 + k') n Hn) as E2.
  rewrite E in E1.
  set (q := (cur + 1 + k) / n - (cur + 1 + k') / n).
  assert (k - k' = n * q) as Hd by (unfold q; lia).
  assert (q = 0) as Hq by nia.
  rewrite Hq in Hd. lia.
Qed.

Lemma slot_surj cur n i :
  0 <= i < n -> exists k, 0 <= k < n /\ slot cur n k = i.
Proof.
  intros Hi. exists ((i - cur - 1) mod n). split.
  - apply Z.mod_pos_bound. lia.
  - unfold slot. rewrite Zplus_mod_idemp_r.
    replace (cur + 1 + (i - cur - 1)) with i by lia.
    apply Z.mod_small. lia.
Qed.

Section scan.
Variables (a : list TCB) (n : Z).
Hypothesis Hn : 0 < n.

Lemma schedule_scan_none : forall fuel cur,
  0 <= cur ->
  (forall k, 0 <= k < Z.of_nat fuel -> status (tcb_at a (slot cur n k)) <> READY) ->
  schedule_scan fuel a cur n = None.
Proof using Hn.
  induction fuel as [|fuel IH]; intros cur Hc Hno; simpl; [done|].
  rewrite slot_first by done.
  rewrite decide_False by (apply Hno; lia).
  apply IH; [by apply slot_range|].
  intros k Hk. rewrite slot_next by done. apply Hno. lia.
Qed.

Lemma schedule_scan_found : forall fuel cur k,
  0 <= cur -> 0 <= k < Z.of_nat fuel ->
  status (tcb_at a (slot cur n k)) = READY ->
  (forall k', 0 <= k' < k -> status (tcb_at a (slot cur n k')) <> READY) ->
  schedule_scan fuel a cur n =
    Some (tcb_upd (set_status RUNNING) (slot cur n k) a, slot cur n k).
Proof using Hn.
  induction fuel as [|fuel IH]; intros cur k Hc Hk Hr Hfirst; simpl; [lia|].
  rewrite slot_first by done.
  destruct (decide (k = 0)) as [->|Hk0].
  - by rewrite decide_True.
  - rewrite decide_False by (apply Hfirst; lia).
    replace k with ((k - 1) + 1) by lia.
    rewrite <- slot_next by done.
    apply IH.
    + by apply slot_range.
    + lia.
    + rewrite slot_next by done. by replace (k - 1 + 1) with k by lia.
    + intros k' Hk'. rewrite slot_next by done. apply Hfirst. lia.
Qed.

(** Whatever the scan returns, it is a READY slot below [n], now RUNNING. *)
Lemma schedule_scan_some : forall fuel cur a' c,
  0 <= cur ->
  schedule_scan fuel a cur n = Some (a', c) ->
  0 <= c < n /\ status (tcb_at a c) = READY /\
  a' = tcb_upd (set_status RUNNING) c a.
Proof using Hn.
  induction fuel as [|fuel IH]; intros cur a' c Hc; simpl; [done|].
  rewrite slot_first by done.
  case_decide as Hr.
  - intros [= <- <-]. split; [by apply slot_range | done].
  - intros H. eapply IH; [|exact H]. by apply slot_range.
Qed.
End scan.

Lemma all_exited_true s :
  all_exited s = true <->
  forall i, 0 <= i < num_threads s -> status (tcb_at (tcb_array s) i) = EXITED.
Proof.
  unfold all_exited. rewrite forallb_forall. split.
  - intros H i Hi. specialize (H i). rewrite bool_decide_eq_true in H.
    apply H. apply list_elem_of_In, elem_of_seqZ. lia.
  - intros H i Hi. apply list_elem_of_In, elem_of_seqZ in Hi.
    apply bool_decide_eq_true. apply H. lia.
Qed.

Lemma forallb_false_witness {A} (f : A -> bool) (l : list A) :
  forallb f l = false -> exists x, In x l /\ f x = false.
Proof.
  induction l as [|x l IH]; simpl; [done|].
  destruct (f x) eqn:E; simpl.
  - intros H. destruct (IH H) as (y & Hy & Hf). eauto.
  - eauto.
Qed.

Lemma all_exited_false s :
  all_exited s = false <->
  exists i, 0 <= i < num_threads s /\ status (tcb_at (tcb_array s) i) <> EXITED.
Proof.
  split.
  - intros H. unfold all_exited in H.
    destruct (forallb_false_witness _ _ H) as (i & Hi & Hs).
    apply list_elem_of_In, elem_of_seqZ in Hi.
    apply bool_decide_eq_false in Hs. exists i. split; [lia | done].
  - intros (i & Hi & Hs). destruct (all_exited s) eqn:E; [|done].
    rewrite all_exited_true in E. by specialize (E i Hi).
Qed.

Lemma schedule_terminated s s' :
  schedule s = Terminated s' -> all_exited s = true /\ s' = cleanup_all_resources s.
Proof.
  unfold schedule. destruct (schedule_scan _ _ _ _) as [[a' c]|]; [done|].
  destruct (all_exited s); [by intros [= <-] | by case_decide].
Qed.

(** C3: with num_threads >= 1 and a current index inside the table, the
    scheduler inspects the slots (current + 1 + k) mod num_threads for
    k = 0, 1, ..., which visits every slot below num_threads exactly once;
    the first of them that is READY becomes RUNNING and the new current.
    With no READY slot: if every slot is EXITED the global cleanup runs
    and the process terminates; if some slot is not EXITED the original
    current is kept, and is set to RUNNING only when its status is neither
    EXITED nor BLOCKED. *)
Theorem schedule_spec s :
  let n := num_threads s in
  let cur := current_thread s in
  let a := tcb_array s in
  1 <= n -> 0 <= cur < n ->
  (forall i, 0 <= i < n ->
     exists k, 0 <= k < n /\ slot cur n k = i /\
               forall k', 0 <= k' < n -> slot cur n k' = i -> k' = k) /\
  (forall k, 0 <= k < n ->
     status (tcb_at a (slot cur n k)) = READY ->
     (forall k', 0 <= k' < k -> status (tcb_at a (slot cur n k')) <> READY) ->
     schedule s =
       Scheduled (with_current (slot cur n k)
                    (with_tcbs (tcb_upd (set_status RUNNING) (slot cur n k) a) s))) /\
  ((forall i, 0 <= i < n -> status (tcb_at a i) <> READY) ->
     ((forall i, 0 <= i < n -> status (tcb_at a i) = EXITED) ->
        schedule s = Terminated (cleanup_all_resources s)) /\
     (forall i, 0 <= i < n -> status (tcb_at a i) <> EXITED ->
        schedule s =
          Scheduled
            (if decide (status (tcb_at a cur) <> EXITED /\ status (tcb_at a cur) <> BLOCKED)
             then with_tcbs (tcb_upd (set_status RUNNING) cur a) s
             else s))).
Proof.
  intros n cur a Hn Hcur. split; [|split].
  - intros i Hi. destruct (slot_surj cur n i Hi) as (k & Hk & E).
    exists k. repeat split; [lia | lia | done |].
    intros k' Hk' E'. apply (slot_inj cur n); [done | done | congruence].
  - intros k Hk Hr Hfirst. unfold schedule. fold n cur a.
    rewrite (schedule_scan_found a n) with (k := k); [done | lia | lia | lia | done | done].
  - intros Hno.
    assert (schedule_scan (Z.to_nat n) a cur n = None) as Hscan.
    { apply schedule_scan_none; [lia | lia |].
      intros k Hk. apply Hno. apply slot_range. lia. }
    split.
    + intros Hall. unfold schedule. fold n cur a. rewrite Hscan.
      by rewrite (proj2 (all_exited_true s)).
    + intros i Hi Hlive. unfold schedule. fold n cur a. rewrite Hscan.
      rewrite (proj2 (all_exited_false s)) by eauto.
      by case_decide.
Qed.

Lemma schedule_spec_witness :
  schedule three_slots =
    Scheduled (with_current 2
                 (with_tcbs (tcb_upd (set_status RUNNING) 2 (tcb_array three_slots))
                            three_slots)).
Proof.
  destruct (schedule_spec three_slots) as (_ & H & _).
  - vm_compute. discriminate.
  - vm_compute. split; [discriminate | reflexivity].
  - apply (H 1).
    + vm_compute. split; [discriminate | reflexivity].
    + reflexivity.
    + intros k' Hk'. replace k' with 0 by lia. vm_compute. discriminate.
Defined.

(** ** pthread_exit *)


(** The records after the edits of pthread_exit. *)
Lemma exit_mark_at s v i :
  let cur := current_thread s in
  let a := tcb_array s in
  let jb := joined_by (tcb_at a cur) in
  0 <= cur < Z.of_nat (length a) ->
  tcb_at (tcb_array (exit_mark s v)) i =
    if decide (i = jb /\ jb <> -1 /\ 0 <= jb < Z.of_nat (length a))
    then set_status READY
           (if decide (jb = cur) then set_status EXITED (set_return_value v (tcb_at a cur))
            else tcb_at a jb)
    else if decide (i = cur)
         then set_status EXITED (set_return_value v (tcb_at a cur))
         else tcb_at a i.
Proof.
  intros cur a jb Hcur.
  assert (joined_by (tcb_at (tcb_upd (set_status EXITED) cur
            (tcb_upd (set_return_value v) cur a)) cur) = jb) as Ejb.
  { by rewrite !(tcb_at_upd_field joined_by). }
  unfold exit_mark. fold cur a. rewrite Ejb. cbn [tcb_array with_tcbs].
  destruct (decide (jb <> -1)) as [Hj|Hj].
  - rewrite !tcb_at_upd, !tcb_upd_length.
    repeat case_decide; subst; try done; try tauto; try lia.
  - rewrite decide_False by tauto.
    rewrite !tcb_at_upd, !tcb_upd_length.
    repeat case_decide; subst; try done; try tauto; lia.
Qed.

Lemma exit_mark_frame s v :
  num_threads (exit_mark s v) = num_threads s /\
  current_thread (exit_mark s v) = current_thread s /\
  initialized (exit_mark s v) = initialized s /\
  semaphores (exit_mark s v) = semaphores s /\
  length (tcb_array (exit_mark s v)) = length (tcb_array s).
Proof.
  unfold exit_mark. cbn. repeat split. case_decide; by rewrite !tcb_upd_length.
Qed.




(** ** What a transition leaves alone *)

Lemma schedule_scan_shape fuel a cur n a' c :
  schedule_scan fuel a cur n = Some (a', c) ->
  status (tcb_at a c) = READY /\ a' = tcb_upd (set_status RUNNING) c a.
Proof.
  revert cur. induction fuel as [|fuel IH]; intros cur; simpl; [done|].
  case_decide as Hr.
  - by intros [= <- <-].
  - apply IH.
Qed.

(** The three ways in which [schedule] comes back. *)
Lemma schedule_cases s s1 :
  schedule s = Scheduled s1 ->
  (exists c, schedule_scan (Z.to_nat (num_threads s)) (tcb_array s)
               (current_thread s) (num_threads s)
             = Some (tcb_upd (set_status RUNNING) c (tcb_array s), c) /\
             status (tcb_at (tcb_array s) c) = READY /\
             s1 = with_current c (with_tcbs (tcb_upd (set_status RUNNING) c (tcb_array s)) s)) \/
  (schedule_scan (Z.to_nat (num_threads s)) (tcb_array s)
     (current_thread s) (num_threads s) = None /\
   (s1 = s \/
    s1 = with_tcbs (tcb_upd (set_status RUNNING) (current_thread s) (tcb_array s)) s)).
Proof.
  unfold schedule.
  destruct (schedule_scan _ _ _ _) as [[a' c]|] eqn:E.
  - intros [= <-]. left. exists c.
    destruct (schedule_scan_shape _ _ _ _ _ _ E) as [Hr ->]. done.
  - destruct (all_exited s); [done|].
    case_decide; intros [= <-]; right; (split; [done|]); [by right | by left].
Qed.

(** [longjmp] either goes on in the state it was given, or first
    completes the join the target was suspended in. *)
Lemma longjmp_cases s r s' :
  longjmp s = Resume r s' ->
  s' = s \/
  exists t vp, context (tcb_at (tcb_array s) (current_thread s)) = CtxJoin t vp /\
               s' = join_reap t vp s.
Proof.
  unfold longjmp. destruct (context _) eqn:E; try done.
  - intros [= <- <-]. by left.
  - intros [= <- <-]. by left.
  - intros [= <- <-]. right. eauto.
  - intros [= <- <-]. by left.
Qed.

Lemma yield_cases s s' :
  next_state (yield 0 s) = Some s' ->
  exists s1, schedule s = Scheduled s1 /\
    (s' = s1 \/
     exists t vp, context (tcb_at (tcb_array s1) (current_thread s1)) = CtxJoin t vp /\
                  s' = join_reap t vp s1).
Proof.
  rewrite yield_0. destruct (schedule s) as [s1|s1] eqn:E; [|done].
  intros H. exists s1. split; [done|].
  destruct (longjmp s1) as [| r s2 | |] eqn:El; try done.
  - by apply longjmp_not_return in El.
  - injection H as ->. by apply longjmp_cases in El.
Qed.

(** What holds before a call of the scheduler ([P]) or after it ([Q])
    is carried through [yield], whatever the number of ticks, when the
    scheduler leads from [P] to [Q], the handler from [Q] to [P], and
    the completion of a join keeps [Q]. *)
Lemma yield_inv (P Q : State -> Prop) :
  (forall s s1, P s -> schedule s = Scheduled s1 -> Q s1) ->
  (forall s, Q s -> P (alarm_demote CtxUnlock s)) ->
  (forall s t vp,
     Q s -> context (tcb_at (tcb_array s) (current_thread s)) = CtxJoin t vp ->
     Q (join_reap t vp s)) ->
  forall ticks s s', P s -> next_state (yield ticks s) = Some s' -> Q s'.
Proof.
  intros Hs Ha Hj. induction ticks as [|k IH]; intros s s' HP; simpl;
    destruct (schedule s) as [s1|s1] eqn:E; try done.
  - intros H. destruct (longjmp s1) as [| r s2 | |] eqn:El; try done.
    + by apply longjmp_not_return in El.
    + injection H as ->. apply longjmp_cases in El as [->|(t & vp & Hc & ->)]; eauto.
  - intros H. eapply IH; [|exact H]. eauto.
Qed.

Lemma join_reap_frame t vp s :
  num_threads (join_reap t vp s) = num_threads s /\
  current_thread (join_reap t vp s) = current_thread s /\
  initialized (join_reap t vp s) = initialized s /\
  semaphores (join_reap t vp s) = semaphores s /\
  length (tcb_array (join_reap t vp s)) = length (tcb_array s).
Proof.
  unfold join_reap. case_decide; simpl; by rewrite tcb_upd_length.
Qed.

Lemma join_reap_at t vp s i :
  tcb_at (tcb_array (join_reap t vp s)) i =
    if decide (i = t /\ 0 <= t < Z.of_nat (length (tcb_array s)))
    then mkTCB 0 NULL CtxZero EXITED NULL NULL NULL (-1) true
    else tcb_at (tcb_array s) i.
Proof.
  unfold join_reap. case_decide; simpl; by rewrite tcb_at_upd.
Qed.

Lemma alarm_demote_frame c s :
  num_threads (alarm_demote c s) = num_threads s /\
  current_thread (alarm_demote c s) = current_thread s /\
  initialized (alarm_demote c s) = initialized s /\
  semaphores (alarm_demote c s) = semaphores s /\
  length (tcb_array (alarm_demote c s)) = length (tcb_array s).
Proof.
  unfold alarm_demote. cbn. repeat split. case_decide; by rewrite !tcb_upd_length.
Qed.

Lemma yield_frame ticks s s' :
  next_state (yield ticks s) = Some s' ->
  num_threads s' = num_threads s /\
  initialized s' = initialized s /\
  semaphores s' = semaphores s /\
  length (tcb_array s') = length (tcb_array s).
Proof.
  set (P := fun s0 : State =>
              num_threads s0 = num_threads s /\ initialized s0 = initialized s /\
              semaphores s0 = semaphores s /\
              length (tcb_array s0) = length (tcb_array s)).
  intros H. apply (yield_inv P P) with (ticks := ticks) (s := s); [| | | done | done].
  - intros s0 s1 (E1 & E2 & E3 & E4) Hs.
    destruct (schedule_cases _ _ Hs) as [(c & _ & _ & ->)|[_ [->| ->]]];
      unfold P; simpl; by rewrite ?tcb_upd_length.
  - intros s0 (E1 & E2 & E3 & E4).
    destruct (alarm_demote_frame CtxUnlock s0) as (F1 & _ & F3 & F4 & F5).
    unfold P. by rewrite F1, F3, F4, F5.
  - intros s0 t vp (E1 & E2 & E3 & E4) _.
    destruct (join_reap_frame t vp s0) as (F1 & _ & F3 & F4 & F5).
    unfold P. by rewrite F1, F3, F4, F5.
Qed.

(** ** The semaphore directory *)

Lemma get_semaphore_split dir sem d :
  get_semaphore_data dir sem = Some d ->
  exists l1 l2, dir = l1 ++ (sem, d) :: l2 /\
    (forall d', put_semaphore_data dir sem d' = l1 ++ (sem, d') :: l2) /\
    remove_semaphore_mapping dir sem = l1 ++ l2.
Proof.
  induction dir as [|[k e] dir IH]; simpl; [done|].
  case_decide as Hk.
  - intros [= ->]. subst k. by exists [], dir.
  - intros H. destruct (IH H) as (l1 & l2 & -> & Hput & Hrem).
    exists ((k, e) :: l1), l2. simpl. split; [done|]. split.
    + intros d'. by rewrite Hput.
    + by rewrite Hrem.
Qed.

Lemma get_put_semaphore dir sem d d' :
  get_semaphore_data dir sem = Some d ->
  get_semaphore_data (put_semaphore_data dir sem d') sem = Some d'.
Proof.
  induction dir as [|[k e] dir IH]; simpl; [done|].
  case_decide as Hk; simpl.
  - intros _. by rewrite decide_True.
  - intros H. rewrite decide_False by done. by apply IH.
Qed.

(** ** Semaphores: a non-empty queue means value 0 *)




Lemma init_threading_semaphores s : semaphores (init_threading s) = semaphores s.
Proof. unfold init_threading. by destruct (initialized s). Qed.

Lemma pthread_create_semaphores s thread start arg_ m r s' :
  pthread_create s thread start arg_ m = Return r s' -> semaphores s' = semaphores s.
Proof.
  unfold pthread_create.
  assert (semaphores (if initialized s then s else init_threading s) = semaphores s) as E.
  { destruct (initialized s); [done | apply init_threading_semaphores]. }
  repeat case_decide; intros [= <- <-]; simpl; exact E.
Qed.





Lemma run_reachable es : forall s s',
  reachable s -> run s es = Some s' -> reachable s'.
Proof.
  induction es as [|e es IH]; intros s s' Hr; simpl.
  - by intros [= <-].
  - destruct (enabled s e) eqn:He; [|done].
    destruct (next_state (step s e)) as [s1|] eqn:Hs; [|done].
    apply IH. by eapply reach_step.
Qed.


(** ** At most one record is RUNNING, and it is the current one *)

(** A loop [for (i = 0; i < m; i++) tcb_array[i] = f i tcb_array[i]]. *)
Lemma tcb_at_loop (f : Z -> TCB -> TCB) (m : nat) (a : list TCB) (k : Z) :
  tcb_at (foldl (fun a i => tcb_upd (f i) i a) a (seqZ 0 (Z.of_nat m))) k =
    if decide (0 <= k < Z.of_nat m /\ k < Z.of_nat (length a))
    then f k (tcb_at a k) else tcb_at a k.
Proof.
  revert k. induction m as [|m IH]; intros k.
  - simpl. case_decide; [lia | done].
  - rewrite seqZ_S, foldl_snoc, Z.add_0_l, tcb_at_upd.
    assert (length (foldl (fun a i => tcb_upd (f i) i a) a (seqZ 0 (Z.of_nat m)))
            = length a) as El.
    { clear. generalize (seqZ 0 (Z.of_nat m)) as l. intros l. revert a.
      induction l as [|x l IHl]; intros a; simpl; [done|].
      by rewrite IHl, tcb_upd_length. }
    rewrite El, !IH.
    destruct (decide (k = Z.of_nat m)) as [->|Hk];
      repeat case_decide; try done; try lia.
Qed.

Lemma loop_length (f : Z -> TCB -> TCB) (l : list Z) (a : list TCB) :
  length (foldl (fun a i => tcb_upd (f i) i a) a l) = length a.
Proof.
  revert a. induction l as [|x l IH]; intros a; simpl; [done|].
  by rewrite IH, tcb_upd_length.
Qed.

Lemma init_threading_at s k :
  initialized s = false ->
  tcb_at (tcb_array (init_threading s)) k =
    if decide (0 <= k < MAX_THREADS /\ k < Z.of_nat (length (tcb_array s)))
    then (if decide (k = 0) then init_main (init_tcb 0 (tcb_at (tcb_array s) 0))
          else init_tcb k (tcb_at (tcb_array s) k))
    else tcb_at (tcb_array s) k.
Proof.
  intros Hi. unfold init_threading. rewrite Hi. cbn [tcb_array].
  change MAX_THREADS with (Z.of_nat 150).
  rewrite tcb_at_upd, (loop_length init_tcb), !(tcb_at_loop init_tcb).
  destruct (decide (k = 0)) as [->|Hk]; repeat case_decide; try done; try lia.
Qed.

Lemma init_threading_frame s :
  initialized s = false ->
  length (tcb_array (init_threading s)) = length (tcb_array s) /\
  num_threads (init_threading s) = 1 /\
  current_thread (init_threading s) = 0 /\
  initialized (init_threading s) = true /\
  semaphores (init_threading s) = semaphores s.
Proof.
  intros Hi. unfold init_threading. rewrite Hi. cbn.
  by rewrite tcb_upd_length, (loop_length init_tcb).
Qed.

Lemma join_reap_table_ok t vp s : table_ok s -> table_ok (join_reap t vp s).
Proof.
  intros [Hl Hu]. destruct (join_reap_frame t vp s) as (_ & Ec & _ & _ & El).
  split; [congruence|].
  intros i. rewrite join_reap_at, Ec. case_decide; [done | apply Hu].
Qed.

Ltac upd_cases :=
  repeat (first [ progress (rewrite ?tcb_at_upd, ?tcb_upd_length in * )
                | case_decide ]);
  simpl in *.

Ltac close :=
  repeat match goal with H : _ /\ _ |- _ => destruct H end;
  subst; try done; try tauto; try lia; try congruence.

Lemma status_cur_outside a cur :
  ~ (0 <= cur < Z.of_nat (length a)) -> status (tcb_at a cur) <> RUNNING.
Proof. intros H. by rewrite tcb_at_outside. Qed.

Lemma exit_mark_no_running s v :
  table_ok s ->
  length (tcb_array (exit_mark s v)) = Z.to_nat MAX_THREADS /\ no_running (exit_mark s v).
Proof.
  intros [Hl Hu]. unfold exit_mark, no_running. cbn [tcb_array with_tcbs].
  split; [case_decide; by rewrite !tcb_upd_length|].
  intros i Hr.
  destruct (decide (0 <= current_thread s < Z.of_nat (length (tcb_array s)))) as [Hc|Hc].
  - upd_cases; try done; try tauto; try lia; apply Hu in Hr; close.
  - pose proof (status_cur_outside _ _ Hc) as Hz.
    upd_cases; try done; try tauto; try lia; pose proof (Hu _ Hr); by subst.
Qed.

Lemma join_block_no_running s t vp :
  table_ok s ->
  length (tcb_array (join_block s t vp)) = Z.to_nat MAX_THREADS /\
  no_running (join_block s t vp).
Proof.
  intros [Hl Hu]. unfold join_block, no_running. cbn [tcb_array with_tcbs].
  split; [by rewrite !tcb_upd_length|].
  intros i Hr.
  destruct (decide (0 <= current_thread s < Z.of_nat (length (tcb_array s)))) as [Hc|Hc].
  - upd_cases; try done; try tauto; try lia; apply Hu in Hr; close.
  - pose proof (status_cur_outside _ _ Hc) as Hz.
    upd_cases; try done; try tauto; try lia; pose proof (Hu _ Hr); by subst.
Qed.

Lemma wait_block_no_running s sem d :
  table_ok s ->
  length (tcb_array (wait_block s sem d)) = Z.to_nat MAX_THREADS /\
  no_running (wait_block s sem d).
Proof.
  intros [Hl Hu]. unfold wait_block, no_running. cbn [tcb_array with_tcbs].
  split; [by rewrite !tcb_upd_length|].
  intros i Hr.
  destruct (decide (0 <= current_thread s < Z.of_nat (length (tcb_array s)))) as [Hc|Hc].
  - upd_cases; try done; try tauto; try lia; apply Hu in Hr; close.
  - pose proof (status_cur_outside _ _ Hc) as Hz.
    upd_cases; try done; try tauto; try lia; pose proof (Hu _ Hr); by subst.
Qed.

Lemma alarm_demote_no_running c s :
  table_ok s ->
  length (tcb_array (alarm_demote c s)) = Z.to_nat MAX_THREADS /\
  no_running (alarm_demote c s).
Proof.
  intros [Hl Hu]. unfold alarm_demote, no_running. cbn [tcb_array with_tcbs].
  split; [case_decide; by rewrite !tcb_upd_length|].
  intros i Hr.
  destruct (decide (0 <= current_thread s < Z.of_nat (length (tcb_array s)))) as [Hc|Hc].
  - upd_cases; try done; try tauto; try lia; apply Hu in Hr; close.
  - pose proof (status_cur_outside _ _ Hc) as Hz.
    upd_cases; try done; try tauto; try lia; pose proof (Hu _ Hr); by subst.
Qed.

Lemma yield_table_ok ticks s s' :
  length (tcb_array s) = Z.to_nat MAX_THREADS -> no_running s ->
  next_state (yield ticks s) = Some s' -> table_ok s'.
Proof.
  intros Hl Hno H.
  apply (yield_inv (fun s0 => length (tcb_array s0) = Z.to_nat MAX_THREADS /\ no_running s0)
           table_ok) with (ticks := ticks) (s := s); [| | | done | done].
  - intros s0 s1 [Hl0 Hno0] Hs.
    destruct (schedule_cases _ _ Hs) as [(c & _ & _ & ->)|[_ [->| ->]]];
      (split; simpl; [by rewrite ?tcb_upd_length|]); intros i;
      rewrite ?tcb_at_upd; try case_decide; try tauto; intros Hr; by apply Hno0 in Hr.
  - intros s0 Hok. by apply alarm_demote_no_running.
  - intros s0 t vp Hok _. by apply join_reap_table_ok.
Qed.

Lemma init_threading_table_ok s :
  table_ok s -> table_ok (if initialized s then s else init_threading s).
Proof.
  intros [Hl Hu]. destruct (initialized s) eqn:Hi; [done|].
  destruct (init_threading_frame s Hi) as (El & _ & Ec & _).
  split; [congruence|]. intros i. rewrite init_threading_at, Ec by done.
  repeat case_decide; simpl; try done.
  intros Hr. rewrite tcb_at_outside in Hr; [done|].
  rewrite Hl. unfold MAX_THREADS in *. lia.
Qed.

Lemma step_table_ok s e s' :
  table_ok s -> next_state (step s e) = Some s' -> table_ok s'.
Proof.
  intros Hok H. pose proof Hok as [Hl Hu].
  destruct e as [thread start arg_ m | v tk | thread vp tk | sem p val dk qk | sem | sem rk tk
                 | sem | tk];
    simpl in H.
  - unfold pthread_create in H.
    destruct (init_threading_table_ok s Hok) as [Hl0 Hu0].
    revert H. repeat case_decide; simpl; intros [= <-]; (split; simpl;
      [by rewrite ?tcb_upd_length|]); try done;
      intros i; upd_cases; try done; try tauto; apply Hu0.
  - unfold pthread_exit in H. destruct (all_exited _); [done|].
    destruct (exit_mark_no_running s v Hok). by eapply yield_table_ok.
  - unfold pthread_join in H.
    repeat case_decide; try destruct (has_been_joined _); simpl in H;
      try (injection H as <-); try done.
    + by apply join_reap_table_ok.
    + edestruct (join_block_no_running s) as [? ?]; [done|]. by eapply yield_table_ok.
  - unfold sem_init, add_semaphore_mapping in H.
    repeat case_decide; destruct dk, qk; simpl in H; by injection H as <-.
  - unfold sem_destroy in H.
    destruct (get_semaphore_data _ _) as [d|]; [destruct (sem_initialized d)|];
      simpl in H; by injection H as <-.
  - unfold sem_wait in H.
    destruct (get_semaphore_data _ _) as [d|]; [destruct (sem_initialized d)|];
      simpl in H; try by injection H as <-.
    assert (forall d0, next_state (yield tk (wait_block s sem d0)) = Some s' -> table_ok s')
      as Hy.
    { intros d0 Hd0. destruct (wait_block_no_running s sem d0 Hok).
      by eapply yield_table_ok. }
    repeat case_decide; try destruct rk; simpl in H;
      try (by injection H as <-); by eapply Hy.
  - unfold sem_post in H.
    destruct (get_semaphore_data _ _) as [d|]; [destruct (sem_initialized d)|];
      simpl in H; try by injection H as <-.
    repeat case_decide; simpl in H; injection H as <-; try done.
    split; simpl; [by rewrite tcb_upd_length|].
    intros i. rewrite tcb_at_upd. case_decide; [done | apply Hu].
  - unfold signal_handler in H.
    destruct (alarm_demote_no_running CtxSignal s Hok). by eapply yield_table_ok.
Qed.

Lemma tcb_at_replicate_zero (n : nat) i : tcb_at (replicate n tcb_zero) i = tcb_zero.
Proof.
  unfold tcb_at. case_decide; [|done].
  destruct (decide (Z.to_nat i < n)%nat).
  - by rewrite lookup_replicate_2.
  - rewrite lookup_ge_None_2; [done|]. rewrite length_replicate. lia.
Qed.

Lemma reachable_table_ok s : reachable s -> table_ok s.
Proof.
  induction 1 as [|s e s' _ IH _ Hstep].
  - split; [done|]. intros i. unfold boot. cbn [tcb_array current_thread].
    by rewrite tcb_at_replicate_zero.
  - by eapply step_table_ok.
Qed.

(** ** The invariant of runs without deadlock and without a tick at the
    unblocking *)

Section view.
Variables (n cur : Z) (st : Z -> ThreadStatus) (cx : Z -> Context) (jb : Z -> Z).
Variable ws : list Z.
Hypothesis G : good n cur st cx jb ws.

Lemma good_ext st' cx' jb' ws' :
  (forall i, st' i = st i) -> (forall i, cx' i = cx i) -> (forall i, jb' i = jb i) ->
  (forall q, q ∈ ws' -> q ∈ ws) -> NoDup ws' ->
  good n cur st' cx' jb' ws'.
Proof using G.
  intros Hst Hcx Hjb Hws Hnd. destruct G as [g_num0 g_cur0 g_uniq0 g_join0 g_woken0 g_queue0 g_nodup0 g_ctx0 g_ready0].
  constructor; try done.
  - intros i. rewrite Hst. auto.
  - intros t. rewrite !Hjb, !Hst, Hcx. auto.
  - intros t. rewrite !Hjb, !Hst, Hcx. auto.
  - intros q Hq. rewrite Hst, Hcx. auto.
  - intros k t vp. rewrite Hcx. eauto.
  - intros k t vp. rewrite !Hst, Hcx. eauto.
Qed.

Hypothesis R : st cur = RUNNING.

(** The alarm: the running thread saves its context and becomes READY. *)
Lemma good_alarm : good n cur (fupd st cur READY) (fupd cx cur CtxSignal) jb ws.
Proof using G R.
  destruct G as [g_num0 g_cur0 g_uniq0 g_join0 g_woken0 g_queue0 g_nodup0 g_ctx0 g_ready0]. constructor; try done; unfold fupd.
  - intros i. case_decide; [done | auto].
  - intros t Ht Hj Hal.
    destruct (g_join0 t Ht Hj) as (Hr & Hb & vp & Hc).
    { case_decide; [subst; congruence | done]. }
    split; [done|]. rewrite !decide_False by congruence. eauto.
  - intros t Ht Hj Hex. case_decide; [done|].
    destruct (g_woken0 t Ht Hj Hex) as (Hr & Hb & vp & Hc).
    split; [done|]. rewrite !decide_False by congruence. eauto.
  - intros q Hq. destruct (g_queue0 q Hq) as (Hr & Hb & Hc).
    rewrite !decide_False by congruence. done.
  - intros k t vp Hk. case_decide; [done | eauto].
  - intros k t vp Hk. repeat case_decide; try done.
    + intros Hr Hc. subst. pose proof (g_ready0 _ _ _ Hk Hr Hc). congruence.
    + eauto.
Qed.

Lemma joiner_of_current :
  jb cur <> -1 ->
  0 <= jb cur < n /\ st (jb cur) = BLOCKED /\ jb cur <> cur /\
  exists vp, cx (jb cur) = CtxJoin cur vp.
Proof using G R.
  intros Hj. destruct (g_join _ _ _ _ _ _ G cur) as (Hr & Hb & vp & Hc);
    [apply G | done | congruence |].
  repeat split; [lia | lia | done | congruence | eauto].
Qed.

(** pthread_exit: the caller becomes EXITED and its joiner READY. *)
Lemma good_exit :
  good n cur
       (fupd (if decide (jb cur <> -1) then fupd st (jb cur) READY else st) cur EXITED)
       cx jb ws.
Proof using G R.
  pose proof joiner_of_current as HJ.
  destruct G as [g_num0 g_cur0 g_uniq0 g_join0 g_woken0 g_queue0 g_nodup0 g_ctx0 g_ready0]. constructor; try done; unfold fupd.
  - intros i. repeat case_decide; try done; auto.
  - intros t Ht Hj. case_decide as Ht1; [done|]. intros Hal.
    destruct (g_join0 t Ht Hj) as (Hr & Hb & vp & Hc).
    { revert Hal. repeat case_decide; subst; try done.
      destruct HJ as (_ & ? & _); [done | congruence]. }
    split; [done|]. split; [|eauto].
    rewrite decide_False by congruence.
    case_decide as Hd; [|done]. rewrite decide_False; [done|].
    intros E. destruct (HJ Hd) as (_ & _ & _ & vp' & Hc'). rewrite <- E in Hc'.
    congruence.
  - intros t Ht Hj. case_decide as Ht1.
    + intros _. subst t. destruct (HJ Hj) as (? & ? & ? & vp & ?).
      split; [done|]. rewrite decide_False by done.
      rewrite decide_True by done. rewrite decide_True by done. eauto.
    + intros Hex.
      assert (st t = EXITED) as Hex'.
      { revert Hex. repeat case_decide; done. }
      destruct (g_woken0 t Ht Hj Hex') as (Hr & Hb & vp & Hc).
      split; [done|]. split; [|eauto].
      rewrite decide_False by congruence. repeat case_decide; done.
  - intros q Hq. destruct (g_queue0 q Hq) as (Hr & Hb & Hc).
    split; [done|]. split; [|done].
    rewrite decide_False by congruence.
    case_decide as Hd; [|done]. rewrite decide_False; [done|].
    intros E. destruct (HJ Hd) as (_ & _ & _ & vp' & Hc'). congruence.
  - intros k t vp Hk. case_decide as Hk1; [done|].
    case_decide as Hd.
    + case_decide as Hk2.
      * intros _ Hc. subst k. destruct (HJ Hd) as (_ & _ & _ & vp' & Hc').
        assert (t = cur) as -> by congruence. by rewrite decide_True.
      * intros Hr Hc. pose proof (g_ready0 _ _ _ Hk Hr Hc) as Hex.
        rewrite decide_False by congruence.
        rewrite decide_False; [done|]. intros ->.
        destruct (HJ Hd) as (_ & ? & _). congruence.
    + intros Hr Hc. pose proof (g_ready0 _ _ _ Hk Hr Hc) as Hex.
      rewrite decide_False by congruence. done.
Qed.

(** pthread_join on a live target [t]: the caller blocks on it. *)
Lemma good_join t vp :
  0 <= t < n -> t <> cur -> st t <> EXITED ->
  good n cur (fupd st cur BLOCKED) (fupd cx cur (CtxJoin t vp)) (fupd jb t cur) ws.
Proof using G R.
  intros Ht Htc Hlive.
  destruct G as [g_num0 g_cur0 g_uniq0 g_join0 g_woken0 g_queue0 g_nodup0 g_ctx0 g_ready0]. constructor; try done; unfold fupd.
  - intros i. case_decide; [done | auto].
  - intros t' Ht'. destruct (decide (t' = t)) as [->|Hne].
    + intros _ _. rewrite !decide_True by done. eauto.
    + intros Hj Hal.
      destruct (g_join0 t' Ht' Hj) as (Hr & Hb & vp' & Hc).
      { revert Hal. case_decide; [subst; congruence | done]. }
      split; [done|]. rewrite !decide_False by congruence. eauto.
  - intros t' Ht'. destruct (decide (t' = t)) as [->|Hne].
    + intros _. rewrite decide_False by done. done.
    + intros Hj. case_decide; [done|]. intros Hex.
      destruct (g_woken0 t' Ht' Hj Hex) as (Hr & Hb & vp' & Hc).
      split; [done|]. rewrite !decide_False by congruence. eauto.
  - intros q Hq. destruct (g_queue0 q Hq) as (Hr & Hb & Hc).
    rewrite !decide_False by congruence. done.
  - intros k t' vp' Hk. case_decide; [|eauto].
    intros [= <- <-]. subst k. done.
  - intros k t' vp' Hk. case_decide; [done|].
    intros Hr Hc. pose proof (g_ready0 _ _ _ Hk Hr Hc).
    rewrite decide_False by congruence. done.
Qed.

(** sem_wait on a semaphore at 0: the caller queues up and blocks. *)
Lemma good_wait :
  good n cur (fupd st cur BLOCKED) (fupd cx cur CtxSemWait) jb (cur :: ws).
Proof using G R.
  destruct G as [g_num0 g_cur0 g_uniq0 g_join0 g_woken0 g_queue0 g_nodup0 g_ctx0 g_ready0]. constructor; try done; unfold fupd.
  - intros i. case_decide; [done | auto].
  - intros t Ht Hj Hal.
    destruct (g_join0 t Ht Hj) as (Hr & Hb & vp & Hc).
    { revert Hal. case_decide; [subst; congruence | done]. }
    split; [done|]. rewrite !decide_False by congruence. eauto.
  - intros t Ht Hj. case_decide; [done|]. intros Hex.
    destruct (g_woken0 t Ht Hj Hex) as (Hr & Hb & vp & Hc).
    split; [done|]. rewrite !decide_False by congruence. eauto.
  - intros q Hq. apply elem_of_cons in Hq as [->|Hq].
    + by rewrite !decide_True.
    + destruct (g_queue0 q Hq) as (Hr & Hb & Hc).
      rewrite !decide_False by congruence. done.
  - apply NoDup_cons. split; [|done].
    intros Hq. destruct (g_queue0 _ Hq) as (_ & Hb & _). congruence.
  - intros k t vp Hk. case_decide; [done | eauto].
  - intros k t vp Hk. case_decide; [done|].
    intros Hr Hc. pose proof (g_ready0 _ _ _ Hk Hr Hc).
    rewrite decide_False by congruence. done.
Qed.

(** pthread_create with room in the table and a stack: slot [n] is new. *)
Lemma good_create :
  n < MAX_THREADS ->
  good (n + 1) cur (fupd st n READY) (fupd cx n CtxWrapper) (fupd jb n (-1)) ws.
Proof using G.
  intros Hroom.
  destruct G as [g_num0 g_cur0 g_uniq0 g_join0 g_woken0 g_queue0 g_nodup0 g_ctx0 g_ready0]. constructor; try done; unfold fupd; try lia.
  - intros i. case_decide; [done | auto].
  - intros t Ht. case_decide as Htn; [done|]. intros Hj Hal.
    destruct (g_join0 t) as (Hr & Hb & vp & Hc); [lia | done | done |].
    split; [lia|]. rewrite !decide_False by lia. eauto.
  - intros t Ht. case_decide as Htn; [done|]. intros Hj Hex.
    destruct (g_woken0 t) as (Hr & Hb & vp & Hc); [lia | done | done |].
    split; [lia|]. rewrite !decide_False by lia. eauto.
  - intros q Hq. destruct (g_queue0 q Hq) as (Hr & Hb & Hc).
    rewrite !decide_False by lia. split; [lia | done].
  - intros k t vp Hk. case_decide; [done|]. intros Hc.
    destruct (g_ctx0 k t vp); [lia | done | ]. split; [lia | done].
  - intros k t vp Hk. case_decide as Hkn; [done|]. intros Hr Hc.
    destruct (g_ctx0 k t vp); [lia | done | ].
    rewrite decide_False by lia. eapply g_ready0; [|done|done]. lia.
Qed.

(** pthread_create whose malloc fails: slot [n] was filled in, but the
    counter is back at [n]. *)
Lemma good_create_failed :
  good n cur (fupd st n READY) cx (fupd jb n (-1)) ws.
Proof using G.
  destruct G as [g_num0 g_cur0 g_uniq0 g_join0 g_woken0 g_queue0 g_nodup0 g_ctx0 g_ready0]. constructor; try done; unfold fupd; try lia.
  - intros i. case_decide; [done | auto].
  - intros t Ht. rewrite (decide_False (P := t = n)) by lia.
    rewrite (decide_False (P := t = n)) by lia. intros Hj Hal.
    destruct (g_join0 t Ht Hj Hal) as (Hr & Hb & vp & Hc).
    split; [lia|]. rewrite !decide_False by lia. eauto.
  - intros t Ht. rewrite (decide_False (P := t = n)) by lia.
    rewrite (decide_False (P := t = n)) by lia. intros Hj Hex.
    destruct (g_woken0 t Ht Hj Hex) as (Hr & Hb & vp & Hc).
    split; [lia|]. rewrite !decide_False by lia. eauto.
  - intros q Hq. destruct (g_queue0 q Hq) as (Hr & Hb & Hc).
    rewrite !decide_False by lia. done.
  - intros k t vp Hk. rewrite decide_False by lia. intros Hr Hc.
    destruct (g_ctx0 k t vp Hk Hc).
    rewrite decide_False by lia. eauto.
Qed.
End view.

Section view_switch.
Variables (n cur : Z) (st : Z -> ThreadStatus) (cx : Z -> Context) (jb : Z -> Z).
Variable ws : list Z.
Hypothesis G : good n cur st cx jb ws.

(** A join completes on the EXITED slot [t]: the record is wiped. *)
Lemma good_reap t :
  st t = EXITED ->
  good n cur st (fupd cx t CtxZero) (fupd jb t (-1)) ws.
Proof using G.
  intros Hex.
  destruct G as [g_num0 g_cur0 g_uniq0 g_join0 g_woken0 g_queue0 g_nodup0 g_ctx0 g_ready0]. constructor; try done; unfold fupd.
  - intros t' Ht'. case_decide as E; [done|]. intros Hj Hal.
    destruct (g_join0 t' Ht' Hj Hal) as (Hr & Hb & vp & Hc).
    split; [done|]. rewrite !decide_False by congruence. eauto.
  - intros t' Ht'. case_decide as E; [done|]. intros Hj Hex'.
    destruct (g_woken0 t' Ht' Hj Hex') as (Hr & Hb & vp & Hc).
    split; [done|]. rewrite !decide_False by congruence. eauto.
  - intros q Hq. destruct (g_queue0 q Hq) as (Hr & Hb & Hc).
    rewrite !decide_False by congruence. done.
  - intros k t' vp Hk. case_decide; [done | eauto].
  - intros k t' vp Hk. case_decide; [done | eauto].
Qed.

(** sem_post wakes the queued thread [w]. *)
Lemma good_post w ws' :
  w ∈ ws -> (forall q, q ∈ ws' -> q ∈ ws /\ q <> w) -> NoDup ws' ->
  good n cur (fupd st w READY) cx jb ws'.
Proof using G.
  intros Hw Hsub Hnd.
  destruct G as [g_num0 g_cur0 g_uniq0 g_join0 g_woken0 g_queue0 g_nodup0 g_ctx0 g_ready0]. destruct (g_queue0 w Hw) as (Hwr & Hwb & Hwc).
  constructor; try done; unfold fupd.
  - intros i. case_decide; [done | auto].
  - intros t Ht Hj Hal.
    destruct (g_join0 t Ht Hj) as (Hr & Hb & vp & Hc).
    { revert Hal. case_decide; [subst; congruence | done]. }
    split; [done|]. rewrite !decide_False by congruence. eauto.
  - intros t Ht Hj. case_decide; [done|]. intros Hex.
    destruct (g_woken0 t Ht Hj Hex) as (Hr & Hb & vp & Hc).
    split; [done|]. rewrite !decide_False by congruence. eauto.
  - intros q Hq. destruct (Hsub q Hq) as [Hq' Hne].
    destruct (g_queue0 q Hq') as (Hr & Hb & Hc).
    rewrite !decide_False by congruence. done.
  - intros k t vp Hk. case_decide; [subst; congruence|].
    intros Hr Hc. pose proof (g_ready0 _ _ _ Hk Hr Hc).
    rewrite decide_False by congruence. done.
Qed.

Hypothesis NR : forall i, st i <> RUNNING.

(** The scheduler picks the READY slot [c], whose saved context is not
    that of a join. *)
Lemma good_pick c :
  0 <= c < n -> st c = READY -> (forall t vp, cx c <> CtxJoin t vp) ->
  good n c (fupd st c RUNNING) cx jb ws.
Proof using G NR.
  intros Hc Hrc Hcx.
  destruct G as [g_num0 g_cur0 g_uniq0 g_join0 g_woken0 g_queue0 g_nodup0 g_ctx0 g_ready0]. constructor; try done; unfold fupd.
  - intros i. case_decide; [done|]. intros Hr. by apply NR in Hr.
  - intros t Ht Hj Hal.
    destruct (g_join0 t Ht Hj) as (Hr & Hb & vp & Hcj).
    { revert Hal. case_decide; [subst; congruence | done]. }
    split; [done|]. rewrite !decide_False by congruence. eauto.
  - intros t Ht Hj. case_decide; [done|]. intros Hex.
    destruct (g_woken0 t Ht Hj Hex) as (Hr & Hb & vp & Hcj).
    split; [done|]. rewrite decide_False; [eauto|].
    intros E. rewrite E in Hcj. by apply Hcx in Hcj.
  - intros q Hq. destruct (g_queue0 q Hq) as (Hr & Hb & Hcq).
    rewrite !decide_False by congruence. done.
  - intros k t vp Hk. case_decide; [done|].
    intros Hr Hck. pose proof (g_ready0 _ _ _ Hk Hr Hck).
    rewrite decide_False by congruence. done.
Qed.

(** The scheduler picks the READY slot [c], which resumes in a join on
    [t] and completes it. *)
Lemma good_pick_reap c t vp :
  0 <= c < n -> st c = READY -> cx c = CtxJoin t vp ->
  good n c (fupd st c RUNNING) (fupd cx t CtxZero) (fupd jb t (-1)) ws.
Proof using G NR.
  intros Hc Hrc Hcx.
  destruct G as [g_num0 g_cur0 g_uniq0 g_join0 g_woken0 g_queue0 g_nodup0 g_ctx0 g_ready0].
  pose proof (g_ready0 _ _ _ Hc Hrc Hcx) as Hex.
  destruct (g_ctx0 _ _ _ Hc Hcx) as [Ht Htc].
  constructor; try done; unfold fupd.
  - intros i. case_decide; [done|]. intros Hr. by apply NR in Hr.
  - intros t' Ht'. case_decide as E; [done|]. intros Hj Hal.
    destruct (g_join0 t' Ht' Hj) as (Hr & Hb & vp' & Hcj).
    { revert Hal. case_decide; [subst; congruence | done]. }
    split; [done|]. rewrite !decide_False by congruence. eauto.
  - intros t' Ht'. case_decide as E; [done|]. intros Hj.
    case_decide; [done|]. intros Hex'.
    destruct (g_woken0 t' Ht' Hj Hex') as (Hr & Hb & vp' & Hcj).
    split; [done|].
    rewrite (decide_False (P := jb t' = t)) by congruence.
    rewrite decide_False; [eauto|]. intros E'. congruence.
  - intros q Hq. destruct (g_queue0 q Hq) as (Hr & Hb & Hcq).
    rewrite !decide_False by congruence. done.
  - intros k t' vp' Hk. case_decide; [done | eauto].
  - intros k t' vp' Hk. case_decide; [done|]. case_decide; [done|].
    intros Hr Hck. pose proof (g_ready0 _ _ _ Hk Hr Hck).
    rewrite decide_False by congruence. done.
Qed.
End view_switch.

(** The table right after init_threading. *)
Lemma good_init st cx jb :
  st 0 = RUNNING -> (forall i, i <> 0 -> st i <> RUNNING) -> jb 0 = -1 ->
  (forall k, cx k = CtxZero) ->
  good 1 0 st cx jb [].
Proof.
  intros H0 Hn Hj Hc. constructor; unfold MAX_THREADS; try lia.
  - intros i Hr. destruct (decide (i = 0)); [done|]. by apply Hn in Hr.
  - intros t Ht. replace t with 0 by lia. done.
  - intros t Ht. replace t with 0 by lia. done.
  - intros q Hq. by apply elem_of_nil in Hq.
  - apply NoDup_nil_2.
  - intros k t vp _. by rewrite Hc.
  - intros k t vp _ _. by rewrite Hc.
Qed.

(** *** The invariant on states *)

Lemma live_reachable s : live s -> reachable s.
Proof. induction 1; [apply reach_boot | by eapply reach_step]. Qed.

(** [suspends] follows [step]: either the event goes through [yield] from
    the state given, or it returns to its caller. *)
Lemma step_suspends s e :
  match suspends s e with
  | Some s1 => step s e = yield (gate_ticks e) s1
  | None => forall s', next_state (step s e) = Some s' -> exists r, step s e = Return r s'
  end.
Proof.
  destruct e as [thread start arg_ m | v tk | thread vp tk | sem p val dk qk | sem | sem rk tk
                 | sem | tk];
    simpl.
  - intros s'. unfold pthread_create. repeat case_decide; intros [= <-]; eauto.
  - unfold pthread_exit. by destruct (all_exited _).
  - unfold pthread_join.
    repeat case_decide; try destruct (has_been_joined _); try done;
      intros s' [= <-]; eauto.
  - intros s'. unfold sem_init, add_semaphore_mapping.
    repeat case_decide; destruct dk, qk; simpl; intros [= <-]; eauto.
  - intros s'. unfold sem_destroy.
    destruct (get_semaphore_data _ _) as [d|]; [destruct (sem_initialized d)|];
      simpl; intros [= <-]; eauto.
  - unfold sem_wait.
    destruct (get_semaphore_data _ _) as [d|]; [destruct (sem_initialized d)|];
      simpl; try (intros s' [= <-]; eauto).
    repeat case_decide; try destruct rk; try done; intros s' [= <-]; eauto.
  - intros s'. unfold sem_post.
    destruct (get_semaphore_data _ _) as [d|]; [destruct (sem_initialized d)|];
      simpl; try (intros [= <-]; eauto).
    repeat case_decide; intros [= <-]; eauto.
  - done.
Qed.

Lemma longjmp_resume s r s' :
  longjmp s = Resume r s' ->
  (s' = s /\ forall t vp, cx_of s (current_thread s) <> CtxJoin t vp) \/
  exists t vp, cx_of s (current_thread s) = CtxJoin t vp /\ s' = join_reap t vp s.
Proof.
  unfold longjmp, cx_of. destruct (context _) eqn:E; try done.
  - intros [= <- <-]. by left.
  - intros [= <- <-]. by left.
  - intros [= <- <-]. right. eauto.
  - intros [= <- <-]. by left.
Qed.

Lemma all_waiters_semaphores s s' :
  semaphores s' = semaphores s -> all_waiters s' = all_waiters s.
Proof. unfold all_waiters. by intros ->. Qed.

(** A switch that finds a READY slot re-establishes the invariant, with
    the slot chosen running. *)
Lemma yield_live s s' :
  length (tcb_array s) = Z.to_nat MAX_THREADS ->
  good (num_threads s) (current_thread s) (st_of s) (cx_of s) (jb_of s) (all_waiters s) ->
  no_running s -> finds_ready s = true ->
  next_state (yield 0 s) = Some s' ->
  inv s' /\ running s' /\ initialized s' = initialized s.
Proof.
  intros Hl G NR Hf H.
  pose proof (g_num _ _ _ _ _ _ G) as Hn. pose proof (g_cur _ _ _ _ _ _ G) as Hcur.
  unfold finds_ready in Hf. rewrite yield_0 in H. unfold schedule in H.
  destruct (schedule_scan _ _ _ _) as [[a' c]|] eqn:Hscan; [|done].
  apply schedule_scan_some in Hscan as (Hc & Hrc & ->); [|lia|lia].
  set (s1 := with_current c (with_tcbs (tcb_upd (set_status RUNNING) c (tcb_array s)) s)) in *.
  assert (0 <= c < Z.of_nat (length (tcb_array s))) as Hcl.
  { rewrite Hl. unfold MAX_THREADS in *. lia. }
  assert (forall i, st_of s1 i = fupd (st_of s) c RUNNING i) as Est.
  { intros i. unfold st_of, fupd, s1. cbn [tcb_array with_current with_tcbs].
    rewrite tcb_at_upd. repeat case_decide; try done; tauto. }
  assert (forall i, cx_of s1 i = cx_of s i) as Ecx.
  { intros i. unfold cx_of, s1. cbn [tcb_array with_current with_tcbs].
    by apply (tcb_at_upd_field context). }
  assert (forall i, jb_of s1 i = jb_of s i) as Ejb.
  { intros i. unfold jb_of, s1. cbn [tcb_array with_current with_tcbs].
    by apply (tcb_at_upd_field joined_by). }
  destruct (longjmp s1) as [ret s2 | r s2 | |] eqn:El; try done.
  { by apply longjmp_not_return in El. }
  injection H as ->.
  apply longjmp_resume in El as [[-> Hnj]|(t & vp & Hj & ->)].
  - split; [|split; [|done]].
    + split; [unfold s1; cbn; by rewrite tcb_upd_length|].
      eapply good_ext; [eapply (good_pick _ _ _ _ _ _ G NR c Hc Hrc) | | | | |].
      * intros t vp. rewrite <- Ecx. apply Hnj.
      * exact Est.
      * exact Ecx.
      * exact Ejb.
      * done.
      * apply G.
    + unfold running. rewrite Est. unfold fupd. by rewrite decide_True.
  - change (current_thread s1) with c in Hj. rewrite Ecx in Hj.
    pose proof (g_ready _ _ _ _ _ _ G _ _ _ Hc Hrc Hj) as Hex.
    destruct (g_ctx _ _ _ _ _ _ G _ _ _ Hc Hj) as [Ht Htc].
    destruct (join_reap_frame t vp s1) as (F1 & F2 & F3 & F4 & F5).
    assert (0 <= t < Z.of_nat (length (tcb_array s1))) as Htl.
    { unfold s1. cbn. rewrite tcb_upd_length. lia. }
    split; [|split; [|by rewrite F3]].
    + split; [rewrite F5; unfold s1; cbn; by rewrite tcb_upd_length|].
      rewrite F1, F2. change (num_threads s1) with (num_threads s).
      change (current_thread s1) with c.
      eapply good_ext; [eapply (good_pick_reap _ _ _ _ _ _ G NR c t vp Hc Hrc Hj) | | | | |].
      * intros i. unfold st_of at 1. rewrite join_reap_at. case_decide as E.
        -- destruct E as [-> _]. simpl. unfold fupd. rewrite decide_False by done.
           by rewrite Hex.
        -- apply Est.
      * intros i. unfold cx_of at 1. rewrite join_reap_at. unfold fupd.
        case_decide as E.
        -- destruct E as [-> _]. by rewrite decide_True.
        -- rewrite decide_False by tauto. apply Ecx.
      * intros i. unfold jb_of at 1. rewrite join_reap_at. unfold fupd.
        case_decide as E.
        -- destruct E as [-> _]. by rewrite decide_True.
        -- rewrite decide_False by tauto. apply Ejb.
      * intros q. by rewrite (all_waiters_semaphores s _ F4).
      * rewrite (all_waiters_semaphores s _ F4). apply G.
    + unfold running, st_of. rewrite F2, join_reap_at.
      rewrite decide_False by (change (current_thread s1) with c; intros [? _]; congruence).
      change (st_of s1 (current_thread s1) = RUNNING).
      rewrite Est. unfold fupd. by rewrite decide_True.
Qed.

Lemma find_thread_range fuel a i id :
  find_thread fuel a i id = -1 \/
  i <= find_thread fuel a i id < i + Z.of_nat fuel.
Proof.
  revert i. induction fuel as [|fuel IH]; intros i; simpl; [by left|].
  case_decide; [right; lia|].
  destruct (IH (i + 1)) as [->|?]; [by left | right; lia].
Qed.

Lemma all_waiters_split s sem d :
  get_semaphore_data (semaphores s) sem = Some d ->
  exists w1 w2,
    all_waiters s = w1 ++ waiting_queue d ++ w2 /\
    (forall d', all_waiters (with_semaphores (put_semaphore_data (semaphores s) sem d') s)
                = w1 ++ waiting_queue d' ++ w2) /\
    all_waiters (with_semaphores (remove_semaphore_mapping (semaphores s) sem) s)
    = w1 ++ w2.
Proof.
  intros Hget. destruct (get_semaphore_split _ _ _ Hget) as (l1 & l2 & E & Hput & Hrem).
  exists (concat (map (fun kd => waiting_queue kd.2) l1)),
         (concat (map (fun kd => waiting_queue kd.2) l2)).
  unfold all_waiters. cbn [semaphores with_semaphores].
  split; [|split].
  - by rewrite E, map_app, concat_app.
  - intros d'. by rewrite Hput, map_app, concat_app.
  - by rewrite Hrem, map_app, concat_app.
Qed.

Lemma inv_table_ok s : inv s -> table_ok s.
Proof. intros [Hl G]. split; [done | apply G]. Qed.

Lemma inv_cur_in_table s :
  inv s -> 0 <= current_thread s < Z.of_nat (length (tcb_array s)).
Proof.
  intros [Hl G]. pose proof (g_num _ _ _ _ _ _ G). pose proof (g_cur _ _ _ _ _ _ G).
  rewrite Hl. unfold MAX_THREADS in *. lia.
Qed.

(** The states in which the four suspending calls reach the scheduler. *)
Lemma alarm_demote_good s :
  inv s -> running s ->
  good (num_threads s) (current_thread s) (st_of (alarm_demote CtxSignal s))
       (cx_of (alarm_demote CtxSignal s)) (jb_of (alarm_demote CtxSignal s))
       (all_waiters (alarm_demote CtxSignal s)).
Proof.
  intros Hinv Hrun. pose proof (inv_cur_in_table s Hinv) as Hc. destruct Hinv as [Hl G].
  eapply good_ext; [apply (good_alarm _ _ _ _ _ _ G Hrun) | | | | done | apply G].
  - intros i. unfold st_of, fupd, alarm_demote. cbn [tcb_array with_tcbs].
    rewrite decide_True.
    2:{ rewrite (tcb_at_upd_field status) by done. exact Hrun. }
    rewrite tcb_at_upd, tcb_upd_length. case_decide as E.
    + destruct E as [-> _]. by rewrite decide_True.
    + rewrite decide_False by tauto. by apply (tcb_at_upd_field status).
  - intros i. unfold cx_of, fupd, alarm_demote. cbn [tcb_array with_tcbs].
    rewrite decide_True.
    2:{ rewrite (tcb_at_upd_field status) by done. exact Hrun. }
    rewrite (tcb_at_upd_field context) by done.
    rewrite tcb_at_upd. case_decide as E.
    + destruct E as [-> _]. by rewrite decide_True.
    + rewrite decide_False by tauto. done.
  - intros i. unfold jb_of, alarm_demote. cbn [tcb_array with_tcbs].
    case_decide; by rewrite !(tcb_at_upd_field joined_by).
Qed.

Lemma exit_mark_good s v :
  inv s -> running s ->
  good (num_threads s) (current_thread s) (st_of (exit_mark s v))
       (cx_of (exit_mark s v)) (jb_of (exit_mark s v)) (all_waiters (exit_mark s v)).
Proof.
  intros Hinv Hrun. pose proof (inv_cur_in_table s Hinv) as Hc. destruct Hinv as [Hl G].
  pose proof (joiner_of_current _ _ _ _ _ _ G Hrun) as HJ.
  pose proof (g_num _ _ _ _ _ _ G) as Hn.
  assert (joined_by (tcb_at (tcb_upd (set_status EXITED) (current_thread s)
            (tcb_upd (set_return_value v) (current_thread s) (tcb_array s)))
            (current_thread s)) = jb_of s (current_thread s)) as Ejb.
  { by rewrite !(tcb_at_upd_field joined_by). }
  eapply good_ext; [apply (good_exit _ _ _ _ _ _ G Hrun) | | | | done | apply G].
  - intros i. unfold st_of at 1. unfold exit_mark. cbn [tcb_array with_tcbs].
    rewrite Ejb. unfold fupd.
    destruct (decide (jb_of s (current_thread s) <> -1)) as [Hj|Hj].
    + destruct (HJ Hj) as (Hr & _ & Hne & _).
      rewrite !tcb_at_upd, !tcb_upd_length.
      repeat case_decide; try done; try tauto; try lia.
      all: exfalso; rewrite Hl in *; unfold MAX_THREADS in *; lia.
    + rewrite !tcb_at_upd, !tcb_upd_length.
      repeat case_decide; try done; try tauto; lia.
  - intros i. unfold cx_of, exit_mark. cbn [tcb_array with_tcbs].
    case_decide; by rewrite !(tcb_at_upd_field context).
  - intros i. unfold jb_of, exit_mark. cbn [tcb_array with_tcbs].
    case_decide; by rewrite !(tcb_at_upd_field joined_by).
Qed.

Lemma join_block_good s t vp :
  inv s -> running s ->
  0 <= t < num_threads s -> t <> current_thread s -> st_of s t <> EXITED ->
  good (num_threads s) (current_thread s) (st_of (join_block s t vp))
       (cx_of (join_block s t vp)) (jb_of (join_block s t vp))
       (all_waiters (join_block s t vp)).
Proof.
  intros Hinv Hrun Ht Htc Hal.
  pose proof (inv_cur_in_table s Hinv) as Hc. destruct Hinv as [Hl G].
  pose proof (g_num _ _ _ _ _ _ G) as Hn.
  assert (0 <= t < Z.of_nat (length (tcb_array s))) as Htl.
  { rewrite Hl. unfold MAX_THREADS in *. lia. }
  eapply good_ext; [apply (good_join _ _ _ _ _ _ G Hrun t vp Ht Htc Hal) | | | | done | apply G].
  - intros i. unfold st_of at 1. unfold join_block, fupd. cbn [tcb_array with_tcbs].
    rewrite (tcb_at_upd_field status) by done.
    rewrite tcb_at_upd, tcb_upd_length. case_decide as E.
    + destruct E as [-> _]. by rewrite decide_True.
    + rewrite decide_False by tauto. by apply (tcb_at_upd_field status).
  - intros i. unfold cx_of at 1. unfold join_block, fupd. cbn [tcb_array with_tcbs].
    rewrite tcb_at_upd, !tcb_upd_length. case_decide as E.
    + destruct E as [-> _]. by rewrite decide_True.
    + rewrite decide_False by tauto. by rewrite !(tcb_at_upd_field context).
  - intros i. unfold jb_of at 1. unfold join_block, fupd. cbn [tcb_array with_tcbs].
    rewrite !(tcb_at_upd_field joined_by (set_context _)) by done.
    rewrite !(tcb_at_upd_field joined_by (set_status _)) by done.
    rewrite tcb_at_upd. case_decide as E.
    + destruct E as [-> _]. by rewrite decide_True.
    + rewrite decide_False by tauto. done.
Qed.

Lemma wait_block_good s sem d d0 :
  inv s -> running s ->
  get_semaphore_data (semaphores s) sem = Some d ->
  waiting_queue d0 = waiting_queue d ->
  good (num_threads s) (current_thread s) (st_of (wait_block s sem d0))
       (cx_of (wait_block s sem d0)) (jb_of (wait_block s sem d0))
       (all_waiters (wait_block s sem d0)).
Proof.
  intros Hinv Hrun Hget Hq.
  pose proof (inv_cur_in_table s Hinv) as Hc. destruct Hinv as [Hl G].
  destruct (all_waiters_split s sem d Hget) as (w1 & w2 & Eold & Enew & _).
  pose proof (good_wait _ _ _ _ _ _ G Hrun) as G'.
  assert (all_waiters (wait_block s sem d0)
          = w1 ++ (waiting_queue d ++ [current_thread s]) ++ w2) as Ews.
  { unfold wait_block.
    change (all_waiters (with_tcbs ?a ?s')) with (all_waiters s').
    by rewrite Enew, Hq. }
  assert (all_waiters (wait_block s sem d0) ≡ₚ current_thread s :: all_waiters s) as Hp.
  { rewrite Ews, Eold. rewrite <- !app_assoc. simpl.
    rewrite !app_assoc. symmetry. apply Permutation_middle. }
  eapply good_ext; [exact G' | | | | |].
  - intros i. unfold st_of at 1. unfold wait_block, fupd. cbn [tcb_array with_tcbs].
    rewrite (tcb_at_upd_field status) by done.
    rewrite tcb_at_upd. case_decide as E.
    + destruct E as [-> _]. by rewrite decide_True.
    + rewrite decide_False by tauto. done.
  - intros i. unfold cx_of at 1. unfold wait_block, fupd. cbn [tcb_array with_tcbs].
    rewrite tcb_at_upd, !tcb_upd_length. case_decide as E.
    + destruct E as [-> _]. by rewrite decide_True.
    + rewrite decide_False by tauto. by rewrite !(tcb_at_upd_field context).
  - intros i. unfold jb_of, wait_block. cbn [tcb_array with_tcbs].
    by rewrite !(tcb_at_upd_field joined_by).
  - intros q. by rewrite Hp.
  - rewrite Hp. apply G'.
Qed.

(** The calls that return to their caller. *)
Lemma join_reap_inv s t vp :
  inv s -> running s -> 0 <= t < num_threads s -> st_of s t = EXITED ->
  inv (join_reap t vp s) /\ running (join_reap t vp s).
Proof.
  intros Hinv Hrun Ht Hex. destruct Hinv as [Hl G].
  pose proof (g_num _ _ _ _ _ _ G) as Hn.
  destruct (join_reap_frame t vp s) as (F1 & F2 & F3 & F4 & F5).
  assert (0 <= t < Z.of_nat (length (tcb_array s))) as Htl.
  { rewrite Hl. unfold MAX_THREADS in *. lia. }
  assert (forall i, st_of (join_reap t vp s) i = st_of s i) as Est.
  { intros i. unfold st_of at 1. rewrite join_reap_at. case_decide as E; [|done].
    destruct E as [-> _]. by rewrite Hex. }
  split.
  - split; [congruence|]. rewrite F1, F2.
    eapply good_ext; [apply (good_reap _ _ _ _ _ _ G t Hex) | exact Est | | | |].
    + intros i. unfold cx_of at 1. rewrite join_reap_at. unfold fupd.
      case_decide as E.
      * destruct E as [-> _]. by rewrite decide_True.
      * rewrite decide_False by tauto. done.
    + intros i. unfold jb_of at 1. rewrite join_reap_at. unfold fupd.
      case_decide as E.
      * destruct E as [-> _]. by rewrite decide_True.
      * rewrite decide_False by tauto. done.
    + intros q. by rewrite (all_waiters_semaphores s _ F4).
    + rewrite (all_waiters_semaphores s _ F4). apply G.
  - unfold running. by rewrite F2, Est.
Qed.

Ltac expose :=
  unfold inv, running, st_of, cx_of, jb_of, all_waiters;
  cbn [tcb_array num_threads current_thread initialized semaphores user_mem
       with_tcbs with_num_threads with_current with_semaphores store];
  repeat match goal with
  | |- context [concat (map (fun kd => waiting_queue kd.2) (semaphores ?s))] =>
      change (concat (map (fun kd => waiting_queue kd.2) (semaphores s)))
        with (all_waiters s)
  end.

Lemma create_inv s thread start arg_ m r s' :
  initialized s = true -> inv s -> running s ->
  pthread_create s thread start arg_ m = Return r s' ->
  inv s' /\ running s' /\ initialized s' = true.
Proof.
  intros Hi Hinv Hrun. pose proof (inv_cur_in_table s Hinv) as Hc.
  destruct Hinv as [Hl G].
  pose proof (g_num _ _ _ _ _ _ G) as Hn. pose proof (g_cur _ _ _ _ _ _ G) as Hcur.
  unfold pthread_create. rewrite Hi.
  destruct (decide (num_threads s >= MAX_THREADS)) as [Hfull|Hroom].
  { intros [= <- <-]. done. }
  assert (0 <= num_threads s < Z.of_nat (length (tcb_array s))) as Hnl.
  { rewrite Hl. unfold MAX_THREADS in *. lia. }
  destruct (decide (m = NULL)) as [Hm|Hm]; intros [= <- <-]; expose.
  - split; [|split; [|done]].
    + split; [by rewrite tcb_upd_length|].
      replace (num_threads s + 1 - 1) with (num_threads s) by lia.
      eapply good_ext; [apply (good_create_failed _ _ _ _ _ _ G) | | | | done | apply G].
      * intros i. unfold fupd, st_of. rewrite tcb_at_upd. case_decide as E.
        -- destruct E as [-> _]. by rewrite decide_True.
        -- rewrite decide_False by tauto. done.
      * intros i. by apply (tcb_at_upd_field context).
      * intros i. unfold fupd, jb_of. rewrite tcb_at_upd. case_decide as E.
        -- destruct E as [-> _]. by rewrite decide_True.
        -- rewrite decide_False by tauto. done.
    + rewrite tcb_at_upd_ne by lia. exact Hrun.
  - split; [|split; [|done]].
    + split; [by rewrite !tcb_upd_length|].
      eapply good_ext; [apply (good_create _ _ _ _ _ _ G) | | | | done | apply G].
      * lia.
      * intros i. unfold fupd, st_of.
        rewrite (tcb_at_upd_field status) by done.
        rewrite tcb_at_upd. case_decide as E.
        -- destruct E as [-> _]. by rewrite decide_True.
        -- rewrite decide_False by tauto. done.
      * intros i. unfold fupd, cx_of.
        rewrite tcb_at_upd, tcb_upd_length. case_decide as E.
        -- destruct E as [-> _]. by rewrite decide_True.
        -- rewrite decide_False by tauto. by apply (tcb_at_upd_field context).
      * intros i. unfold fupd, jb_of.
        rewrite (tcb_at_upd_field joined_by) by done.
        rewrite tcb_at_upd. case_decide as E.
        -- destruct E as [-> _]. by rewrite decide_True.
        -- rewrite decide_False by tauto. done.
    + rewrite !tcb_at_upd_ne by lia. exact Hrun.
Qed.

Lemma inv_fewer_waiters s s' :
  inv s -> running s ->
  tcb_array s' = tcb_array s -> num_threads s' = num_threads s ->
  current_thread s' = current_thread s ->
  (forall q, q ∈ all_waiters s' -> q ∈ all_waiters s) -> NoDup (all_waiters s') ->
  inv s' /\ running s'.
Proof.
  intros [Hl G] Hrun Ea En Ec Hsub Hnd.
  unfold inv, running, st_of, cx_of, jb_of. rewrite Ea, En, Ec.
  split; [|exact Hrun]. split; [done|].
  by eapply good_ext.
Qed.

Lemma sem_post_inv s sem r s' :
  inv s -> running s -> sem_post s sem = Return r s' ->
  inv s' /\ running s' /\ initialized s' = initialized s.
Proof.
  intros Hinv Hrun. unfold sem_post.
  destruct (get_semaphore_data _ _) as [d|] eqn:Hget; [|by intros [= <- <-]].
  destruct (sem_initialized d) eqn:Hi; simpl; [|by intros [= <- <-]].
  destruct (all_waiters_split s sem d Hget) as (w1 & w2 & Eold & Enew & _).
  destruct (decide (queue_size d > 0)) as [Hq|Hq].
  - destruct (waiting_queue d) as [|w q'] eqn:Eq; [unfold queue_size in Hq; rewrite Eq in Hq; simpl in Hq; lia|].
    rewrite dequeue_cons. simpl. intros [= <- <-].
    split; [|split; [|done]].
    + destruct Hinv as [Hl G]. expose. split; [by rewrite tcb_upd_length|].
      pose proof (g_nodup _ _ _ _ _ _ G) as Hnd. rewrite Eold in Hnd.
      assert (w1 ++ (w :: q') ++ w2 ≡ₚ w :: (w1 ++ q' ++ w2)) as Hp.
      { simpl. symmetry. apply Permutation_middle. }
      rewrite Hp in Hnd. apply NoDup_cons in Hnd as [Hw Hnd].
      change (all_waiters (with_semaphores ?d' s)) with (all_waiters (with_semaphores d' s)).
      specialize (Enew (mkSem true (value d) q' (queue_capacity d))). simpl in Enew.
      unfold all_waiters in Enew at 1. cbn [semaphores with_semaphores] in Enew.
      rewrite Enew.
      assert (w ∈ all_waiters s) as Hwin.
      { rewrite Eold, Hp. apply elem_of_cons. by left. }
      destruct (g_queue _ _ _ _ _ _ G w Hwin) as (Hwr & _).
      pose proof (g_num _ _ _ _ _ _ G) as Hn.
      eapply good_ext; [apply (good_post _ _ _ _ _ _ G w (w1 ++ q' ++ w2) Hwin) | | | | done | done].
      * intros q Hq'. split.
        -- rewrite Eold, Hp. apply elem_of_cons. by right.
        -- intros ->. done.
      * done.
      * intros i. unfold fupd, st_of. rewrite tcb_at_upd. case_decide as E.
        -- destruct E as [-> _]. by rewrite decide_True.
        -- rewrite decide_False; [done|]. intros ->. apply E. split; [done|].
           rewrite Hl. unfold MAX_THREADS in *. lia.
      * intros i. by apply (tcb_at_upd_field context).
      * intros i. by apply (tcb_at_upd_field joined_by).
    + destruct Hinv as [Hl G]. expose.
      assert (w ∈ all_waiters s) as Hwin.
      { rewrite Eold. apply elem_of_app. right. apply elem_of_cons. by left. }
      destruct (g_queue _ _ _ _ _ _ G w Hwin) as (_ & Hb & _).
      rewrite tcb_at_upd_ne; [exact Hrun|]. intros E.
      unfold running, st_of in *. rewrite E in Hrun. congruence.
  - assert (waiting_queue d = []) as Eq.
    { unfold queue_size in Hq. destruct (waiting_queue d); [done | simpl in Hq; lia]. }
    case_decide; intros [= <- <-]; [|done].
    split; [|done].
    apply (inv_fewer_waiters s); try done.
    + intros q. by rewrite Enew, Eold, Eq.
    + rewrite Enew. simpl. destruct Hinv as [_ G].
      pose proof (g_nodup _ _ _ _ _ _ G) as Hnd. by rewrite Eold in Hnd.
Qed.

Lemma sem_wait_return_inv s sem ok ticks r s' :
  inv s -> running s -> sem_wait s sem ok ticks = Return r s' ->
  inv s' /\ running s' /\ initialized s' = initialized s.
Proof.
  intros Hinv Hrun. unfold sem_wait.
  destruct (get_semaphore_data _ _) as [d|] eqn:Hget; [|by intros [= <- <-]].
  destruct (sem_initialized d) eqn:Hi; simpl; [|by intros [= <- <-]].
  destruct (all_waiters_split s sem d Hget) as (w1 & w2 & Eold & Enew & _).
  destruct (decide (value d > 0)).
  - intros [= <- <-]. split; [|done].
    apply (inv_fewer_waiters s); try done.
    + intros q. by rewrite Enew, Eold.
    + rewrite Enew. simpl. destruct Hinv as [_ G].
      pose proof (g_nodup _ _ _ _ _ _ G) as Hnd. by rewrite Eold in Hnd.
  - repeat case_decide; try destruct ok; try (by intros ?%yield_not_return).
    by intros [= <- <-].
Qed.

Lemma sem_init_inv s sem p val dk qk r s' :
  inv s -> running s -> sem_init s sem p val dk qk = Return r s' ->
  inv s' /\ running s' /\ initialized s' = initialized s.
Proof.
  intros Hinv Hrun. unfold sem_init, add_semaphore_mapping.
  repeat case_decide; destruct dk, qk; simpl; intros [= <- <-]; try done.
  split; [|done].
  assert (all_waiters (with_semaphores
            (semaphores s ++ [(sem, mkSem true (to_unsigned val) [] 16)]) s)
          = all_waiters s) as E.
  { unfold all_waiters. cbn [semaphores with_semaphores].
    rewrite map_app, concat_app. simpl. by rewrite app_nil_r. }
  apply (inv_fewer_waiters s); try done.
  - intros q. by rewrite E.
  - rewrite E. apply Hinv.
Qed.

Lemma sem_destroy_inv s sem r s' :
  inv s -> running s -> sem_destroy s sem = Return r s' ->
  inv s' /\ running s' /\ initialized s' = initialized s.
Proof.
  intros Hinv Hrun. unfold sem_destroy.
  destruct (get_semaphore_data _ _) as [d|] eqn:Hget; [|by intros [= <- <-]].
  destruct (sem_initialized d) eqn:Hi; simpl; [|by intros [= <- <-]].
  destruct (all_waiters_split s sem d Hget) as (w1 & w2 & Eold & _ & Erem).
  intros [= <- <-]. split; [|done].
  destruct Hinv as [Hl G]. pose proof (g_nodup _ _ _ _ _ _ G) as Hnd.
  apply (inv_fewer_waiters s); try done.
  - intros q. rewrite Erem, Eold, !elem_of_app. tauto.
  - rewrite Erem. rewrite Eold in Hnd.
    apply NoDup_app in Hnd as (H1 & H2 & H3).
    apply NoDup_app in H3 as (_ & _ & H3).
    apply NoDup_app. split; [done|]. split; [|done].
    intros x Hx Hx2. apply (H2 x Hx). apply elem_of_app. by right.
Qed.

(** *** Before and at initialisation *)

Lemma init_threading_inv s :
  initialized s = false -> pre_init s ->
  inv (init_threading s) /\ running (init_threading s) /\
  initialized (init_threading s) = true.
Proof.
  intros Hi (Ea & En & Ec & Ew).
  destruct (init_threading_frame s Hi) as (Fl & Fn & Fc & Fi & Fs).
  assert (forall k, tcb_at (tcb_array s) k = tcb_zero) as Hz.
  { intros k. rewrite Ea. apply tcb_at_replicate_zero. }
  assert (length (tcb_array s) = Z.to_nat MAX_THREADS) as Hl.
  { rewrite Ea. apply length_replicate. }
  assert (forall k, tcb_at (tcb_array (init_threading s)) k =
            if decide (0 <= k < MAX_THREADS)
            then (if decide (k = 0) then init_main (init_tcb 0 tcb_zero)
                  else init_tcb k tcb_zero)
            else tcb_zero) as Hat.
  { intros k. rewrite init_threading_at by done. rewrite !Hz, Hl.
    unfold MAX_THREADS. repeat case_decide; try done; lia. }
  split; [|split; [|done]].
  - split; [congruence|]. rewrite Fn, Fc.
    rewrite (all_waiters_semaphores s _ Fs), Ew.
    apply good_init; unfold st_of, cx_of, jb_of.
    + rewrite Hat. by rewrite !decide_True by (unfold MAX_THREADS; lia).
    + intros i Hne. rewrite Hat. repeat case_decide; done.
    + rewrite Hat. by rewrite !decide_True by (unfold MAX_THREADS; lia).
    + intros k. rewrite Hat. repeat case_decide; done.
  - unfold running, st_of. rewrite Fc, Hat.
    by rewrite !decide_True by (unfold MAX_THREADS; lia).
Qed.

Lemma pre_init_yield ticks s s' :
  num_threads s = 0 -> next_state (yield ticks s) = Some s' -> False.
Proof.
  intros Hn. destruct ticks; simpl; unfold schedule, all_exited; rewrite Hn; simpl; done.
Qed.

Lemma pre_init_queue_empty s sem d :
  all_waiters s = [] -> get_semaphore_data (semaphores s) sem = Some d ->
  waiting_queue d = [].
Proof.
  intros Ew Hget. destruct (all_waiters_split s sem d Hget) as (w1 & w2 & E & _).
  rewrite Ew in E. symmetry in E.
  apply app_eq_nil in E as [_ E]. by apply app_eq_nil in E as [E _].
Qed.

Lemma pre_init_waiters s s' :
  pre_init s ->
  tcb_array s' = tcb_array s -> num_threads s' = num_threads s ->
  current_thread s' = current_thread s -> all_waiters s' = [] ->
  pre_init s'.
Proof. intros (Ea & En & Ec & Ew) Fa Fn Fc Fw. repeat split; congruence. Qed.

Lemma step_pre_init s e s' :
  initialized s = false -> pre_init s -> enabled s e = true ->
  next_state (step s e) = Some s' -> live_inv s'.
Proof.
  intros Hi Hpre Hen H. pose proof Hpre as (Ea & En & Ec & Ew).
  destruct e as [thread start arg_ m | v tk | thread vp tk | sem p val dk qk | sem | sem rk tk
                 | sem | tk];
    simpl in H.
  - destruct (init_threading_inv s Hi Hpre) as (Hinv & Hrun & Hi1).
    destruct (pthread_create s thread start arg_ m) as [r s1 | | |] eqn:E; try done.
    + injection H as ->.
      assert (pthread_create (init_threading s) thread start arg_ m = Return r s') as E'.
      { rewrite <- E. unfold pthread_create. by rewrite Hi, Hi1. }
      destruct (create_inv _ _ _ _ _ _ _ Hi1 Hinv Hrun E') as (? & ? & Hi').
      unfold live_inv. by rewrite Hi'.
    + unfold pthread_create in E. by repeat case_decide.
  - unfold pthread_exit, all_exited in H. cbn [num_threads exit_mark with_tcbs] in H.
    rewrite En in H. simpl in H. done.
  - unfold pthread_join in H. rewrite En in H. simpl in H.
    injection H as <-. unfold live_inv. by rewrite Hi.
  - assert (live_inv s) as Hs by (unfold live_inv; by rewrite Hi).
    unfold sem_init, add_semaphore_mapping in H.
    repeat case_decide; destruct dk, qk; simpl in H; injection H as <-; try done.
    unfold live_inv. cbn [initialized with_semaphores]. rewrite Hi.
    apply (pre_init_waiters s); try done.
    unfold all_waiters. cbn [semaphores with_semaphores].
    rewrite map_app, concat_app. simpl. fold (all_waiters s). by rewrite Ew.
  - assert (live_inv s) as Hs by (unfold live_inv; by rewrite Hi).
    unfold sem_destroy in H.
    destruct (get_semaphore_data _ _) as [d|] eqn:Hget; [|by injection H as <-].
    destruct (sem_initialized d); simpl in H; injection H as <-; [|done].
    unfold live_inv. cbn [initialized with_semaphores]. rewrite Hi.
    apply (pre_init_waiters s); try done.
    destruct (all_waiters_split s sem d Hget) as (w1 & w2 & E & _ & ->).
    rewrite Ew in E. symmetry in E.
    apply app_eq_nil in E as [-> E]. by apply app_eq_nil in E as [_ ->].
  - assert (live_inv s) as Hs by (unfold live_inv; by rewrite Hi).
    unfold sem_wait in H.
    destruct (get_semaphore_data _ _) as [d|] eqn:Hget; [|by injection H as <-].
    destruct (sem_initialized d); simpl in H; [|by injection H as <-].
    pose proof (pre_init_queue_empty s sem d Ew Hget) as Eq.
    destruct (all_waiters_split s sem d Hget) as (w1 & w2 & E & Enew & _).
    destruct (decide (value d > 0)); simpl in H.
    + injection H as <-.
      unfold live_inv. cbn [initialized with_semaphores]. rewrite Hi.
      apply (pre_init_waiters s); try done.
      rewrite Enew. simpl. by rewrite <- E.
    + repeat case_decide; try destruct rk; simpl in H;
        try (by injection H as <-);
        (apply pre_init_yield in H; [done | exact En]).
  - assert (live_inv s) as Hs by (unfold live_inv; by rewrite Hi).
    unfold sem_post in H.
    destruct (get_semaphore_data _ _) as [d|] eqn:Hget; [|by injection H as <-].
    destruct (sem_initialized d); simpl in H; [|by injection H as <-].
    pose proof (pre_init_queue_empty s sem d Ew Hget) as Eq.
    destruct (all_waiters_split s sem d Hget) as (w1 & w2 & E & Enew & _).
    unfold queue_size in H. rewrite Eq in H. simpl in H.
    case_decide; simpl in H; injection H as <-; [|done].
    unfold live_inv. cbn [initialized with_semaphores]. rewrite Hi.
    apply (pre_init_waiters s); try done.
    rewrite Enew. simpl. rewrite Eq in E. simpl in E. congruence.
  - simpl in Hen. congruence.
Qed.

(** *** One step of a run without deadlock *)

Lemma suspends_good s e s1 :
  initialized s = true -> inv s -> running s -> suspends s e = Some s1 ->
  length (tcb_array s1) = Z.to_nat MAX_THREADS /\
  good (num_threads s1) (current_thread s1) (st_of s1) (cx_of s1) (jb_of s1)
       (all_waiters s1) /\
  no_running s1 /\ initialized s1 = true.
Proof.
  intros Hi Hinv Hrun. pose proof (inv_table_ok s Hinv) as Hok.
  destruct e as [thread start arg_ m | v tk | thread vp tk | sem p val dk qk | sem | sem rk tk
                 | sem | tk];
    simpl; try done.
  - destruct (all_exited _); [done|]. intros [= <-].
    destruct (exit_mark_no_running s v Hok) as [Hl Hno].
    refine (conj Hl (conj _ (conj Hno Hi))). exact (exit_mark_good s v Hinv Hrun).
  - repeat case_decide; try destruct (has_been_joined _); try done.
    intros [= <-].
    edestruct (join_block_no_running s) as [Hl Hno]; [done|].
    refine (conj Hl (conj _ (conj Hno Hi))).
    refine (join_block_good s _ vp Hinv Hrun _ _ _); try done.
    match goal with
    | |- context [find_thread ?f ?a ?i ?id] =>
        destruct (find_thread_range f a i id) as [?|Hr]; [done|]
    end.
    destruct Hinv as [_ G]. pose proof (g_num _ _ _ _ _ _ G). lia.
  - destruct (get_semaphore_data _ _) as [d|] eqn:Hget; [|done].
    destruct (sem_initialized d); simpl; [|done].
    repeat case_decide; try destruct rk; try done; intros [= <-];
      (edestruct (wait_block_no_running s) as [Hl Hno]; [done|]);
      refine (conj Hl (conj _ (conj Hno Hi)));
      (refine (wait_block_good s sem d _ Hinv Hrun Hget _); done).
  - intros [= <-].
    destruct (alarm_demote_no_running CtxSignal s Hok) as [Hl Hno].
    refine (conj Hl (conj _ (conj Hno _))).
    + exact (alarm_demote_good s Hinv Hrun).
    + unfold alarm_demote. by case_decide.
Qed.

Lemma step_inv s e s' :
  initialized s = true -> inv s -> running s ->
  gate_ticks e = O -> deadlocks s e = false -> next_state (step s e) = Some s' ->
  inv s' /\ running s' /\ initialized s' = true.
Proof.
  intros Hi Hinv Hrun Ht Hdl H.
  pose proof (step_suspends s e) as Hs. unfold deadlocks in Hdl.
  destruct (suspends s e) as [s1|] eqn:Es.
  - destruct (suspends_good s e s1 Hi Hinv Hrun Es) as (Hl & G & Hno & Hi1).
    rewrite Hs, Ht in H. apply negb_false_iff in Hdl.
    destruct (yield_live s1 s' Hl G Hno Hdl H) as (? & ? & Hi').
    split; [done|]. split; [done|]. congruence.
  - destruct (Hs s' H) as [r Hr]. clear Hs H.
    destruct e as [thread start arg_ m | v tk | thread vp tk | sem p val dk qk | sem | sem rk tk
                 | sem | tk];
      simpl in Hr.
    + by eapply create_inv.
    + unfold pthread_exit in Hr. destruct (all_exited _); [done|].
      by apply yield_not_return in Hr.
    + unfold pthread_join in Hr.
      destruct (decide (_ = -1)) as [|Hf]; [by injection Hr as <- <-|].
      destruct (has_been_joined _); [by injection Hr as <- <-|].
      destruct (decide (_ = current_thread s)) as [|Hc]; [by injection Hr as <- <-|].
      destruct (decide (status _ = EXITED)) as [Hex|].
      * injection Hr as <- <-.
        destruct (join_reap_frame (find_thread (Z.to_nat (num_threads s)) (tcb_array s) 0
                                     (to_int thread)) vp s) as (_ & _ & F3 & _).
        rewrite F3.
        match goal with
        | |- context [find_thread ?f ?a ?i ?id] =>
            destruct (find_thread_range f a i id) as [?|Hrg]; [done|]
        end.
        edestruct (join_reap_inv s) as [? ?]; [exact Hinv | exact Hrun | | exact Hex |].
        -- destruct Hinv as [_ G]. pose proof (g_num _ _ _ _ _ _ G). lia.
        -- done.
      * by apply yield_not_return in Hr.
    + destruct (sem_init_inv _ _ _ _ _ _ _ _ Hinv Hrun Hr) as (? & ? & ?).
      split; [done|]. split; [done|]. congruence.
    + destruct (sem_destroy_inv _ _ _ _ Hinv Hrun Hr) as (? & ? & ?).
      split; [done|]. split; [done|]. congruence.
    + destruct (sem_wait_return_inv _ _ _ _ _ _ Hinv Hrun Hr) as (? & ? & ?).
      split; [done|]. split; [done|]. congruence.
    + destruct (sem_post_inv _ _ _ _ Hinv Hrun Hr) as (? & ? & ?).
      split; [done|]. split; [done|]. congruence.
    + unfold signal_handler in Hr. by apply yield_not_return in Hr.
Qed.

Lemma live_live_inv s : live s -> live_inv s.
Proof.
  induction 1 as [|s e s' _ IH Hen Ht Hdl Hstep].
  - unfold live_inv. simpl. repeat split.
  - unfold live_inv in IH. destruct (initialized s) eqn:Hi.
    + destruct IH as [Hinv Hrun].
      destruct (step_inv s e s' Hi Hinv Hrun Ht Hdl Hstep) as (? & ? & Hi').
      unfold live_inv. by rewrite Hi'.
    + by eapply step_pre_init.
Qed.

Lemma run_live es : forall s s',
  live s -> undisturbed s es = true -> run s es = Some s' -> live s'.
Proof.
  induction es as [|e es IH]; intros s s' Hl; simpl.
  - by intros _ [= <-].
  - destruct (enabled s e) eqn:He; [|done].
    destruct (next_state (step s e)) as [s1|] eqn:Hs; [|done].
    intros [[Ht Hd]%andb_true_iff Hrest]%andb_true_iff.
    apply negb_true_iff in Hd. apply Nat.eqb_eq in Ht.
    apply IH; [|done]. by eapply live_step.
Qed.

Lemma tcb_at_Forall (P : TCB -> Prop) (a : list TCB) :
  Forall P a -> P tcb_zero -> forall i, P (tcb_at a i).
Proof.
  intros Ha Hz i. unfold tcb_at. case_decide; [|done].
  destruct (a !! Z.to_nat i) as [t|] eqn:E; simpl; [|done].
  rewrite Forall_forall in Ha. apply Ha. by eapply list_elem_of_lookup_2.
Qed.

(** ** Exactly one RUNNING record? *)

(** C2 fails as stated: with main and its thread both waiting on a
    semaphore at 0, the scheduler finds no READY slot and keeps the
    BLOCKED caller as current, so no record is RUNNING. *)
Lemma nobody_running_when_all_blocked :
  exists s, reachable s /\ initialized s = true /\ ~ one_running s.
Proof.
  exists both_wait_state. split; [|split].
  - apply (run_reachable both_wait boot); [apply reach_boot | by vm_compute].
  - by vm_compute.
  - intros (i & Hr & _). revert Hr.
    apply (tcb_at_Forall (fun t => status t <> RUNNING)); [|done].
    apply Forall_forall. intros t Ht.
    assert (bool_decide (Forall (fun t => status t <> RUNNING)
                                (tcb_array both_wait_state)) = true) as Hb
      by (vm_compute; reflexivity).
    apply bool_decide_eq_true in Hb. rewrite Forall_forall in Hb. by apply Hb.
Qed.

(** A tick delivered by the unblocking that follows the scheduler is the
    other way out of orderly runs.  Main joins thread 1, the only other
    thread: the scheduler makes thread 1 current, the handler saves its
    own context in the record of thread 1 and marks it READY, and the
    scheduler picks thread 1 again; the jump that follows goes through
    the buffer of a handler that has returned. *)
Lemma tick_at_unlock_undefined :
  finds_ready (join_block joined_once_1 1 2000) = true /\
  pthread_join joined_once_1 1 2000 1 = Fault.
Proof. by vm_compute. Qed.

(** With a third thread to hand the processor to, the same tick leaves
    thread 1 READY with the context of the handler in place of its entry
    point, and the next switch to thread 1 is undefined. *)
Lemma tick_at_unlock_overwrites_context :
  pthread_join two_threads_state 1 0 1 = Resume None tick_state /\
  current_thread tick_state = 2 /\
  status (tcb_at (tcb_array tick_state) 1) = READY /\
  context (tcb_at (tcb_array two_threads_state) 1) = CtxWrapper /\
  context (tcb_at (tcb_array tick_state) 1) = CtxUnlock /\
  signal_handler 0 tick_state = Fault.
Proof. by vm_compute. Qed.

(** C2, amended: in every reachable state at most one record is RUNNING,
    and a RUNNING record sits at index current_thread.  In every
    initialised state reached by a run in which each call of the
    scheduler found a READY slot, and in which no tick was delivered
    between a call of the scheduler and the longjmp that follows it, the
    record at current_thread is RUNNING, so that exactly one record is. *)
Theorem running_is_current s :
  reachable s ->
  (forall i, status (tcb_at (tcb_array s) i) = RUNNING -> i = current_thread s) /\
  (live s -> initialized s = true -> one_running s).
Proof.
  intros Hr. pose proof (reachable_table_ok s Hr) as [_ Hu].
  split; [exact Hu|].
  intros Hl Hi. apply live_live_inv in Hl. unfold live_inv in Hl. rewrite Hi in Hl.
  destruct Hl as [_ Hrun]. exists (current_thread s). done.
Qed.

Lemma run_joined_once : run boot joined_once_run = Some joined_once_3.
Proof. by vm_compute. Qed.

Lemma running_is_current_witness : one_running joined_once_3.
Proof.
  apply (running_is_current joined_once_3).
  - exact (run_reachable joined_once_run boot _ reach_boot run_joined_once).
  - apply (run_live joined_once_run boot _ live_boot);
      [by vm_compute | exact run_joined_once].
  - by vm_compute.
Defined.

(** ** The thread recorded in joined_by *)


(** After a deadlocked call the joiner of a live target need not be
    BLOCKED either: a sem_post marks main READY while thread 1, which main
    has joined, is running. *)
Lemma joiner_ready_after_deadlock :
  exists s, run boot post_wakes_joiner = Some s /\
    joined_by (tcb_at (tcb_array s) 1) = 0 /\
    status (tcb_at (tcb_array s) 1) = RUNNING /\
    status (tcb_at (tcb_array s) 0) = READY.
Proof.
  exists (match run boot post_wakes_joiner with Some s => s | None => boot end).
  by vm_compute.
Qed.

(** Nor does joined_by name the joiner for as long as the joiner has not
    resumed: in the state above, thread 2 joins thread 1 as well.  The
    target has exited, so this join completes at once: it takes the value
    42 and wipes the record, joined_by included, while main is still READY
    inside its own join of thread 1, which will find the record wiped. *)
Lemma second_joiner_resets_joined_by :
  pthread_join exit_wakes_joiner_state 1 3000 0 = Return 0 second_joiner_state /\
  user_mem second_joiner_state = (3000, 42) :: user_mem exit_wakes_joiner_state /\
  joined_by (tcb_at (tcb_array second_joiner_state) 1) = -1 /\
  return_value (tcb_at (tcb_array second_joiner_state) 1) = NULL /\
  status (tcb_at (tcb_array second_joiner_state) 0) = READY /\
  context (tcb_at (tcb_array second_joiner_state) 0) = CtxJoin 1 0.
Proof. by vm_compute. Qed.

(** A tick at the unblocking breaks the hand-over to the joiner: thread 1
    exits while main waits in the join on it; the scheduler picks main,
    the handler overwrites the context main had saved inside
    pthread_join, and the jump that should complete the join is
    undefined. *)
Lemma tick_at_unlock_loses_join :
  context (tcb_at (tcb_array joined_once_2) 0) = CtxJoin 1 2000 /\
  pthread_exit joined_once_2 42 0 = Resume (Some 0) joined_once_3 /\
  pthread_exit joined_once_2 42 1 = Fault.
Proof. by vm_compute. Qed.




(** * Further properties of the runtime *)

(** ** The semaphore directory: sem_init and sem_destroy *)

Lemma get_semaphore_app dir sem d k :
  get_semaphore_data (dir ++ [(sem, d)]) k =
    match get_semaphore_data dir k with
    | Some d0 => Some d0
    | None => if decide (k = sem) then Some d else None
    end.
Proof.
  induction dir as [|[k' e] dir IH]; simpl.
  - destruct (decide (sem = k)) as [->|Hne].
    + by rewrite decide_True.
    + by rewrite decide_False by congruence.
  - destruct (decide (k' = k)); [done | exact IH].
Qed.

Lemma get_remove_semaphore_ne dir sem k :
  k <> sem ->
  get_semaphore_data (remove_semaphore_mapping dir sem) k = get_semaphore_data dir k.
Proof.
  intros Hne. induction dir as [|[k' e] dir IH]; simpl; [done|].
  destruct (decide (k' = sem)) as [->|Hk'].
  - by rewrite decide_False by congruence.
  - simpl. by rewrite IH.
Qed.

Lemma remove_semaphore_fresh dir sem d :
  get_semaphore_data dir sem = None ->
  remove_semaphore_mapping (dir ++ [(sem, d)]) sem = dir.
Proof.
  induction dir as [|[k' e] dir IH]; simpl.
  - intros _. by rewrite decide_True.
  - case_decide; [done|]. intros Hg. by rewrite IH.
Qed.

Lemma remove_semaphore_length dir sem d :
  get_semaphore_data dir sem = Some d ->
  length (remove_semaphore_mapping dir sem) = (length dir - 1)%nat.
Proof.
  intros Hget. destruct (get_semaphore_split _ _ _ Hget) as (l1 & l2 & -> & _ & ->).
  rewrite !length_app. simpl. lia.
Qed.

Lemma with_semaphores_same s : with_semaphores (semaphores s) s = s.
Proof. by destruct s. Qed.

(** X1: sem_init succeeds exactly when pshared is 0, the value (read as
    unsigned) is below SEM_VALUE_MAX, both allocations succeed and the
    directory holds fewer than MAX_SEMAPHORES entries; otherwise it
    returns -1 and changes nothing.  On success the record is appended
    with the value given and an empty queue: a handle that was not in the
    directory now leads to it, while a handle that was already there still
    leads to its old record, and the thread table is untouched. *)
Theorem sem_init_spec s sem pshared val data_ok queue_ok :
  let ok := pshared = 0 /\ to_unsigned val < SEM_VALUE_MAX /\
            data_ok = true /\ queue_ok = true /\ num_semaphores s < MAX_SEMAPHORES in
  let d := mkSem true (to_unsigned val) [] 16 in
  (ok ->
   sem_init s sem pshared val data_ok queue_ok =
     Return 0 (with_semaphores (semaphores s ++ [(sem, d)]) s) /\
   forall k,
     get_semaphore_data (semaphores s ++ [(sem, d)]) k =
       match get_semaphore_data (semaphores s) k with
       | Some d0 => Some d0
       | None => if decide (k = sem) then Some d else None
       end) /\
  (~ ok -> sem_init s sem pshared val data_ok queue_ok = Return (-1) s).
Proof.
  intros ok d. unfold sem_init, add_semaphore_mapping. fold (num_semaphores s).
  split.
  - intros (Hp & Hv & -> & -> & Hn). split; [|intros k; apply get_semaphore_app].
    rewrite decide_False by lia. simpl. by rewrite decide_False by lia.
  - intros Hno. subst ok.
    repeat case_decide; destruct data_ok, queue_ok; simpl; try done.
    exfalso. apply Hno. repeat split; try done; lia.
Qed.

Lemma sem_init_spec_witness :
  sem_init boot 9 0 3 true true =
    Return 0 (with_semaphores [(9, mkSem true 3 [] 16)] boot) /\
  get_semaphore_data [(9, mkSem true 3 [] 16)] 9 = Some (mkSem true 3 [] 16).
Proof.
  destruct (sem_init_spec boot 9 0 3 true true) as [H _].
  destruct H as [H1 H2].
  - by vm_compute.
  - split; [exact H1 | exact (H2 9)].
Defined.

(** X2: sem_destroy returns -1, changing nothing, for a handle that is
    not in the directory.  For a handle with an initialised record it
    returns 0 and removes that one entry: the directory shrinks by one,
    every other handle leads to the record it led to before, and the
    thread table is untouched, so threads queued on the destroyed
    semaphore keep the status they had. *)
Theorem sem_destroy_spec s sem :
  (get_semaphore_data (semaphores s) sem = None -> sem_destroy s sem = Return (-1) s) /\
  (forall d, get_semaphore_data (semaphores s) sem = Some d -> sem_initialized d = true ->
     exists s', sem_destroy s sem = Return 0 s' /\
       num_semaphores s' = num_semaphores s - 1 /\
       (forall k, k <> sem ->
          get_semaphore_data (semaphores s') k = get_semaphore_data (semaphores s) k) /\
       tcb_array s' = tcb_array s /\ current_thread s' = current_thread s /\
       num_threads s' = num_threads s).
Proof.
  unfold sem_destroy. split.
  - by intros ->.
  - intros d Hget Hi. rewrite Hget, Hi. simpl. eexists. split; [done|].
    unfold num_semaphores. simpl. split; [|split; [|done]].
    + rewrite (remove_semaphore_length _ _ d Hget).
      destruct (get_semaphore_split _ _ _ Hget) as (l1 & l2 & -> & _).
      rewrite length_app. simpl. lia.
    + intros k Hk. by apply get_remove_semaphore_ne.
Qed.

Lemma sem_destroy_spec_witness :
  exists s', sem_destroy full_queue_state 9 = Return 0 s' /\
             num_semaphores s' = 0 /\ tcb_array s' = tcb_array full_queue_state.
Proof.
  destruct (sem_destroy_spec full_queue_state 9) as [_ H].
  destruct (H (mkSem true 0 (seqZ 0 16) 16)) as (s' & H1 & H2 & _ & H3 & _).
  - by vm_compute.
  - reflexivity.
  - exists s'. split; [exact H1|]. split; [|exact H3].
    rewrite H2. by vm_compute.
Defined.

(** X3: initialising a handle that is not in the directory and then
    destroying it gives back the state one started from. *)
Theorem sem_init_destroy s sem val :
  get_semaphore_data (semaphores s) sem = None ->
  to_unsigned val < SEM_VALUE_MAX -> num_semaphores s < MAX_SEMAPHORES ->
  exists s1, sem_init s sem 0 val true true = Return 0 s1 /\
             sem_destroy s1 sem = Return 0 s.
Proof.
  intros Hget Hv Hn.
  eexists. split.
  { unfold sem_init, add_semaphore_mapping. fold (num_semaphores s).
    rewrite decide_False by lia. simpl. by rewrite decide_False by lia. }
  unfold sem_destroy. cbn [semaphores with_semaphores].
  rewrite get_semaphore_app, Hget, decide_True by done. simpl.
  rewrite remove_semaphore_fresh by done.
  f_equal. by destruct s.
Qed.

Lemma sem_init_destroy_witness :
  exists s1, sem_init boot 9 0 3 true true = Return 0 s1 /\
             sem_destroy s1 9 = Return 0 boot.
Proof.
  apply (sem_init_destroy boot 9 3); by vm_compute.
Defined.


(** ** sem_post and sem_wait together *)

Lemma put_semaphore_same dir sem d :
  get_semaphore_data dir sem = Some d -> put_semaphore_data dir sem d = dir.
Proof.
  induction dir as [|[k e] dir IH]; simpl; [done|].
  case_decide as Hk.
  - by intros [= ->].
  - intros H. by rewrite IH.
Qed.

Lemma put_put_semaphore dir sem d1 d2 :
  put_semaphore_data (put_semaphore_data dir sem d1) sem d2 = put_semaphore_data dir sem d2.
Proof.
  induction dir as [|[k e] dir IH]; simpl; [done|].
  case_decide as Hk; simpl.
  - by rewrite decide_True.
  - rewrite decide_False by done. by rewrite IH.
Qed.

(** X4: on an initialised semaphore nobody waits on, a sem_post followed
    by a sem_wait, and a sem_wait on a positive value followed by a
    sem_post, both return 0 twice and give back the state one started
    from. *)
Theorem sem_post_wait_cancel s sem d ok ticks :
  get_semaphore_data (semaphores s) sem = Some d ->
  sem_initialized d = true -> waiting_queue d = [] ->
  (0 <= value d < SEM_VALUE_MAX - 1 ->
   exists s1, sem_post s sem = Return 0 s1 /\ sem_wait s1 sem ok ticks = Return 0 s) /\
  (0 < value d < SEM_VALUE_MAX ->
   exists s1, sem_wait s sem ok ticks = Return 0 s1 /\ sem_post s1 sem = Return 0 s).
Proof.
  intros Hget Hi Hq.
  assert (forall v, v = value d ->
            with_semaphores
              (put_semaphore_data (semaphores s) sem
                 (mkSem true v [] (queue_capacity d))) s = s) as Hback.
  { intros v ->. rewrite <- Hi, <- Hq.
    replace (mkSem _ _ _ _) with d by (by destruct d).
    rewrite put_semaphore_same by done. apply with_semaphores_same. }
  split; intros Hv.
  - eexists. split.
    { unfold sem_post, queue_size. rewrite Hget, Hi, Hq. simpl.
      by rewrite decide_True by lia. }
    unfold sem_wait. cbn [semaphores with_semaphores].
    rewrite (get_put_semaphore _ _ d) by done. simpl.
    rewrite decide_True by lia. f_equal.
    rewrite put_put_semaphore.
    unfold with_semaphores at 1. cbn [tcb_array num_threads current_thread initialized
                                      user_mem with_semaphores semaphores].
    rewrite <- (Hback (value d + 1 - 1)) at 7 by lia. done.
  - eexists. split.
    { unfold sem_wait. rewrite Hget, Hi. simpl. by rewrite decide_True by lia. }
    unfold sem_post. cbn [semaphores with_semaphores].
    rewrite (get_put_semaphore _ _ d) by done. simpl.
    unfold queue_size. simpl. rewrite Hq. simpl.
    rewrite decide_True by lia. f_equal.
    rewrite put_put_semaphore.
    unfold with_semaphores at 1. cbn [tcb_array num_threads current_thread initialized
                                      user_mem with_semaphores semaphores].
    rewrite <- (Hback (value d - 1 + 1)) at 7 by lia. done.
Qed.

Lemma sem_post_wait_cancel_witness :
  exists s1, sem_post (with_semaphores [(9, mkSem true 2 [] 16)] boot) 9 = Return 0 s1 /\
             sem_wait s1 9 true 0 = Return 0 (with_semaphores [(9, mkSem true 2 [] 16)] boot).
Proof.
  destruct (sem_post_wait_cancel (with_semaphores [(9, mkSem true 2 [] 16)] boot) 9
              (mkSem true 2 [] 16) true 0) as [H _]; [done | done | done |].
  apply H. by vm_compute.
Defined.

(** X5: with the threads q1 ++ q2 queued on an initialised semaphore, as
    many calls of sem_post as q1 has entries all return 0; they mark the
    threads of q1 READY in queue order, leave exactly q2 queued in its
    order, and leave value and current_thread as they were. *)
Theorem sem_post_fifo sem (q1 : list Z) : forall s d q2,
  get_semaphore_data (semaphores s) sem = Some d ->
  sem_initialized d = true -> waiting_queue d = q1 ++ q2 ->
  exists s',
    post_n (length q1) s sem = Some s' /\
    get_semaphore_data (semaphores s') sem
      = Some (mkSem true (value d) q2 (queue_capacity d)) /\
    tcb_array s' = foldl (fun a w => tcb_upd (set_status READY) w a) (tcb_array s) q1 /\
    current_thread s' = current_thread s.
Proof.
  induction q1 as [|w q1 IH]; intros s d q2 Hget Hi Hq; simpl.
  - exists s. repeat split; try done.
    rewrite Hget. f_equal. destruct d; simpl in *. by subst.
  - assert (sem_post s sem =
              Return 0 (with_tcbs (tcb_upd (set_status READY) w (tcb_array s))
                          (with_semaphores
                             (put_semaphore_data (semaphores s) sem
                                (mkSem true (value d) (q1 ++ q2) (queue_capacity d))) s)))
      as ->.
    { unfold sem_post, queue_size. rewrite Hget, Hi, Hq. simpl. by rewrite dequeue_cons. }
    rewrite decide_True by done.
    set (d1 := mkSem true (value d) (q1 ++ q2) (queue_capacity d)).
    set (s1 := with_tcbs (tcb_upd (set_status READY) w (tcb_array s))
                 (with_semaphores (put_semaphore_data (semaphores s) sem d1) s)).
    destruct (IH s1 d1 q2) as (s' & H1 & H2 & H3 & H4); [| done | done |].
    + by apply get_put_semaphore with d.
    + exists s'. split; [exact H1|]. split; [exact H2|]. split; [exact H3 | exact H4].
Qed.

Lemma sem_post_fifo_witness :
  exists s',
    post_n 1 two_waiters 9 = Some s' /\
    get_semaphore_data (semaphores s') 9 = Some (mkSem true 0 [5] 16) /\
    tcb_array s' = tcb_upd (set_status READY) 3 (tcb_array two_waiters) /\
    current_thread s' = 1.
Proof.
  apply (sem_post_fifo 9 [3] two_waiters (mkSem true 0 [3; 5] 16) [5]); reflexivity.
Defined.

(** ** Calls made before the first pthread_create *)

(** X6: as long as init_threading has not run (num_threads is 0),
    pthread_join returns ESRCH for every handle; pthread_exit ends the
    process with exit code 0; and a sem_wait that has to block (value 0,
    room in the queue) ends the process with exit code 0 as well, since
    the scheduler finds every one of the zero slots EXITED.  The cleanup
    called on the way does nothing. *)
Theorem calls_before_init s :
  initialized s = false -> num_threads s = 0 ->
  (forall thread vp ticks, pthread_join s thread vp ticks = Return ESRCH s) /\
  (forall v ticks, pthread_exit s v ticks = Exit 0 (exit_mark s v)) /\
  (forall sem ok ticks d,
     get_semaphore_data (semaphores s) sem = Some d -> sem_initialized d = true ->
     value d <= 0 -> queue_size d < queue_capacity d ->
     sem_wait s sem ok ticks = Exit 0 (wait_block s sem d)).
Proof.
  intros Hi Hn. split; [|split].
  - intros thread vp ticks. unfold pthread_join. rewrite Hn. done.
  - intros v ticks. unfold pthread_exit, all_exited, cleanup_all_resources.
    cbn [num_threads initialized exit_mark with_tcbs]. rewrite Hn, Hi. done.
  - intros sem ok ticks d Hget Hid Hv Hq. unfold sem_wait. rewrite Hget, Hid. simpl.
    rewrite decide_False by lia. rewrite decide_False by lia.
    destruct ticks; simpl; unfold schedule, all_exited, cleanup_all_resources;
      cbn [num_threads initialized wait_block with_tcbs with_semaphores];
      rewrite Hn, Hi; done.
Qed.

Lemma calls_before_init_witness :
  sem_wait (with_semaphores [(9, mkSem true 0 [] 16)] boot) 9 true 0 =
    Exit 0 (wait_block (with_semaphores [(9, mkSem true 0 [] 16)] boot) 9
              (mkSem true 0 [] 16)).
Proof.
  destruct (calls_before_init (with_semaphores [(9, mkSem true 0 [] 16)] boot))
    as (_ & _ & H); [done | done |].
  apply H; by vm_compute.
Defined.

(** ** The thread table: bounds and handles *)

Lemma yield_bounds ticks s s' :
  length (tcb_array s) = Z.to_nat MAX_THREADS ->
  1 <= num_threads s <= MAX_THREADS -> 0 <= current_thread s < num_threads s ->
  next_state (yield ticks s) = Some s' ->
  length (tcb_array s') = Z.to_nat MAX_THREADS /\
  num_threads s' = num_threads s /\ initialized s' = initialized s /\
  0 <= current_thread s' < num_threads s.
Proof.
  intros Hl Hn Hc H.
  destruct (yield_frame _ _ _ H) as (Fn & Fi & _ & Fl).
  split; [congruence|]. split; [done|]. split; [done|].
  set (P := fun s0 : State =>
              num_threads s0 = num_threads s /\ 0 <= current_thread s0 < num_threads s).
  apply (yield_inv P P) with (ticks := ticks) (s := s) (s' := s'); [| | | done | done].
  - intros s0 s1 [En Hc0] Hs. unfold P.
    destruct (schedule_cases _ _ Hs) as [(c & Hscan & _ & ->)|[_ [->| ->]]]; simpl; try done.
    split; [done|]. rewrite En in Hscan.
    apply schedule_scan_some in Hscan as (? & _); [done | lia | lia].
  - intros s0 [En Hc0]. unfold P.
    by destruct (alarm_demote_frame CtxUnlock s0) as (-> & -> & _).
  - intros s0 t vp [En Hc0] _. unfold P.
    by destruct (join_reap_frame t vp s0) as (-> & -> & _).
Qed.

Lemma step_bounds_ok s e s' :
  bounds_ok s -> enabled s e = true -> next_state (step s e) = Some s' -> bounds_ok s'.
Proof.
  intros [Hl Hb] Hen H.
  assert (forall s1, length (tcb_array s1) = length (tcb_array s) ->
            num_threads s1 = num_threads s -> current_thread s1 = current_thread s ->
            initialized s1 = initialized s ->
            forall ticks, next_state (yield ticks s1) = Some s' -> bounds_ok s') as Hy.
  { intros s1 El En Ec Ei ticks Hs1. destruct (initialized s) eqn:Hi.
    - destruct Hb as [Hn Hc].
      destruct (yield_bounds ticks s1 s') as (? & ? & ? & ?); try done; try congruence;
        try lia.
      split; [done|]. replace (initialized s') with true by congruence.
      split; lia.
    - destruct Hb as [Hn Hc]. exfalso. eapply pre_init_yield; [|exact Hs1]. congruence. }
  destruct e as [thread start arg_ m | v tk | thread vp tk | sem p val dk qk | sem | sem rk tk
                 | sem | tk];
    simpl in H.
  - unfold pthread_create in H.
    assert (bounds_ok (if initialized s then s else init_threading s) /\
            initialized (if initialized s then s else init_threading s) = true)
      as [[Hl0 Hb0] Hi0].
    { destruct (initialized s) eqn:Hi; [by split; [split; [|rewrite Hi]|]|].
      destruct (init_threading_frame s Hi) as (El & En & Ec & Ei & _).
      split; [|done]. split; [congruence|]. rewrite Ei, En, Ec. unfold MAX_THREADS. lia. }
    rewrite Hi0 in Hb0. destruct Hb0 as [Hn0 Hc0].
    revert H. repeat case_decide; simpl; intros [= <-];
      (split; cbn; [by rewrite ?tcb_upd_length|]); rewrite Hi0; lia.
  - unfold pthread_exit in H. destruct (all_exited _); [done|].
    eapply Hy; [| | | |exact H]; try done.
    unfold exit_mark. simpl. case_decide; by rewrite !tcb_upd_length.
  - unfold pthread_join in H.
    repeat case_decide; try destruct (has_been_joined _); simpl in H;
      try (injection H as <-); try by split.
    + destruct (join_reap_frame (find_thread (Z.to_nat (num_threads s)) (tcb_array s) 0
                                   (to_int thread)) vp s) as (F1 & F2 & F3 & _ & F5).
      split; [congruence|]. by rewrite F1, F2, F3.
    + eapply Hy; [| | | |exact H]; try done.
      unfold join_block. simpl. by rewrite !tcb_upd_length.
  - unfold sem_init, add_semaphore_mapping in H.
    repeat case_decide; destruct dk, qk; simpl in H; injection H as <-; by split.
  - unfold sem_destroy in H.
    destruct (get_semaphore_data _ _) as [d|]; [destruct (sem_initialized d)|];
      simpl in H; injection H as <-; by split.
  - unfold sem_wait in H.
    destruct (get_semaphore_data _ _) as [d|]; [destruct (sem_initialized d)|];
      simpl in H; try (injection H as <-; by split).
    repeat case_decide; try destruct rk; simpl in H;
      try (injection H as <-; by split);
      (eapply Hy; [| | | |exact H]; try done;
       unfold wait_block; simpl; by rewrite !tcb_upd_length).
  - unfold sem_post in H.
    destruct (get_semaphore_data _ _) as [d|]; [destruct (sem_initialized d)|];
      simpl in H; try (injection H as <-; by split).
    repeat case_decide; simpl in H; injection H as <-; try by split.
    split; simpl; [by rewrite tcb_upd_length | done].
  - unfold signal_handler in H.
    eapply Hy; [| | | |exact H]; try done.
    unfold alarm_demote. simpl. case_decide; by rewrite !tcb_upd_length.
Qed.

(** X7: in every reachable state the table has MAX_THREADS slots; once
    the runtime is initialised num_threads lies between 1 and MAX_THREADS
    and current_thread is the index of an allocated slot; before that both
    are 0.  So no access to tcb_array through current_thread or a slot
    index below num_threads leaves the array. *)
Theorem table_indices_in_bounds s :
  reachable s ->
  length (tcb_array s) = Z.to_nat MAX_THREADS /\
  (initialized s = true ->
   1 <= num_threads s <= MAX_THREADS /\ 0 <= current_thread s < num_threads s) /\
  (initialized s = false -> num_threads s = 0 /\ current_thread s = 0).
Proof.
  intros Hr.
  assert (bounds_ok s) as [Hl Hb].
  { induction Hr as [|s e s' _ IH Hen Hstep]; [by split|]. by eapply step_bounds_ok. }
  split; [done|]. destruct (initialized s); split; done.
Qed.

Lemma table_indices_in_bounds_witness :
  1 <= num_threads full_queue_state <= MAX_THREADS /\
  0 <= current_thread full_queue_state < num_threads full_queue_state.
Proof.
  destruct (table_indices_in_bounds full_queue_state) as (_ & H & _).
  - apply (run_reachable full_queue_run boot); [apply reach_boot | by vm_compute].
  - apply H. by vm_compute.
Defined.

(** X8: a successful pthread_create (room in the table, a stack
    allocated) returns 0, writes the slot index it took, the previous
    num_threads, through the handle pointer, and increments num_threads.
    The new record is READY with the routine and argument given, no
    joiner, not joined, the stack allocated and a context that enters the
    thread wrapper; no other record, the current thread and the
    semaphores are as they were: creating a thread never switches to it. *)
Theorem pthread_create_success s thread start arg_ malloc_stack :
  let s0 := if initialized s then s else init_threading s in
  num_threads s0 < MAX_THREADS -> malloc_stack <> NULL ->
  exists s',
    pthread_create s thread start arg_ malloc_stack = Return 0 s' /\
    user_mem s' = (thread, num_threads s0) :: user_mem s0 /\
    num_threads s' = num_threads s0 + 1 /\
    current_thread s' = current_thread s0 /\
    semaphores s' = semaphores s0 /\
    (0 <= num_threads s0 < Z.of_nat (length (tcb_array s0)) ->
     tcb_at (tcb_array s') (num_threads s0) =
       mkTCB (num_threads s0) malloc_stack CtxWrapper READY start arg_ NULL (-1) false) /\
    (forall i, i <> num_threads s0 -> tcb_at (tcb_array s') i = tcb_at (tcb_array s0) i).
Proof.
  intros s0 Hroom Hm. unfold pthread_create. fold s0.
  rewrite decide_False by lia. rewrite decide_False by done.
  eexists. split; [done|]. cbn.
  repeat split.
  - intros Hn. rewrite tcb_at_upd_eq by (by rewrite tcb_upd_length).
    by rewrite tcb_at_upd_eq by done.
  - intros i Hi. by rewrite !tcb_at_upd_ne by done.
Qed.

Lemma pthread_create_success_witness :
  exists s',
    pthread_create boot 1000 77 0 5000 = Return 0 s' /\
    user_mem s' = [(1000, 1)] /\ num_threads s' = 2 /\ current_thread s' = 0 /\
    tcb_at (tcb_array s') 1 = mkTCB 1 5000 CtxWrapper READY 77 0 NULL (-1) false.
Proof.
  destruct (pthread_create_success boot 1000 77 0 5000)
    as (s' & H1 & H2 & H3 & H4 & _ & H5 & _); [by vm_compute | discriminate |].
  exists s'. split; [exact H1|]. split; [exact H2|]. split; [exact H3|].
  split; [exact H4|]. apply H5. by vm_compute.
Defined.

Lemma step_num_threads s e s' :
  initialized s = true -> next_state (step s e) = Some s' ->
  num_threads s <= num_threads s' /\ initialized s' = true.
Proof.
  intros Hi H.
  assert (forall s1, num_threads s1 = num_threads s -> initialized s1 = true ->
            forall ticks, next_state (yield ticks s1) = Some s' ->
            num_threads s <= num_threads s' /\ initialized s' = true) as Hy.
  { intros s1 En Ei ticks Hs1. apply yield_frame in Hs1 as (-> & -> & _).
    split; [lia | done]. }
  destruct e as [thread start arg_ m | v tk | thread vp tk | sem p val dk qk | sem | sem rk tk
                 | sem | tk];
    simpl in H.
  - unfold pthread_create in H. rewrite Hi in H.
    revert H. repeat case_decide; simpl; intros [= <-]; simpl; split; try done; lia.
  - unfold pthread_exit in H. destruct (all_exited _); [done|].
    by apply (Hy (exit_mark s v)) with tk.
  - unfold pthread_join in H.
    repeat case_decide; try destruct (has_been_joined _); simpl in H;
      try (injection H as <-); try (split; [lia | done]).
    + destruct (join_reap_frame (find_thread (Z.to_nat (num_threads s)) (tcb_array s) 0
                                   (to_int thread)) vp s) as (-> & _ & -> & _).
      split; [lia | done].
    + by eapply Hy; [| |exact H].
  - unfold sem_init, add_semaphore_mapping in H.
    repeat case_decide; destruct dk, qk; simpl in H; injection H as <-;
      (split; [simpl; lia | done]).
  - unfold sem_destroy in H.
    destruct (get_semaphore_data _ _) as [d|]; [destruct (sem_initialized d)|];
      simpl in H; injection H as <-; (split; [simpl; lia | done]).
  - unfold sem_wait in H.
    destruct (get_semaphore_data _ _) as [d|]; [destruct (sem_initialized d)|];
      simpl in H; try (injection H as <-; split; [simpl; lia | done]).
    repeat case_decide; try destruct rk; simpl in H;
      try (injection H as <-; split; [simpl; lia | done]);
      by eapply Hy; [| |exact H].
  - unfold sem_post in H.
    destruct (get_semaphore_data _ _) as [d|]; [destruct (sem_initialized d)|];
      simpl in H; try (injection H as <-; split; [simpl; lia | done]).
    repeat case_decide; simpl in H; injection H as <-; (split; [simpl; lia | done]).
  - unfold signal_handler in H. apply (Hy (alarm_demote CtxSignal s)) with tk; try done;
      unfold alarm_demote; by case_decide.
Qed.

Lemma run_num_threads es : forall s s',
  initialized s = true -> run s es = Some s' ->
  num_threads s <= num_threads s' /\ initialized s' = true.
Proof.
  induction es as [|e es IH]; intros s s' Hi; simpl.
  - intros [= <-]. split; [lia | done].
  - destruct (enabled s e); [|done].
    destruct (next_state (step s e)) as [s1|] eqn:Hs; [|done].
    destruct (step_num_threads s e s1 Hi Hs) as [Hle Hi1].
    intros Hr. destruct (IH s1 s' Hi1 Hr). split; [lia | done].
Qed.

(** X9: thread handles are never reused.  No transition of an
    initialised runtime lowers num_threads, and the handle a successful
    pthread_create hands out is num_threads at that moment; so the handle
    given by a later successful pthread_create of the same run is
    strictly larger than the one given by an earlier one. *)
Theorem handles_never_reused s es s1 s2 s3 th1 st1 a1 m1 th2 st2 a2 m2 :
  pthread_create s th1 st1 a1 m1 = Return 0 s1 ->
  run s1 es = Some s2 ->
  pthread_create s2 th2 st2 a2 m2 = Return 0 s3 ->
  exists h1 h2 mem1 mem2,
    user_mem s1 = (th1, h1) :: mem1 /\ user_mem s3 = (th2, h2) :: mem2 /\
    h1 = num_threads s1 - 1 /\ h2 = num_threads s3 - 1 /\ h1 < h2.
Proof.
  intros H1 Hrun H3.
  assert (forall s th st a m s',
            pthread_create s th st a m = Return 0 s' ->
            initialized s' = true /\
            exists mem, user_mem s' = (th, num_threads s' - 1) :: mem /\
                        (initialized s = true -> num_threads s' = num_threads s + 1))
    as Hc.
  { clear. intros s th st a m s'. unfold pthread_create.
    assert (initialized (if initialized s then s else init_threading s) = true) as Hi0.
    { destruct (initialized s) eqn:Hi; [done|].
      by destruct (init_threading_frame s Hi) as (_ & _ & _ & ? & _). }
    repeat case_decide; intros [= <-]; cbn. split; [done|].
    eexists. split; [f_equal; f_equal; lia|].
    intros Hi. rewrite Hi. done. }
  destruct (Hc _ _ _ _ _ _ H1) as (Hi1 & mem1 & E1 & _).
  destruct (run_num_threads es s1 s2 Hi1 Hrun) as [Hle Hi2].
  destruct (Hc _ _ _ _ _ _ H3) as (_ & mem2 & E3 & Hn3).
  exists (num_threads s1 - 1), (num_threads s3 - 1), mem1, mem2.
  repeat split; try done. rewrite (Hn3 Hi2). lia.
Qed.

Lemma handles_never_reused_witness :
  exists h1 h2 mem1 mem2,
    user_mem joined_once_1 = (1000, h1) :: mem1 /\
    user_mem (state_of (pthread_create joined_once_3 1001 78 0 6000)) = (1001, h2) :: mem2 /\
    h1 = num_threads joined_once_1 - 1 /\
    h2 = num_threads (state_of (pthread_create joined_once_3 1001 78 0 6000)) - 1 /\
    h1 < h2.
Proof.
  apply (handles_never_reused boot [EvJoin 1 2000 0; EvExit 42 0] joined_once_1 joined_once_3
           (state_of (pthread_create joined_once_3 1001 78 0 6000))
           1000 77 0 5000 1001 78 0 6000); by vm_compute.
Defined.

(** ** Semaphores: values and queues stay in bounds *)

Lemma sems_bounded_get s sem d :
  sems_bounded s -> get_semaphore_data (semaphores s) sem = Some d -> sem_bounds d.
Proof.
  intros [_ Hok] Hget. destruct (get_semaphore_split _ _ _ Hget) as (l1 & l2 & E & _).
  rewrite E in Hok.
  apply Forall_app in Hok as [_ Hok]. by apply Forall_cons in Hok as [Hd _].
Qed.

Lemma sems_bounded_put s sem d d' :
  sems_bounded s -> get_semaphore_data (semaphores s) sem = Some d -> sem_bounds d' ->
  sems_bounded (with_semaphores (put_semaphore_data (semaphores s) sem d') s).
Proof.
  intros [Hn Hok] Hget Hd'.
  destruct (get_semaphore_split _ _ _ Hget) as (l1 & l2 & E & Hput & _).
  unfold sems_bounded, num_semaphores in *. simpl. rewrite Hput. rewrite E in Hok, Hn.
  split.
  - rewrite length_app in *. simpl in *. lia.
  - apply Forall_app in Hok as [H1 H2]. apply Forall_cons in H2 as [_ H2].
    apply Forall_app. split; [done|]. by apply Forall_cons.
Qed.

Lemma sems_bounded_semaphores s s' :
  semaphores s' = semaphores s -> sems_bounded s -> sems_bounded s'.
Proof. unfold sems_bounded, num_semaphores. by intros ->. Qed.

Lemma wait_block_sems_bounded s sem d d0 :
  sems_bounded s -> get_semaphore_data (semaphores s) sem = Some d ->
  value d0 = value d -> waiting_queue d0 = waiting_queue d ->
  16 <= queue_capacity d0 -> queue_size d < queue_capacity d0 ->
  sems_bounded (wait_block s sem d0).
Proof.
  intros Hok Hget Hv Hq Hc Hs. unfold wait_block.
  apply (sems_bounded_semaphores
           (with_semaphores (put_semaphore_data (semaphores s) sem
              (mkSem (sem_initialized d0) (value d0) (waiting_queue d0 ++ [current_thread s])
                     (queue_capacity d0))) s)); [done|].
  eapply sems_bounded_put; [done | done |].
  destruct (sems_bounded_get _ _ _ Hok Hget) as (Hval & _ & _).
  unfold sem_bounds, queue_size in *. simpl. rewrite length_app, Hq, Hv. simpl. lia.
Qed.

Lemma step_sems_bounded s e s' :
  sems_bounded s -> next_state (step s e) = Some s' -> sems_bounded s'.
Proof.
  intros Hok H.
  destruct e as [thread start arg_ m | v tk | thread vp tk | sem p val dk qk | sem | sem rk tk
                 | sem | tk];
    simpl in H.
  - destruct (pthread_create s thread start arg_ m) as [r s1| | |] eqn:E;
      try done; simpl in H.
    + injection H as ->.
      apply (sems_bounded_semaphores s); [|done].
      by apply (pthread_create_semaphores _ _ _ _ _ _ _ E).
    + unfold pthread_create in E. by repeat case_decide.
  - unfold pthread_exit in H. destruct (all_exited _); [done|].
    apply yield_frame in H as (_ & _ & E & _). by apply (sems_bounded_semaphores _ _ E).
  - unfold pthread_join in H.
    repeat case_decide; try destruct (has_been_joined _); simpl in H;
      try (injection H as <-); try exact Hok.
    + apply (sems_bounded_semaphores s); [|done].
      by destruct (join_reap_frame (find_thread (Z.to_nat (num_threads s)) (tcb_array s) 0
                                      (to_int thread)) vp s) as (_ & _ & _ & -> & _).
    + apply yield_frame in H as (_ & _ & E & _). by apply (sems_bounded_semaphores _ _ E).
  - unfold sem_init, add_semaphore_mapping in H.
    case_decide as Hp; [injection H as <-; exact Hok|].
    destruct dk, qk; simpl in H; try (injection H as <-; exact Hok).
    case_decide as Hfull; simpl in H; injection H as <-; [exact Hok|].
    destruct Hok as [Hn Hok]. unfold sems_bounded, num_semaphores in *. simpl.
    rewrite length_app. simpl. split; [lia|].
    apply Forall_app. split; [exact Hok|].
    apply Forall_cons. split; [|done]. unfold sem_bounds, queue_size. simpl.
    assert (0 <= to_unsigned val) by (unfold to_unsigned; apply Z.mod_pos_bound; lia).
    lia.
  - unfold sem_destroy in H.
    destruct (get_semaphore_data _ _) as [d|] eqn:Hget; simpl in H.
    2:{ injection H as <-. exact Hok. }
    destruct (sem_initialized d); simpl in H; injection H as <-; [|exact Hok].
    destruct Hok as [Hn Hok]. unfold sems_bounded, num_semaphores in *. simpl.
    rewrite (remove_semaphore_length _ _ _ Hget). split; [lia|].
    destruct (get_semaphore_split _ _ _ Hget) as (l1 & l2 & E & _ & ->).
    rewrite E in Hok. apply Forall_app in Hok as [H1 H2].
    apply Forall_cons in H2 as [_ H2]. by apply Forall_app.
  - unfold sem_wait in H.
    destruct (get_semaphore_data _ _) as [d|] eqn:Hget; simpl in H.
    2:{ injection H as <-. exact Hok. }
    destruct (sems_bounded_get _ _ _ Hok Hget) as (Hval & Hcap & Hsz).
    destruct (sem_initialized d); simpl in H; [|injection H as <-; exact Hok].
    destruct (decide (value d > 0)) as [Hv|Hv]; simpl in H.
    { injection H as <-. eapply sems_bounded_put; [done | done |].
      unfold sem_bounds, queue_size in *. simpl. lia. }
    destruct (decide (queue_size d >= queue_capacity d)); [destruct rk|]; simpl in H.
    + pose proof (yield_frame _ _ _ H) as (_ & _ & E & _).
      apply (sems_bounded_semaphores (wait_block s sem
               (mkSem true (value d) (waiting_queue d) (queue_capacity d * 2)))); [done|].
      apply (wait_block_sems_bounded s sem d); simpl; try done; lia.
    + injection H as <-. exact Hok.
    + pose proof (yield_frame _ _ _ H) as (_ & _ & E & _).
      apply (sems_bounded_semaphores (wait_block s sem d)); [done|].
      apply (wait_block_sems_bounded s sem d); simpl; try done; lia.
  - unfold sem_post in H.
    destruct (get_semaphore_data _ _) as [d|] eqn:Hget; simpl in H.
    2:{ injection H as <-. exact Hok. }
    destruct (sems_bounded_get _ _ _ Hok Hget) as (Hval & Hcap & Hsz).
    destruct (sem_initialized d); simpl in H; [|injection H as <-; exact Hok].
    destruct (decide (queue_size d > 0)) as [Hn|Hn]; simpl in H.
    { injection H as <-.
      apply (sems_bounded_semaphores
               (with_semaphores (put_semaphore_data (semaphores s) sem
                  (mkSem true (value d) (dequeue (waiting_queue d)) (queue_capacity d))) s));
        [done|].
      eapply sems_bounded_put; [done | done |].
      unfold sem_bounds, queue_size in *. simpl.
      destruct (waiting_queue d) as [|w q]; [simpl in Hn; lia|].
      rewrite dequeue_cons. simpl in Hsz. lia. }
    destruct (decide (value d < SEM_VALUE_MAX - 1)); simpl in H; injection H as <-;
      [|exact Hok].
    eapply sems_bounded_put; [done | done |].
    unfold sem_bounds, queue_size in *. simpl. lia.
  - unfold signal_handler in H.
    apply yield_frame in H as (_ & _ & E & _).
    apply (sems_bounded_semaphores _ _ E), (sems_bounded_semaphores s); [|done].
    unfold alarm_demote. by case_decide.
Qed.

(** X10: the semaphore code stays inside its arrays and its value range.
    In every reachable state the directory holds at most MAX_SEMAPHORES
    records, and every record has 0 <= value < SEM_VALUE_MAX, a queue
    capacity of at least 16 and no more queued threads than capacity: the
    cell sem_wait writes, waiting_queue[queue_size], lies inside the
    allocation once the capacity was doubled when needed. *)
Theorem semaphores_in_bounds s :
  reachable s ->
  num_semaphores s <= MAX_SEMAPHORES /\
  forall sem d, (sem, d) ∈ semaphores s ->
    0 <= value d < SEM_VALUE_MAX /\
    16 <= queue_capacity d /\ 0 <= queue_size d <= queue_capacity d.
Proof.
  intros Hr.
  assert (sems_bounded s) as [Hn Hok].
  { induction Hr as [|s e s' _ IH _ Hstep].
    - split; [by vm_compute | by apply Forall_nil].
    - by eapply step_sems_bounded. }
  split; [done|]. intros sem d Hin.
  rewrite Forall_forall in Hok. destruct (Hok _ Hin) as (Hv & Hc & Hs). simpl in *.
  unfold queue_size in *. repeat split; lia.
Qed.

Lemma semaphores_in_bounds_witness :
  num_semaphores full_queue_state <= MAX_SEMAPHORES /\
  exists d, get_semaphore_data (semaphores full_queue_state) 9 = Some d /\
    0 <= value d < SEM_VALUE_MAX /\
    16 <= queue_capacity d /\ 0 <= queue_size d <= queue_capacity d.
Proof.
  assert (reachable full_queue_state) as Hr.
  { apply (run_reachable full_queue_run boot); [apply reach_boot | by vm_compute]. }
  destruct (semaphores_in_bounds full_queue_state Hr) as [Hn Hall].
  split; [exact Hn|].
  assert (get_semaphore_data (semaphores full_queue_state) 9 =
            Some (mkSem true 0 (seqZ 0 16) 16)) as Hget by (by vm_compute).
  exists (mkSem true 0 (seqZ 0 16) 16). split; [done|]. apply (Hall 9).
  destruct (get_semaphore_split _ _ _ Hget) as (l1 & l2 & -> & _).
  apply elem_of_app. right. apply elem_of_cons. by left.
Defined.

(** ** The alarm handler *)





(** ** Thread ids, stacks and handles *)

Lemma ids_upd n a f k :
  (forall i, 0 <= i < MAX_THREADS -> id_ok n i (tcb_at a i)) ->
  (0 <= k < MAX_THREADS -> id_ok n k (tcb_at a k) -> id_ok n k (f (tcb_at a k))) ->
  forall i, 0 <= i < MAX_THREADS -> id_ok n i (tcb_at (tcb_upd f k a) i).
Proof.
  intros H Hf i Hi. rewrite tcb_at_upd.
  case_decide as Hc; [destruct Hc as [-> _]; apply Hf; auto | auto].
Qed.

Lemma id_ok_same n i t t' :
  thread_id t' = thread_id t -> has_been_joined t' = has_been_joined t ->
  stack t' = stack t ->
  (forall tg vp, context t' = CtxJoin tg vp -> 0 <= tg < n) ->
  id_ok n i t -> id_ok n i t'.
Proof.
  intros E1 E2 E3 Hc (H1 & H2 & _). unfold id_ok. rewrite E1, E2, E3. done.
Qed.

Lemma id_ok_status n i x t : id_ok n i t -> id_ok n i (set_status x t).
Proof. intros H. apply (id_ok_same n i t); try done. apply H. Qed.

Lemma id_ok_return_value n i x t : id_ok n i t -> id_ok n i (set_return_value x t).
Proof. intros H. apply (id_ok_same n i t); try done. apply H. Qed.

Lemma id_ok_joined_by n i x t : id_ok n i t -> id_ok n i (set_joined_by x t).
Proof. intros H. apply (id_ok_same n i t); try done. apply H. Qed.

Lemma id_ok_context n i c t :
  (forall tg vp, c = CtxJoin tg vp -> 0 <= tg < n) ->
  id_ok n i t -> id_ok n i (set_context c t).
Proof. intros Hc H. by apply (id_ok_same n i t). Qed.

Lemma id_ok_reaped n i :
  0 <= i < n -> id_ok n i (mkTCB 0 NULL CtxZero EXITED NULL NULL NULL (-1) true).
Proof. intros Hi. unfold id_ok. simpl. split; [by right|]. split; [lia | done]. Qed.

Lemma ids_ok_tcbs s a :
  (forall i, 0 <= i < MAX_THREADS -> id_ok (num_threads s) i (tcb_at a i)) ->
  ids_ok (with_tcbs a s).
Proof. done. Qed.

Lemma join_reap_ids_ok t vp s :
  0 <= t < num_threads s -> ids_ok s -> ids_ok (join_reap t vp s).
Proof.
  intros Ht H i Hi. destruct (join_reap_frame t vp s) as (-> & _).
  rewrite join_reap_at. case_decide as Hc; [|by apply H].
  destruct Hc as [-> _]. by apply id_ok_reaped.
Qed.

Lemma alarm_demote_ids_ok c s :
  (forall tg vp, c <> CtxJoin tg vp) -> ids_ok s -> ids_ok (alarm_demote c s).
Proof.
  intros Hc H. unfold alarm_demote. apply ids_ok_tcbs.
  assert (forall i, 0 <= i < MAX_THREADS ->
            id_ok (num_threads s) i
              (tcb_at (tcb_upd (set_context c) (current_thread s) (tcb_array s)) i))
    as H1.
  { apply ids_upd; [done|]. intros _. apply id_ok_context. intros tg vp E.
    by destruct (Hc tg vp). }
  case_decide; [|done]. apply ids_upd; [done | intros _; apply id_ok_status].
Qed.

Lemma yield_ids_ok ticks s s' :
  length (tcb_array s) = Z.to_nat MAX_THREADS -> ids_ok s ->
  next_state (yield ticks s) = Some s' -> ids_ok s'.
Proof.
  intros Hl H Hy.
  set (P := fun s0 : State => length (tcb_array s0) = Z.to_nat MAX_THREADS /\ ids_ok s0).
  apply (yield_inv P P) with (ticks := ticks) (s := s) (s' := s'); [| | | done | done].
  - intros s0 s1 [Hl0 H0] Hs.
    destruct (schedule_cases _ _ Hs) as [(c & _ & _ & ->)|[_ [->| ->]]];
      (split; [simpl; by rewrite ?tcb_upd_length|]); try done;
      apply ids_ok_tcbs; cbn [num_threads with_current with_tcbs];
      apply ids_upd; try done; intros _; apply id_ok_status.
  - intros s0 [Hl0 H0].
    destruct (alarm_demote_frame CtxUnlock s0) as (_ & _ & _ & _ & El).
    split; [congruence|]. by apply alarm_demote_ids_ok.
  - intros s0 t vp [Hl0 H0] Hc.
    destruct (join_reap_frame t vp s0) as (_ & _ & _ & _ & El).
    split; [congruence|]. apply join_reap_ids_ok; [|done].
    destruct (decide (0 <= current_thread s0 < MAX_THREADS)) as [Hin|Hout].
    + by apply (H0 _ Hin) in Hc.
    + rewrite tcb_at_outside in Hc; [done|]. rewrite Hl0. unfold MAX_THREADS in *. lia.
Qed.

Lemma init_threading_ids_ok s :
  initialized s = false -> tcb_array s = tcb_array boot -> ids_ok (init_threading s).
Proof.
  intros Hi Ea i Hr. rewrite (init_threading_at s i Hi), Ea.
  destruct (init_threading_frame s Hi) as (_ & -> & _).
  rewrite decide_True
    by (split; [done|]; unfold boot; cbn [tcb_array]; rewrite length_replicate;
        unfold MAX_THREADS in *; lia).
  unfold boot. cbn [tcb_array]. rewrite !tcb_at_replicate_zero.
  unfold id_ok. case_decide as H0; simpl.
  - subst i. split; [left; repeat split; try done; lia|]. split; [lia | done].
  - split; [lia|]. split; [done | done].
Qed.

Lemma pthread_create_ids_ok s thread start arg_ m r s' :
  initialized s = true -> bounds_ok s -> ids_ok s ->
  pthread_create s thread start arg_ m = Return r s' -> ids_ok s'.
Proof.
  intros Hi [Hl Hb] H. rewrite Hi in Hb. destruct Hb as [Hn Hc].
  unfold pthread_create. rewrite Hi.
  case_decide as Hfull; [by intros [= _ <-]|].
  case_decide as Hm; intros [= _ <-]; intros i Hr;
    cbn [num_threads tcb_array with_tcbs with_num_threads store].
  - replace (num_threads s + 1 - 1) with (num_threads s) by lia.
    apply ids_upd; [done | | done]. intros _ (_ & H2 & H3).
    unfold id_ok. simpl. split; [lia|]. split; [done | exact H3].
  - rewrite tcb_at_upd, tcb_upd_length. case_decide as Hk.
    + destruct Hk as [-> _]. rewrite tcb_at_upd_eq by (rewrite Hl; unfold MAX_THREADS in *; lia).
      unfold id_ok. simpl. split; [|split; [lia | done]].
      intros _. left. repeat split; try done; lia.
    + assert (i <> num_threads s) as Hne.
      { intros ->. apply Hk. split; [done|]. rewrite Hl. unfold MAX_THREADS in *. lia. }
      rewrite tcb_at_upd_ne by done.
      destruct (H i Hr) as (H1 & H2 & H3). unfold id_ok.
      split; [intros Hlt; apply H1; lia|]. split; [intros Hge; apply H2; lia|].
      intros tg vp E. specialize (H3 tg vp E). lia.
Qed.

Lemma step_initialized s e s' :
  (forall thread start arg_ m, e <> EvCreate thread start arg_ m) ->
  next_state (step s e) = Some s' -> initialized s' = initialized s.
Proof.
  intros He H.
  destruct e as [thread start arg_ m | v tk | thread vp tk | sem p val dk qk | sem | sem rk tk
                 | sem | tk];
    simpl in H.
  - by destruct (He thread start arg_ m).
  - unfold pthread_exit in H. destruct (all_exited _); [done|].
    by apply yield_frame in H as (_ & -> & _).
  - unfold pthread_join in H.
    repeat case_decide; try destruct (has_been_joined _); simpl in H;
      try (injection H as <-); try done.
    + by destruct (join_reap_frame (find_thread (Z.to_nat (num_threads s)) (tcb_array s) 0
                                      (to_int thread)) vp s) as (_ & _ & -> & _).
    + by apply yield_frame in H as (_ & -> & _).
  - unfold sem_init, add_semaphore_mapping in H.
    repeat case_decide; destruct dk, qk; simpl in H; by injection H as <-.
  - unfold sem_destroy in H.
    destruct (get_semaphore_data _ _) as [d|]; [destruct (sem_initialized d)|];
      simpl in H; by injection H as <-.
  - unfold sem_wait in H.
    destruct (get_semaphore_data _ _) as [d|]; [destruct (sem_initialized d)|];
      simpl in H; try by injection H as <-.
    repeat case_decide; try destruct rk; simpl in H;
      try (by injection H as <-); by apply yield_frame in H as (_ & -> & _).
  - unfold sem_post in H.
    destruct (get_semaphore_data _ _) as [d|]; [destruct (sem_initialized d)|];
      simpl in H; try by injection H as <-.
    repeat case_decide; simpl in H; by injection H as <-.
  - unfold signal_handler in H. apply yield_frame in H as (_ & -> & _).
    unfold alarm_demote. by case_decide.
Qed.

Lemma exit_mark_ids_ok s v : ids_ok s -> ids_ok (exit_mark s v).
Proof.
  intros H. unfold exit_mark. apply ids_ok_tcbs.
  assert (forall i, 0 <= i < MAX_THREADS ->
            id_ok (num_threads s) i
              (tcb_at (tcb_upd (set_status EXITED) (current_thread s)
                         (tcb_upd (set_return_value v) (current_thread s) (tcb_array s))) i))
    as H2.
  { apply ids_upd; [|intros _; apply id_ok_status].
    apply ids_upd; [done | intros _; apply id_ok_return_value]. }
  case_decide; [|done]. apply ids_upd; [done | intros _; apply id_ok_status].
Qed.

Lemma join_block_ids_ok s t vp :
  0 <= t < num_threads s -> ids_ok s -> ids_ok (join_block s t vp).
Proof.
  intros Ht H. unfold join_block. apply ids_ok_tcbs.
  apply ids_upd; [|intros _; apply id_ok_context; by intros ? ? [= -> _]].
  apply ids_upd; [|intros _; apply id_ok_status].
  apply ids_upd; [done | intros _; apply id_ok_joined_by].
Qed.

Lemma wait_block_ids_ok s sem d : ids_ok s -> ids_ok (wait_block s sem d).
Proof.
  intros H. unfold wait_block. apply ids_ok_tcbs.
  apply ids_upd; [|intros _; by apply id_ok_context].
  apply ids_upd; [done | intros _; apply id_ok_status].
Qed.

Lemma find_thread_found s thread :
  bounds_ok s ->
  let t := find_thread (Z.to_nat (num_threads s)) (tcb_array s) 0 (to_int thread) in
  t <> -1 -> 0 <= t < num_threads s.
Proof.
  intros _ t Ht. unfold t in *.
  destruct (find_thread_range (Z.to_nat (num_threads s)) (tcb_array s) 0 (to_int thread));
    [done | lia].
Qed.

Lemma step_ids_ok s e s' :
  initialized s = true -> bounds_ok s -> ids_ok s ->
  next_state (step s e) = Some s' -> ids_ok s'.
Proof.
  intros Hi Hb H Hs. pose proof Hb as [Hl _].
  destruct e as [thread start arg_ m | v tk | thread vp tk | sem p val dk qk | sem | sem rk tk
                 | sem | tk];
    simpl in Hs.
  - destruct (pthread_create s thread start arg_ m) as [r s1| | |] eqn:E;
      try done; simpl in Hs.
    + injection Hs as <-. by eapply pthread_create_ids_ok.
    + unfold pthread_create in E. by repeat case_decide.
  - unfold pthread_exit in Hs. destruct (all_exited _); [done|].
    eapply yield_ids_ok; [|apply (exit_mark_ids_ok s v H) | exact Hs].
    unfold exit_mark. simpl. case_decide; by rewrite !tcb_upd_length.
  - unfold pthread_join in Hs.
    case_decide as Ht; [by injection Hs as <-|].
    destruct (has_been_joined _); [by injection Hs as <-|].
    case_decide; [by injection Hs as <-|].
    pose proof (find_thread_found s thread Hb Ht) as Hr.
    case_decide; simpl in Hs.
    + injection Hs as <-. by apply join_reap_ids_ok.
    + eapply yield_ids_ok; [|apply (join_block_ids_ok s _ vp Hr H) | exact Hs].
      unfold join_block. simpl. by rewrite !tcb_upd_length.
  - unfold sem_init, add_semaphore_mapping in Hs.
    repeat case_decide; destruct dk, qk; simpl in Hs; by injection Hs as <-.
  - unfold sem_destroy in Hs.
    destruct (get_semaphore_data _ _) as [d|]; [destruct (sem_initialized d)|];
      simpl in Hs; by injection Hs as <-.
  - unfold sem_wait in Hs.
    destruct (get_semaphore_data _ _) as [d|]; [destruct (sem_initialized d)|];
      simpl in Hs; try by injection Hs as <-.
    assert (forall d0, next_state (yield tk (wait_block s sem d0)) = Some s' -> ids_ok s')
      as Hy.
    { intros d0 Hd0. eapply yield_ids_ok; [|apply (wait_block_ids_ok s sem d0 H) | exact Hd0].
      unfold wait_block. simpl. by rewrite !tcb_upd_length. }
    repeat case_decide; try destruct rk; simpl in Hs;
      try (by injection Hs as <-); by eapply Hy.
  - unfold sem_post in Hs.
    destruct (get_semaphore_data _ _) as [d|]; [destruct (sem_initialized d)|];
      simpl in Hs; try by injection Hs as <-.
    repeat case_decide; simpl in Hs; injection Hs as <-; try done.
    apply ids_ok_tcbs. simpl. apply ids_upd; [done | intros _; apply id_ok_status].
  - unfold signal_handler in Hs.
    eapply yield_ids_ok; [|apply (alarm_demote_ids_ok CtxSignal s); done | exact Hs].
    unfold alarm_demote. simpl. case_decide; by rewrite !tcb_upd_length.
Qed.

Lemma step_ids_inv s e s' :
  ids_inv s -> enabled s e = true -> next_state (step s e) = Some s' -> ids_inv s'.
Proof.
  intros [Hb H] Hen Hs. split; [by eapply step_bounds_ok|].
  destruct (initialized s) eqn:Hi.
  - destruct (step_num_threads s e s' Hi Hs) as [_ ->]. by eapply step_ids_ok.
  - destruct H as [Ea Ew]. pose proof Hb as [Hl Hn]. rewrite Hi in Hn. destruct Hn as [En Ec].
    assert (pre_init s) as Hpre by done.
    assert ((exists thread start arg_ m, e = EvCreate thread start arg_ m) \/
            (forall thread start arg_ m, e <> EvCreate thread start arg_ m))
      as [(thread & start & arg_ & m & ->)|Hne]
      by (destruct e; [left; eauto | right; done ..]).
    + simpl in Hs.
      destruct (init_threading_frame s Hi) as (Hl0 & Hn0 & Hc0 & Hi0 & _).
      assert (bounds_ok (init_threading s)) as Hb0.
      { split; [congruence|]. rewrite Hi0, Hn0, Hc0. unfold MAX_THREADS. lia. }
      assert (pthread_create (init_threading s) thread start arg_ m =
              pthread_create s thread start arg_ m) as E.
      { unfold pthread_create. by rewrite Hi, Hi0. }
      rewrite <- E in Hs.
      pose proof (step_num_threads (init_threading s) (EvCreate thread start arg_ m) s'
                    Hi0 Hs) as [_ ->].
      apply (step_ids_ok (init_threading s) (EvCreate thread start arg_ m)); try done.
      by apply init_threading_ids_ok.
    + assert (initialized s' = false) as Hi'.
      { rewrite <- Hi. by apply (step_initialized s e). }
      pose proof (step_pre_init s e s' Hi Hpre Hen Hs) as Hlive.
      unfold live_inv in Hlive. rewrite Hi' in *. by destruct Hlive as (? & _ & _ & ?).
Qed.

Lemma reachable_ids_inv s : reachable s -> ids_inv s.
Proof.
  induction 1 as [|s e s' _ IH Hen Hstep].
  - by split.
  - by eapply step_ids_inv.
Qed.

(** X12: a stack is allocated exactly for the threads that were created
    and not yet joined.  In every reachable state slot i holds a stack
    iff 1 <= i < num_threads and the slot has not been joined: main (slot
    0) never has one, a thread keeps its stack after it has exited until
    it is joined, joining frees it, and a failed pthread_create leaves
    none behind. *)
Theorem stacks_follow_threads s i :
  reachable s ->
  (stack (tcb_at (tcb_array s) i) <> NULL <->
   1 <= i < num_threads s /\ has_been_joined (tcb_at (tcb_array s) i) = false).
Proof.
  intros Hr. destruct (reachable_ids_inv s Hr) as [[Hl Hb] H].
  destruct (decide (0 <= i < MAX_THREADS)) as [Hi|Hi].
  2:{ assert (tcb_at (tcb_array s) i = tcb_zero) as ->.
      { apply tcb_at_outside. rewrite Hl. unfold MAX_THREADS in *. lia. }
      simpl. split; [done|]. intros [Hn _]. destruct (initialized s); lia. }
  destruct (initialized s).
  - destruct (H i Hi) as (H1 & H2 & _). destruct Hb as [Hn Hc].
    destruct (decide (i < num_threads s)) as [Hlt|Hge].
    + destruct (H1 Hlt) as [(E1 & _ & E3)|(E1 & _ & E3)]; rewrite E1.
      * rewrite E3. split; [lia | tauto].
      * rewrite E3. split; [done | by intros [_ ?]].
    + destruct H2 as [_ ->]; [lia|]. split; [done | lia].
  - destruct H as [-> _]. unfold boot. cbn [tcb_array].
    rewrite tcb_at_replicate_zero. simpl. split; [done | lia].
Qed.

Lemma stacks_follow_threads_witness :
  stack (tcb_at (tcb_array joined_once_3) 1) = NULL /\
  (stack (tcb_at (tcb_array joined_once_1) 1) <> NULL <->
   1 <= 1 < num_threads joined_once_1 /\
   has_been_joined (tcb_at (tcb_array joined_once_1) 1) = false).
Proof.
  split; [by vm_compute|].
  apply (stacks_follow_threads joined_once_1 1).
  apply (run_reachable [EvCreate 1000 77 0 5000] boot); [apply reach_boot | by vm_compute].
Defined.

Lemma find_thread_none : forall fuel a i id,
  (forall j, i <= j < i + Z.of_nat fuel -> thread_id (tcb_at a j) <> id) ->
  find_thread fuel a i id = -1.
Proof.
  induction fuel as [|fuel IH]; intros a i id H; simpl; [done|].
  rewrite decide_False by (apply H; lia). apply IH. intros j Hj. apply H. lia.
Qed.

Lemma find_thread_first : forall fuel a i id k,
  i <= k < i + Z.of_nat fuel -> thread_id (tcb_at a k) = id ->
  (forall j, i <= j < k -> thread_id (tcb_at a j) <> id) ->
  find_thread fuel a i id = k.
Proof.
  induction fuel as [|fuel IH]; intros a i id k Hk E H; simpl; [lia|].
  destruct (decide (i = k)) as [->|Hne].
  - by rewrite decide_True.
  - rewrite decide_False by (apply H; lia). apply IH; [lia | done |].
    intros j Hj. apply H. lia.
Qed.

(** X13: how pthread_join reads a handle.  In every reachable state, with
    h the handle as an int: a handle outside 0 .. num_threads - 1, or the
    handle of a thread other than main that was already joined, gives
    ESRCH; an unjoined thread is found at slot h, so that the call gives
    EDEADLK when h is the caller, reaps the slot at once when the thread
    has exited, and suspends the caller otherwise; EINVAL is returned for
    handle 0 only, once main has been joined.  The calls that fail leave
    the state as it was. *)
Theorem pthread_join_by_handle s thread vp ticks :
  reachable s ->
  let h := to_int thread in
  let t := tcb_at (tcb_array s) h in
  ((h < 0 \/ num_threads s <= h) -> pthread_join s thread vp ticks = Return ESRCH s) /\
  (1 <= h < num_threads s -> has_been_joined t = true ->
     pthread_join s thread vp ticks = Return ESRCH s) /\
  (h = 0 -> 0 < num_threads s -> has_been_joined t = true ->
     pthread_join s thread vp ticks = Return EINVAL s) /\
  (0 <= h < num_threads s -> has_been_joined t = false ->
     pthread_join s thread vp ticks =
       if decide (h = current_thread s) then Return EDEADLK s
       else if decide (status t = EXITED) then Return 0 (join_reap h vp s)
       else yield ticks (join_block s h vp)) /\
  (forall s', pthread_join s thread vp ticks = Return EINVAL s' -> h = 0 /\ s' = s).
Proof.
  intros Hr h t. destruct (reachable_ids_inv s Hr) as [[Hl Hb] H].
  set (f := find_thread (Z.to_nat (num_threads s)) (tcb_array s) 0 h).
  assert (initialized s = false -> f = -1) as Hpre.
  { intros Hi. rewrite Hi in Hb. destruct Hb as [En _]. unfold f. by rewrite En. }
  assert (initialized s = true ->
          forall j, 0 <= j < num_threads s ->
            thread_id (tcb_at (tcb_array s) j) = j /\
              has_been_joined (tcb_at (tcb_array s) j) = false \/
            thread_id (tcb_at (tcb_array s) j) = 0 /\
              has_been_joined (tcb_at (tcb_array s) j) = true) as Hid.
  { intros Hi j Hj. rewrite Hi in H, Hb. destruct Hb as [Hn _].
    destruct (H j) as (H1 & _); [lia|].
    destruct (H1 ltac:(lia)) as [(? & ? & _)|(? & ? & _)]; [by left | by right]. }
  assert ((h < 0 \/ num_threads s <= h) -> f = -1) as Hout.
  { intros Hh. destruct (initialized s) eqn:Hi; [|by apply Hpre].
    apply find_thread_none. intros j Hj.
    destruct (Hid eq_refl j) as [[-> _]|[-> _]]; lia. }
  assert (1 <= h < num_threads s -> has_been_joined t = true -> f = -1) as Hgone.
  { intros Hh Hj. destruct (initialized s) eqn:Hi; [|by apply Hpre].
    apply find_thread_none. intros j Hj'.
    destruct (Hid eq_refl j) as [[E1 E2]|[-> _]]; [lia | | lia].
    rewrite E1. intros ->. unfold t in Hj. congruence. }
  assert (0 <= h < num_threads s -> has_been_joined t = false \/ h = 0 -> f = h) as Hfound.
  { intros Hh Hj. destruct (initialized s) eqn:Hi.
    2:{ destruct Hb. lia. }
    apply find_thread_first; [lia | |].
    - destruct (Hid eq_refl h Hh) as [[E _]|[E E2]]; [done|].
      destruct Hj as [Hj| ->]; [unfold t in Hj; congruence | done].
    - intros j Hj'. destruct (Hid eq_refl j) as [[-> _]|[-> _]]; lia. }
  unfold pthread_join. fold h f.
  split; [|split; [|split; [|split]]].
  - intros Hh. by rewrite (Hout Hh).
  - intros Hh Hj. by rewrite (Hgone Hh Hj).
  - intros Hh Hn Hj. rewrite (Hfound ltac:(lia) (or_intror Hh)).
    rewrite decide_False by lia. fold t. by rewrite Hj.
  - intros Hh Hj. rewrite (Hfound Hh (or_introl Hj)).
    rewrite decide_False by lia. fold t. by rewrite Hj.
  - intros s'. case_decide as Hf; [done|].
    destruct (has_been_joined (tcb_at (tcb_array s) f)) eqn:Hj.
    + intros [= <-]. split; [|done].
      destruct (decide (h < 0 \/ num_threads s <= h)) as [Hh|Hh]; [by rewrite Hout in Hf|].
      destruct (decide (h = 0)) as [|Hne]; [done|]. exfalso.
      destruct (decide (has_been_joined t = true)) as [Hjt|Hjt].
      * rewrite Hgone in Hf; [done | lia | done].
      * apply not_true_is_false in Hjt.
        rewrite (Hfound ltac:(lia) (or_introl Hjt)) in Hj. unfold t in Hjt. congruence.
    + repeat case_decide; try done. intros E. by apply yield_not_return in E.
Qed.

Lemma pthread_join_by_handle_witness :
  pthread_join joined_once_3 1 2000 0 = Return ESRCH joined_once_3 /\
  pthread_join joined_once_1 1 2000 0 =
    (if decide (to_int 1 = current_thread joined_once_1) then Return EDEADLK joined_once_1
     else if decide (status (tcb_at (tcb_array joined_once_1) (to_int 1)) = EXITED)
          then Return 0 (join_reap (to_int 1) 2000 joined_once_1)
          else yield 0 (join_block joined_once_1 (to_int 1) 2000)).
Proof.
  assert (reachable joined_once_1) as H1.
  { apply (run_reachable [EvCreate 1000 77 0 5000] boot); [apply reach_boot | by vm_compute]. }
  assert (reachable joined_once_3) as H3.
  { apply (run_reachable joined_once_run boot); [apply reach_boot | by vm_compute]. }
  split.
  - apply (pthread_join_by_handle joined_once_3 1 2000 0 H3); by vm_compute.
  - apply (pthread_join_by_handle joined_once_1 1 2000 0 H1); by vm_compute.
Defined.

(** ** Undisturbed runs: every jump is defined *)

Lemma slots_upd n a f k :
  (forall i, 0 <= i < n -> slot_live (tcb_at a i)) ->
  (0 <= k < n -> slot_live (tcb_at a k) -> slot_live (f (tcb_at a k))) ->
  forall i, 0 <= i < n -> slot_live (tcb_at (tcb_upd f k a) i).
Proof.
  intros H Hf i Hi. rewrite tcb_at_upd.
  case_decide as Hc; [destruct Hc as [-> _]; apply Hf; auto | auto].
Qed.

Lemma slot_live_same t t' :
  has_been_joined t' = has_been_joined t -> status t' = status t ->
  context t' = context t -> slot_live t -> slot_live t'.
Proof. unfold slot_live. by intros -> -> ->. Qed.

(** A record that is neither joined-and-live nor READY passes. *)
Lemma slot_live_busy x c t :
  x <> READY -> status t <> EXITED -> slot_live t ->
  slot_live (set_status x (set_context c t)).
Proof.
  intros Hx Hs [H1 _]. split; simpl; [|done].
  intros Hj. by destruct (Hs (H1 Hj)).
Qed.

Lemma slot_live_ready c t :
  c <> CtxZero -> c <> CtxUnlock -> status t <> EXITED -> slot_live t ->
  slot_live (set_status READY (set_context c t)).
Proof.
  intros Hc1 Hc2 Hs [H1 _]. split; simpl; [|done].
  intros Hj. by destruct (Hs (H1 Hj)).
Qed.

Lemma slot_live_exited x t : slot_live (set_status EXITED (set_return_value x t)).
Proof. by split. Qed.

Lemma slot_live_reaped : slot_live (mkTCB 0 NULL CtxZero EXITED NULL NULL NULL (-1) true).
Proof. by split. Qed.

Lemma slots_live_tcbs s a :
  (forall i, 0 <= i < num_threads s -> slot_live (tcb_at a i)) -> slots_live (with_tcbs a s).
Proof. done. Qed.

Lemma join_reap_slots_live t vp s : slots_live s -> slots_live (join_reap t vp s).
Proof.
  intros H i Hi. destruct (join_reap_frame t vp s) as (En & _). rewrite En in Hi.
  rewrite join_reap_at. case_decide; [apply slot_live_reaped | by apply H].
Qed.

(** The scheduler, when it finds a READY slot, and the jump into it. *)
Lemma yield_slots_live s s' :
  slots_live s -> finds_ready s = true -> next_state (yield 0 s) = Some s' ->
  slots_live s'.
Proof.
  intros H Hf Hy. destruct (yield_cases _ _ Hy) as (s1 & Hs & Hj).
  assert (slots_live s1) as H1.
  { unfold finds_ready in Hf.
    destruct (schedule_cases _ _ Hs) as [(c & _ & Hr & ->)|[Hnone _]].
    2:{ by rewrite Hnone in Hf. }
    apply slots_live_tcbs. cbn [num_threads with_current with_tcbs].
    apply slots_upd; [done|]. intros Hc [Hj1 _]. split; simpl; [|done].
    intros Hjt. specialize (Hj1 Hjt). congruence. }
  destruct Hj as [->|(t & vp & _ & ->)]; [done | by apply join_reap_slots_live].
Qed.

Lemma yield_defined s :
  slots_live s -> 0 < num_threads s -> 0 <= current_thread s ->
  finds_ready s = true ->
  exists r s', yield 0 s = Resume r s'.
Proof.
  intros H Hn Hc Hf. unfold finds_ready in Hf. rewrite yield_0. unfold schedule.
  destruct (schedule_scan _ _ _ _) as [[a' c]|] eqn:Hscan; [|done].
  apply schedule_scan_some in Hscan as (Hcr & Hr & ->); [|done|done].
  destruct (H c Hcr) as [_ Hx]. destruct (Hx Hr) as [Hz Hu].
  unfold longjmp. cbn [tcb_array current_thread with_current with_tcbs].
  rewrite (tcb_at_upd_field context) by done.
  destruct (context (tcb_at (tcb_array s) c)); try done; eauto.
Qed.

Lemma init_threading_slots_live s :
  initialized s = false -> tcb_array s = tcb_array boot -> slots_live (init_threading s).
Proof.
  intros Hi Ea i Hr. destruct (init_threading_frame s Hi) as (_ & En & _).
  rewrite En in Hr. assert (i = 0) as -> by lia.
  rewrite (init_threading_at s 0 Hi), Ea.
  rewrite decide_True
    by (split; [unfold MAX_THREADS; lia|]; unfold boot; cbn [tcb_array];
        rewrite length_replicate; unfold MAX_THREADS; lia).
  by split.
Qed.

Lemma pthread_create_slots_live s thread start arg_ m r s' :
  initialized s = true -> length (tcb_array s) = Z.to_nat MAX_THREADS ->
  0 <= num_threads s -> slots_live s ->
  pthread_create s thread start arg_ m = Return r s' -> slots_live s'.
Proof.
  intros Hi Hl Hn H. unfold pthread_create. rewrite Hi.
  case_decide as Hfull; [by intros [= _ <-]|].
  case_decide as Hm; intros [= _ <-]; intros i Hr;
    cbn [num_threads tcb_array with_tcbs with_num_threads store] in *.
  - rewrite tcb_at_upd_ne by lia. apply H. lia.
  - rewrite tcb_at_upd, tcb_upd_length. case_decide as Hk.
    + destruct Hk as [-> _].
      rewrite tcb_at_upd_eq by (rewrite Hl; unfold MAX_THREADS in *; lia).
      by split.
    + assert (i <> num_threads s) as Hne.
      { intros ->. apply Hk. split; [done|]. rewrite Hl. unfold MAX_THREADS in *. lia. }
      rewrite tcb_at_upd_ne by done. apply H. lia.
Qed.

(** The states in which the suspending calls reach the scheduler. *)
Lemma suspends_slots_live s e s1 :
  inv s -> running s -> slots_live s -> suspends s e = Some s1 -> slots_live s1.
Proof.
  intros Hinv Hrun H. pose proof (inv_cur_in_table s Hinv) as Hc.
  pose proof Hinv as [Hl G]. pose proof (g_cur _ _ _ _ _ _ G) as Hcn.
  assert (status (tcb_at (tcb_array s) (current_thread s)) <> EXITED) as Hne.
  { unfold running, st_of in Hrun. by rewrite Hrun. }
  destruct e as [thread start arg_ m | v tk | thread vp tk | sem p val dk qk | sem | sem rk tk
                 | sem | tk]; simpl; try done.
  - destruct (all_exited _); [done|]. intros [= <-]. intros i Hi.
    destruct (exit_mark_frame s v) as (En & _). rewrite En in Hi.
    rewrite exit_mark_at by done.
    pose proof (joiner_of_current _ _ _ _ _ _ G Hrun) as HJ. unfold jb_of, st_of, cx_of in HJ.
    case_decide as Hj.
    + destruct Hj as (-> & Hj & _). destruct (HJ Hj) as (Hjr & Hjb & Hjc & vp & Hjx).
      rewrite decide_False by done. destruct (H _ Hjr) as [H1 _].
      split; simpl; [intros Hx; specialize (H1 Hx); congruence|].
      intros _. rewrite Hjx. done.
    + case_decide; [apply slot_live_exited | by apply H].
  - repeat case_decide; try destruct (has_been_joined _); try done.
    intros [= <-]. unfold join_block. apply slots_live_tcbs.
    apply slots_upd.
    2:{ intros _ [Hj1 Hj2]. split; simpl; [exact Hj1|]. intros E. by destruct (Hj2 E). }
    apply slots_upd.
    2:{ intros Hk [Hj1 _]. split; simpl; [|done]. intros Hx.
        rewrite (tcb_at_upd_field has_been_joined) in Hx by done.
        destruct (H _ Hcn) as [Hc1 _]. by destruct (Hne (Hc1 Hx)). }
    apply slots_upd; [done|]. intros _. by apply slot_live_same.
  - destruct (get_semaphore_data _ _) as [d|] eqn:Hget; [|done].
    destruct (sem_initialized d); simpl; [|done].
    assert (forall d0, slots_live (wait_block s sem d0)) as Hw.
    { intros d0. unfold wait_block. apply slots_live_tcbs.
      cbn [num_threads with_semaphores].
      apply slots_upd.
      2:{ intros _ [H1 H2]. split; simpl; [exact H1 | done]. }
      apply slots_upd; [done|]. intros _ [H1 _]. split; simpl; [|done].
      intros Hx. by destruct (Hne (H1 Hx)). }
    repeat case_decide; try destruct rk; try done; intros [= <-]; apply Hw.
  - intros [= <-]. unfold alarm_demote. apply slots_live_tcbs.
    assert (forall i, 0 <= i < num_threads s ->
              slot_live (tcb_at (tcb_upd (set_context CtxSignal) (current_thread s)
                                   (tcb_array s)) i)) as H1.
    { apply slots_upd; [done|]. intros _ [H1 _]. split; simpl; [exact H1|].
      intros E. unfold running, st_of in Hrun. congruence. }
    case_decide; [|done]. apply slots_upd; [done|]. intros _ _.
    rewrite tcb_at_upd_eq by done. split; simpl; [|done].
    intros Hx. destruct (H _ Hcn) as [Hc1 _]. by destruct (Hne (Hc1 Hx)).
Qed.

Lemma step_slots_live s e s' :
  initialized s = true -> inv s -> running s -> slots_live s ->
  gate_ticks e = O -> deadlocks s e = false -> next_state (step s e) = Some s' ->
  slots_live s'.
Proof.
  intros Hi Hinv Hrun H Ht Hdl Hs.
  pose proof (step_suspends s e) as Hsus. unfold deadlocks in Hdl.
  destruct (suspends s e) as [s1|] eqn:Es.
  - rewrite Hsus, Ht in Hs. apply negb_false_iff in Hdl.
    eapply yield_slots_live; [|exact Hdl | exact Hs].
    by eapply suspends_slots_live.
  - destruct (Hsus s' Hs) as [r Hr]. clear Hsus Hs.
    pose proof Hinv as [Hl G]. pose proof (g_num _ _ _ _ _ _ G) as Hn.
    destruct e as [thread start arg_ m | v tk | thread vp tk | sem p val dk qk | sem | sem rk tk
                   | sem | tk]; simpl in Hr.
    + eapply pthread_create_slots_live; [done | done | lia | done | exact Hr].
    + unfold pthread_exit in Hr. destruct (all_exited _); [done|].
      by apply yield_not_return in Hr.
    + unfold pthread_join in Hr.
      repeat case_decide; try destruct (has_been_joined _); try (by injection Hr as <- <-).
      * injection Hr as <- <-. by apply join_reap_slots_live.
      * by apply yield_not_return in Hr.
    + unfold sem_init, add_semaphore_mapping in Hr.
      repeat case_decide; destruct dk, qk; simpl in Hr; by injection Hr as <- <-.
    + unfold sem_destroy in Hr.
      destruct (get_semaphore_data _ _) as [d|]; [destruct (sem_initialized d)|];
        simpl in Hr; by injection Hr as <- <-.
    + unfold sem_wait in Hr.
      destruct (get_semaphore_data _ _) as [d|]; [destruct (sem_initialized d)|];
        simpl in Hr; try by injection Hr as <- <-.
      repeat case_decide; try destruct rk; try (by injection Hr as <- <-);
        by apply yield_not_return in Hr.
    + unfold sem_post in Hr.
      destruct (get_semaphore_data _ _) as [d|] eqn:Hget; [|by injection Hr as <- <-].
      destruct (sem_initialized d); simpl in Hr; [|by injection Hr as <- <-].
      destruct (decide (queue_size d > 0)) as [Hq|Hq].
      2:{ case_decide; by injection Hr as <- <-. }
      injection Hr as <- <-. apply slots_live_tcbs. cbn [num_threads with_semaphores].
      destruct (waiting_queue d) as [|w q] eqn:Eq;
        [unfold queue_size in Hq; rewrite Eq in Hq; simpl in Hq; lia|]. simpl.
      destruct (all_waiters_split s sem d Hget) as (w1 & w2 & Eold & _).
      assert (w ∈ all_waiters s) as Hw.
      { rewrite Eold, Eq. apply elem_of_app. right. apply elem_of_cons. by left. }
      destruct (g_queue _ _ _ _ _ _ G w Hw) as (Hwr & Hwb & Hwc).
      unfold st_of, cx_of in Hwb, Hwc.
      apply slots_upd; [done|]. intros _ [H1 _]. split; simpl.
      * intros Hx. specialize (H1 Hx). congruence.
      * intros _. by rewrite Hwc.
    + unfold signal_handler in Hr. by apply yield_not_return in Hr.
Qed.

Lemma live_slots_live s : live s -> slots_live s.
Proof.
  induction 1 as [|s e s' Hlive IH Hen Ht Hdl Hstep].
  - intros i Hi. simpl in Hi. lia.
  - pose proof (live_live_inv s Hlive) as Hli. unfold live_inv in Hli.
    destruct (initialized s) eqn:Hi.
    + destruct Hli as [Hinv Hrun]. by eapply step_slots_live.
    + pose proof Hli as (Ea & En & Ec & Ew).
      assert ((exists thread start arg_ m, e = EvCreate thread start arg_ m) \/
              (forall thread start arg_ m, e <> EvCreate thread start arg_ m))
        as [(thread & start & arg_ & m & ->)|Hne]
        by (destruct e; [left; eauto | right; done ..]).
      * simpl in Hstep.
        destruct (init_threading_frame s Hi) as (Hl0 & Hn0 & Hc0 & Hi0 & _).
        assert (pthread_create (init_threading s) thread start arg_ m =
                pthread_create s thread start arg_ m) as E.
        { unfold pthread_create. by rewrite Hi, Hi0. }
        rewrite <- E in Hstep.
        destruct (pthread_create (init_threading s) thread start arg_ m)
          as [r s1| | |] eqn:Ec'; try done.
        -- injection Hstep as <-.
           eapply pthread_create_slots_live; [exact Hi0 | | | | exact Ec'].
           ++ rewrite Hl0, Ea. apply length_replicate.
           ++ lia.
           ++ by apply init_threading_slots_live.
        -- unfold pthread_create in Ec'. by repeat case_decide.
      * pose proof (step_initialized s e s' Hne Hstep) as Hi'. rewrite Hi in Hi'.
        pose proof (step_pre_init s e s' Hi Hli Hen Hstep) as Hlive'.
        unfold live_inv in Hlive'. rewrite Hi' in Hlive'.
        destruct Hlive' as (_ & En' & _). intros i Hr. lia.
Qed.

(** X14: in every state of an undisturbed run pthread_self returns the
    index of the running thread: the record at current_thread has not
    been joined, so its thread_id is still the index it was created with
    (before initialisation both are 0). *)
Theorem pthread_self_is_current s :
  live s ->
  pthread_self s = current_thread s /\
  has_been_joined (tcb_at (tcb_array s) (current_thread s)) = false.
Proof.
  intros Hlive. pose proof (live_slots_live s Hlive) as Hsl.
  pose proof (live_live_inv s Hlive) as Hli. unfold live_inv in Hli.
  destruct (reachable_ids_inv s (live_reachable s Hlive)) as [[Hl Hb] Hids].
  unfold pthread_self. destruct (initialized s).
  - destruct Hli as [[_ G] Hrun]. destruct Hb as [Hn Hc].
    destruct (Hsl _ Hc) as [Hj _]. unfold running, st_of in Hrun.
    destruct (Hids (current_thread s)) as (H1 & _); [lia|].
    destruct (H1 ltac:(lia)) as [(E1 & E2 & _)|(E1 & _)]; [done|].
    specialize (Hj E1). congruence.
  - destruct Hids as [-> _]. destruct Hb as [_ ->]. by vm_compute.
Qed.

Lemma pthread_self_is_current_witness :
  pthread_self joined_once_3 = current_thread joined_once_3 /\
  has_been_joined (tcb_at (tcb_array joined_once_3) (current_thread joined_once_3)) = false.
Proof.
  apply (pthread_self_is_current joined_once_3).
  apply (run_live joined_once_run boot _ live_boot); by vm_compute.
Defined.

Lemma suspends_num_threads s e s1 :
  suspends s e = Some s1 -> num_threads s1 = num_threads s.
Proof.
  destruct e as [thread start arg_ m | v tk | thread vp tk | sem p val dk qk | sem | sem rk tk
                 | sem | tk]; simpl; try done.
  - destruct (all_exited _); [done|]. by intros [= <-].
  - repeat case_decide; try destruct (has_been_joined _); try done. by intros [= <-].
  - destruct (get_semaphore_data _ _) as [d|]; [|done].
    destruct (sem_initialized d); simpl; [|done].
    repeat case_decide; try destruct rk; try done; by intros [= <-].
  - by intros [= <-].
Qed.

(** X15: in an undisturbed run no transition is undefined, and the
    process ends in one way only: by the pthread_exit that leaves every
    slot in use EXITED, with exit code 0 and after the global cleanup.
    Every other transition returns to its caller or resumes a thread. *)
Theorem undisturbed_step_defined s e :
  live s -> enabled s e = true -> gate_ticks e = O -> deadlocks s e = false ->
  step s e <> Fault /\
  (forall c s', step s e = Exit c s' ->
     c = 0 /\
     exists v, e = EvExit v 0 /\ all_exited (exit_mark s v) = true /\
               s' = cleanup_all_resources (exit_mark s v)).
Proof.
  intros Hlive Hen Ht Hdl.
  pose proof (live_slots_live s Hlive) as Hsl.
  pose proof (live_live_inv s Hlive) as Hli. unfold live_inv in Hli.
  pose proof (step_suspends s e) as Hsus. unfold deadlocks in Hdl.
  destruct (suspends s e) as [s1|] eqn:Es.
  - apply negb_false_iff in Hdl. rewrite Hsus, Ht.
    assert (exists r s', yield 0 s1 = Resume r s') as (r & s' & ->); [|done].
    destruct (initialized s) eqn:Hi.
    + destruct Hli as [Hinv Hrun].
      destruct (suspends_good s e s1 Hi Hinv Hrun Es) as (_ & G & _).
      pose proof (g_num _ _ _ _ _ _ G). pose proof (g_cur _ _ _ _ _ _ G).
      apply yield_defined; [by eapply suspends_slots_live | lia | lia | done].
    + destruct Hli as (_ & En & _). rewrite <- (suspends_num_threads _ _ _ Es) in En.
      unfold finds_ready in Hdl. rewrite En in Hdl. done.
  - clear Hsus Hdl.
    destruct e as [thread start arg_ m | v tk | thread vp tk | sem p val dk qk | sem | sem rk tk
                   | sem | tk]; simpl in *.
    + unfold pthread_create. repeat case_decide; done.
    + subst tk. unfold pthread_exit. destruct (all_exited _) eqn:E; [|done].
      split; [done|]. intros c s' [= <- <-]. split; [done|]. by exists v.
    + unfold pthread_join.
      repeat case_decide; try destruct (has_been_joined _); done.
    + unfold sem_init, add_semaphore_mapping.
      repeat case_decide; destruct dk, qk; done.
    + unfold sem_destroy.
      destruct (get_semaphore_data _ _) as [d|]; [destruct (sem_initialized d)|]; done.
    + unfold sem_wait.
      destruct (get_semaphore_data _ _) as [d|]; [destruct (sem_initialized d)|];
        simpl in *; try done.
      repeat case_decide; try destruct rk; done.
    + unfold sem_post.
      destruct (get_semaphore_data _ _) as [d|]; [destruct (sem_initialized d)|];
        simpl; try done.
      repeat case_decide; done.
    + done.
Qed.

Lemma undisturbed_step_defined_witness :
  step joined_once_2 (EvExit 42 0) <> Fault /\
  (forall c s', step joined_once_2 (EvExit 42 0) = Exit c s' ->
     c = 0 /\
     exists v, EvExit 42 0 = EvExit v 0 /\ all_exited (exit_mark joined_once_2 v) = true /\
               s' = cleanup_all_resources (exit_mark joined_once_2 v)).
Proof.
  apply (undisturbed_step_defined joined_once_2 (EvExit 42 0)).
  - apply (run_live [EvCreate 1000 77 0 5000; EvJoin 1 2000 0] boot _ live_boot);
      by vm_compute.
  - reflexivity.
  - reflexivity.
  - by vm_compute.
Defined.

(** ** init_threading and cleanup_all_resources *)

(** X16: init_threading does nothing in an initialised runtime.
    Otherwise it registers main in slot 0, RUNNING and not joined, marks
    every other slot EXITED and joined, with its index as thread_id, and
    sets num_threads to 1 and current_thread to 0; stacks are NULL,
    joined_by is -1, and the contexts are not written.  The semaphore
    directory is not touched: semaphores set up before the first
    pthread_create stay. *)
Theorem init_threading_spec s :
  (initialized s = true -> init_threading s = s) /\
  (initialized s = false -> length (tcb_array s) = Z.to_nat MAX_THREADS ->
   let s' := init_threading s in
   initialized s' = true /\ num_threads s' = 1 /\ current_thread s' = 0 /\
   semaphores s' = semaphores s /\ user_mem s' = user_mem s /\
   length (tcb_array s') = Z.to_nat MAX_THREADS /\
   tcb_at (tcb_array s') 0 =
     mkTCB 0 NULL (context (tcb_at (tcb_array s) 0)) RUNNING NULL NULL NULL (-1) false /\
   forall i, 1 <= i < MAX_THREADS ->
     tcb_at (tcb_array s') i =
       mkTCB i NULL (context (tcb_at (tcb_array s) i)) EXITED NULL NULL NULL (-1) true).
Proof.
  split.
  - intros Hi. unfold init_threading. by rewrite Hi.
  - intros Hi Hl s'. subst s'.
    destruct (init_threading_frame s Hi) as (El & En & Ec & Ei & Es).
    split; [done|]. split; [done|]. split; [done|]. split; [done|]. split.
    { unfold init_threading. by rewrite Hi. }
    split; [congruence|]. split.
    + rewrite init_threading_at by done.
      rewrite decide_True by (rewrite Hl; unfold MAX_THREADS; lia). done.
    + intros i Hr. rewrite init_threading_at by done.
      rewrite decide_True by (rewrite Hl; unfold MAX_THREADS in *; lia).
      rewrite decide_False by lia. unfold init_tcb. f_equal.
      apply bool_decide_eq_true. lia.
Qed.

Lemma init_threading_spec_witness :
  initialized (init_threading boot) = true /\ num_threads (init_threading boot) = 1 /\
  tcb_at (tcb_array (init_threading boot)) 0 =
    mkTCB 0 NULL CtxZero RUNNING NULL NULL NULL (-1) false.
Proof.
  destruct (init_threading_spec boot) as [_ H].
  destruct H as (H1 & H2 & _ & _ & _ & _ & H3 & _); [reflexivity | reflexivity |].
  split; [exact H1|]. split; [exact H2 | exact H3].
Defined.

(** X17: cleanup_all_resources does nothing when the runtime is not
    initialised, so that a second call is harmless.  Otherwise it wipes
    the records below num_threads (thread_id 0, EXITED, joined, no
    joiner, context cleared), frees every stack but the one of the
    current thread, which it runs on, empties the semaphore directory and
    resets num_threads, current_thread and initialized; records from
    num_threads on are left alone. *)
Theorem cleanup_all_resources_spec s :
  (initialized s = false -> cleanup_all_resources s = s) /\
  cleanup_all_resources (cleanup_all_resources s) = cleanup_all_resources s /\
  (initialized s = true -> 0 <= num_threads s <= Z.of_nat (length (tcb_array s)) ->
   let s' := cleanup_all_resources s in
   initialized s' = false /\ num_threads s' = 0 /\ current_thread s' = 0 /\
   semaphores s' = [] /\ user_mem s' = user_mem s /\
   length (tcb_array s') = length (tcb_array s) /\
   (forall i, 0 <= i < num_threads s ->
      tcb_at (tcb_array s') i =
        mkTCB 0 (if decide (i = current_thread s) then stack (tcb_at (tcb_array s) i)
                 else NULL)
              CtxZero EXITED NULL NULL NULL (-1) true) /\
   (forall i, ~ 0 <= i < num_threads s ->
      tcb_at (tcb_array s') i = tcb_at (tcb_array s) i)).
Proof.
  split; [|split].
  - intros Hi. unfold cleanup_all_resources. by rewrite Hi.
  - unfold cleanup_all_resources. destruct (initialized s) eqn:Hi; [done|]. by rewrite Hi.
  - intros Hi Hn s'. subst s'. unfold cleanup_all_resources. rewrite Hi.
    cbn [initialized num_threads current_thread semaphores user_mem tcb_array].
    rewrite (loop_length (cleanup_tcb (current_thread s))).
    split; [done|]. split; [done|]. split; [done|]. split; [done|]. split; [done|].
    split; [done|].
    assert (num_threads s = Z.of_nat (Z.to_nat (num_threads s))) as En by lia.
    revert En. generalize (Z.to_nat (num_threads s)) as m. intros m En. rewrite En in *.
    split; intros i Hr; rewrite (tcb_at_loop (cleanup_tcb (current_thread s))).
    + rewrite decide_True by lia. unfold cleanup_tcb. f_equal.
      repeat case_decide; try done; unfold NULL in *; lia.
    + rewrite decide_False by lia. done.
Qed.

Lemma cleanup_all_resources_spec_witness :
  initialized (cleanup_all_resources joined_once_1) = false /\
  num_threads (cleanup_all_resources joined_once_1) = 0 /\
  stack (tcb_at (tcb_array joined_once_1) 1) = 5000 /\
  tcb_at (tcb_array (cleanup_all_resources joined_once_1)) 1 =
    mkTCB 0 NULL CtxZero EXITED NULL NULL NULL (-1) true.
Proof.
  destruct (cleanup_all_resources_spec joined_once_1) as (_ & _ & H).
  destruct H as (H1 & H2 & _ & _ & _ & _ & H3 & _); [by vm_compute | by vm_compute |].
  split; [exact H1|]. split; [exact H2|]. split; [by vm_compute|].
  rewrite (H3 1) by (by vm_compute). by vm_compute.
Defined.

(** ** The entry context of a new thread *)

(** X18: for a stack block that does not wrap around the address space,
    the initial stack pointer of a new thread lies inside the block, at
    least 8 and at most 23 bytes below its end, and is congruent to 8
    modulo 16. *)
Theorem initial_sp_spec stack :
  0 <= stack -> stack + STACK_SIZE < 2 ^ 64 ->
  initial_sp stack mod 16 = 8 /\
  stack <= initial_sp stack /\
  stack + STACK_SIZE - 23 <= initial_sp stack <= stack + STACK_SIZE - 8.
Proof.
  intros H0 H1. unfold initial_sp, to_ulong, STACK_SIZE in *.
  rewrite (Z.mod_small (stack + 32767)) by lia.
  pose proof (Z.mod_pos_bound (stack + 32767) 16 ltac:(lia)) as Hm.
  pose proof (Z.div_mod (stack + 32767) 16 ltac:(lia)) as Hd.
  rewrite (Z.mod_small (stack + 32767 - _)) by lia.
  rewrite (Z.mod_small (stack + 32767 - _ - 8)) by lia.
  split; [|lia].
  replace (stack + 32767 - (stack + 32767) mod 16 - 8)
    with (8 + ((stack + 32767) / 16 - 1) * 16) by lia.
  by rewrite Z.mod_add by lia.
Qed.

Lemma initial_sp_spec_witness :
  initial_sp 5000 mod 16 = 8 /\ 5000 <= initial_sp 5000 /\
  5000 + STACK_SIZE - 23 <= initial_sp 5000 <= 5000 + STACK_SIZE - 8.
Proof. apply (initial_sp_spec 5000); by vm_compute. Defined.

Lemma rol17_bit x i :
  0 <= x < 2 ^ 64 -> 0 <= i ->
  Z.testbit (rol17 x) i =
    if decide (i < 17) then Z.testbit x (i + 47)
    else if decide (i < 64) then Z.testbit x (i - 17) else false.
Proof.
  intros Hx Hi. unfold rol17, to_ulong.
  rewrite Z.lor_spec, Z.testbit_mod_pow2 by lia.
  rewrite Z.shiftl_spec, Z.shiftr_spec by lia.
  assert (forall j, 64 <= j -> Z.testbit x j = false) as Hhigh.
  { intros j Hj. rewrite <- (Z.mod_small x (2 ^ 64)) by lia.
    rewrite Z.testbit_mod_pow2 by lia.
    destruct (Z.ltb_spec j 64); [lia | done]. }
  repeat case_decide.
  - rewrite (Z.testbit_neg_r x (i - 17)) by lia. by rewrite andb_false_r.
  - destruct (Z.ltb_spec i 64); [|lia]. simpl. rewrite (Hhigh (i + 47)) by lia.
    by rewrite orb_false_r.
  - destruct (Z.ltb_spec i 64); [lia|]. simpl. apply Hhigh. lia.
Qed.

(** X19: mangling is injective: under one pointer guard, two 64-bit
    values with the same mangled form are equal, so the stack pointer and
    the entry point stored in a context determine what longjmp restores.
    The mangled value is again a 64-bit value. *)
Theorem i64_ptr_mangle_injective guard p q :
  0 <= guard < 2 ^ 64 -> 0 <= p < 2 ^ 64 -> 0 <= q < 2 ^ 64 ->
  0 <= i64_ptr_mangle guard p < 2 ^ 64 /\
  (i64_ptr_mangle guard p = i64_ptr_mangle guard q -> p = q).
Proof.
  intros Hg Hp Hq.
  assert (forall a b, 0 <= a < 2 ^ 64 -> 0 <= b < 2 ^ 64 -> 0 <= Z.lxor a b < 2 ^ 64) as Hx.
  { intros a b Ha Hb. split; [apply Z.lxor_nonneg; lia|].
    destruct (decide (Z.lxor a b = 0)) as [->|Hne]; [lia|].
    apply Z.log2_lt_pow2; [pose proof (Z.lxor_nonneg a b); lia|].
    eapply Z.le_lt_trans; [apply Z.log2_lxor; lia|].
    apply Z.max_lub_lt.
    - destruct (decide (a = 0)) as [->|?]; [done|]. apply Z.log2_lt_pow2; lia.
    - destruct (decide (b = 0)) as [->|?]; [done|]. apply Z.log2_lt_pow2; lia. }
  assert (forall x y, 0 <= x < 2 ^ 64 -> 0 <= y < 2 ^ 64 -> rol17 x = rol17 y -> x = y)
    as Hinj.
  { intros x y Hx' Hy E. apply Z.bits_inj'. intros j Hj.
    assert (forall z, 0 <= z < 2 ^ 64 -> 64 <= j -> Z.testbit z j = false) as Hhigh.
    { intros z Hz Hj'. rewrite <- (Z.mod_small z (2 ^ 64)) by lia.
      rewrite Z.testbit_mod_pow2 by lia. destruct (Z.ltb_spec j 64); [lia | done]. }
    destruct (decide (j < 47)) as [Hlow|Hmid].
    - pose proof (rol17_bit x (j + 17) Hx' ltac:(lia)) as Ex.
      pose proof (rol17_bit y (j + 17) Hy ltac:(lia)) as Ey.
      rewrite decide_False, decide_True in Ex, Ey by lia.
      replace (j + 17 - 17) with j in Ex, Ey by lia. congruence.
    - destruct (decide (j < 64)) as [Hj64|Hj64].
      + pose proof (rol17_bit x (j - 47) Hx' ltac:(lia)) as Ex.
        pose proof (rol17_bit y (j - 47) Hy ltac:(lia)) as Ey.
        rewrite decide_True in Ex, Ey by lia.
        replace (j - 47 + 47) with j in Ex, Ey by lia. congruence.
      + rewrite !Hhigh by lia. done. }
  split.
  - unfold i64_ptr_mangle, rol17, to_ulong.
    pose proof (Hx p guard Hp Hg) as Hpg.
    assert (0 <= Z.shiftr (Z.lxor p guard) 47 < 2 ^ 64) as Hr.
    { rewrite Z.shiftr_div_pow2 by lia. split; [apply Z.div_pos; lia|].
      apply Z.div_lt_upper_bound; lia. }
    pose proof (Z.mod_pos_bound (Z.shiftl (Z.lxor p guard) 17) (2 ^ 64) ltac:(lia)) as Hl.
    split; [apply Z.lor_nonneg; lia|].
    set (a := Z.shiftl (Z.lxor p guard) 17 mod 2 ^ 64) in *.
    set (b := Z.shiftr (Z.lxor p guard) 47) in *.
    destruct (decide (Z.lor a b = 0)) as [->|Hne]; [lia|].
    apply Z.log2_lt_pow2; [pose proof (proj2 (Z.lor_nonneg a b)); lia|].
    rewrite Z.log2_lor by lia. apply Z.max_lub_lt.
    + destruct (decide (a = 0)) as [->|?]; [done|]. apply Z.log2_lt_pow2; lia.
    + destruct (decide (b = 0)) as [->|?]; [done|]. apply Z.log2_lt_pow2; lia.
  - intros E. apply Hinj in E; [|by apply Hx | by apply Hx].
    rewrite <- (Z.lxor_0_r p), <- (Z.lxor_nilpotent guard), <- Z.lxor_assoc, E.
    by rewrite Z.lxor_assoc, Z.lxor_nilpotent, Z.lxor_0_r.
Qed.

Lemma i64_ptr_mangle_injective_witness :
  0 <= i64_ptr_mangle 12345 37744 < 2 ^ 64.
Proof.
  apply (i64_ptr_mangle_injective 12345 37744 37744); by vm_compute.
Defined.
